(** * Minipool withdrawal command: model and properties

    A shallow embedding of [withdrawMinipool]
    (rocketpool-cli/minipool/withdraw.go) together with the fragments of
    the Go standard library it relies on ([strings], [strconv], [fmt],
    [regexp]).  The goroutines of the status-collection phase are run by
    an explicit schedule; everything after it is sequential and threads
    the chain state, the operator's input and the output sink. *)

From Stdlib Require Import ZArith Lia List Bool Ascii String.
From stdpp Require Import base list.
Import ListNotations.

Local Open Scope string_scope.
Local Open Scope Z_scope.

(** ** Characters *)

Definition byte_of (c : ascii) : Z := Z.of_N (N_of_ascii c).
Definition char_of (n : Z) : ascii := ascii_of_N (Z.to_N n).

Definition isDigit (c : ascii) : bool := (48 <=? byte_of c) && (byte_of c <=? 57).
Definition isUpper (c : ascii) : bool := (65 <=? byte_of c) && (byte_of c <=? 90).
Definition isLower (c : ascii) : bool := (97 <=? byte_of c) && (byte_of c <=? 122).
Definition isLetter (c : ascii) : bool := isUpper c || isLower c.

Definition toLower (c : ascii) : ascii := if isUpper c then char_of (byte_of c + 32) else c.
Definition toUpper (c : ascii) : ascii := if isLower c then char_of (byte_of c - 32) else c.

Fixpoint mapString (f : ascii -> ascii) (s : string) : string :=
  match s with
  | EmptyString => EmptyString
  | String c r => String (f c) (mapString f r)
  end.

Fixpoint allString (f : ascii -> bool) (s : string) : bool :=
  match s with
  | EmptyString => true
  | String c r => f c && allString f r
  end.

(** ** Package strings *)

Module strings.

(** [strings.Join(elems, sep)]. *)
Fixpoint Join (elems : list string) (sep : string) : string :=
  match elems with
  | [] => ""
  | x :: rest =>
      match rest with
      | [] => x
      | _ :: _ => x ++ sep ++ Join rest sep
      end
  end.

(** [strings.ToLower] on ASCII text.  Bytes above 127 are kept as they
    are; the source only compares the result on a one-byte string with
    ["a"], and no mapping of such a byte yields ["a"]. *)
Definition ToLower (s : string) : string := mapString toLower s.

(** [strings.Title] on ASCII text: a letter that follows a separator
    (any byte that is not a letter, a digit or an underscore) is put in
    upper case; the text starts after a separator. *)
Definition isSeparator (c : ascii) : bool :=
  negb (isLetter c || isDigit c || (byte_of c =? 95)).

Fixpoint titleFrom (prev : ascii) (s : string) : string :=
  match s with
  | EmptyString => EmptyString
  | String c r => String (if isSeparator prev then toUpper c else c) (titleFrom c r)
  end.

Definition Title (s : string) : string := titleFrom " "%char s.

(** [strings.Split(s, sep)] for a one-byte separator. *)
Fixpoint Split (s : string) (sep : ascii) : list string :=
  match s with
  | EmptyString => [""]
  | String c r =>
      if Ascii.eqb c sep then "" :: Split r sep
      else match Split r sep with
           | [] => [String c ""]
           | x :: xs => String c x :: xs
           end
  end.

(** [strings.CutPrefix] and [strings.CutSuffix]. *)
Fixpoint CutPrefix (s prefix : string) : option string :=
  match prefix with
  | EmptyString => Some s
  | String p prefix' =>
      match s with
      | EmptyString => None
      | String c s' => if Ascii.eqb c p then CutPrefix s' prefix' else None
      end
  end.

Fixpoint CutSuffix (s suffix : string) : option string :=
  if String.eqb s suffix then Some ""
  else match s with
       | EmptyString => None
       | String c s' => option_map (String c) (CutSuffix s' suffix)
       end.

(** [strings.EqualFold] on ASCII text. *)
Definition EqualFold (s t : string) : bool :=
  String.eqb (mapString toLower s) (mapString toLower t).

End strings.

(** ** Package strconv *)

Module strconv.

Definition maxInt : Z := 2 ^ 63 - 1.
Definition minInt : Z := - 2 ^ 63.

Inductive NumError := ErrSyntax | ErrRange.

(** Decimal digits of a non-negative number, most significant first,
    written in front of [acc]. *)
Fixpoint formatBits (fuel : nat) (n : Z) (acc : string) : string :=
  let acc' := String (char_of (48 + n mod 10)) acc in
  match fuel with
  | O => acc'
  | S fuel' => if n <? 10 then acc' else formatBits fuel' (n / 10) acc'
  end.

(** [strconv.Itoa]. *)
Definition Itoa (i : Z) : string :=
  if i <? 0 then String "-" (formatBits (Z.to_nat (Z.log2 (- i))) (- i) "")
  else formatBits (Z.to_nat (Z.log2 i)) i "".

(** The digit loop of [Atoi]: [n = n*10 + (ch - '0')], failing on the
    first byte that is not a digit. *)
Fixpoint parseDigits (s : string) (n : Z) : option Z :=
  match s with
  | EmptyString => Some n
  | String ch r => if isDigit ch then parseDigits r (n * 10 + (byte_of ch - 48)) else None
  end.

(** [strconv.Atoi]: an optional sign and at least one digit; the value
    returned with an error is 0 for bad syntax and the nearest bound
    when out of range. *)
Definition Atoi (s : string) : Z * option NumError :=
  let '(neg, body) :=
    match s with
    | String c r =>
        if Ascii.eqb c "-" then (true, r)
        else if Ascii.eqb c "+" then (false, r)
        else (false, s)
    | EmptyString => (false, s)
    end in
  match body with
  | EmptyString => (0, Some ErrSyntax)
  | _ =>
      match parseDigits body 0 with
      | None => (0, Some ErrSyntax)
      | Some n =>
          let v := if neg then - n else n in
          if maxInt <? v then (maxInt, Some ErrRange)
          else if v <? minInt then (minInt, Some ErrRange)
          else (v, None)
      end
  end.

End strconv.


(** ** Package fmt *)

Module fmt.

(** Operands of the formatting calls in the source: strings and ints. *)
Inductive Arg := AString (s : string) | AInt (i : Z).

Definition typeName (a : Arg) : string :=
  match a with AString _ => "string" | AInt _ => "int" end.

Definition valueText (a : Arg) : string :=
  match a with AString s => s | AInt i => strconv.Itoa i end.

Definition accepts (verb : ascii) (a : Arg) : bool :=
  match a with
  | AString _ => Ascii.eqb verb "s" || Ascii.eqb verb "v"
  | AInt _ => Ascii.eqb verb "d" || Ascii.eqb verb "v"
  end.

(** Operands left over once the format is exhausted. *)
Definition extra (a : list Arg) : string :=
  match a with
  | [] => ""
  | _ :: _ =>
      "%!(EXTRA " ++ strings.Join (map (fun x => typeName x ++ "=" ++ valueText x) a) ", " ++ ")"
  end.

(** [fmt.Sprintf] for formats whose directives are a ['%'] directly
    followed by the verb.  A verb consumes the next operand; ["%%"]
    prints a percent sign; a verb with no operand left prints
    ["%!verb(MISSING)"]; a verb its operand does not support prints
    ["%!verb(type=value)"]; a trailing ['%'] prints ["%!(NOVERB)"].
    Flags, width, precision and explicit operand indexes, and the
    verbs other than [%s], [%d] and [%v] on an operand, are not
    modelled: [plain] below delimits the formats on which this
    definition follows the library. *)
Fixpoint Sprintf (format : string) (a : list Arg) : string :=
  match format with
  | EmptyString => extra a
  | String c rest =>
      if negb (Ascii.eqb c "%") then String c (Sprintf rest a)
      else
        match rest with
        | EmptyString => "%!(NOVERB)" ++ extra a
        | String verb rest' =>
            if Ascii.eqb verb "%" then String "%" (Sprintf rest' a)
            else
              match a with
              | [] => "%!" ++ String verb "(MISSING)" ++ Sprintf rest' []
              | arg :: a' =>
                  (if accepts verb arg then valueText arg
                   else "%!" ++ String verb ("(" ++ typeName arg ++ "=" ++ valueText arg ++ ")"))
                  ++ Sprintf rest' a'
              end
        end
  end.

(** A byte that starts a flag, a width, a precision or an operand
    index rather than being a verb, or that starts a multi-byte rune. *)
Definition directiveByte (c : ascii) : bool :=
  isDigit c || existsb (Ascii.eqb c) ["+"; "-"; "#"; " "; "."; "*"; "["]%char
  || (127 <? byte_of c).

(** The formats covered by the model, for a given operand list. *)
Fixpoint plain (format : string) (a : list Arg) : bool :=
  match format with
  | EmptyString => true
  | String c rest =>
      if negb (Ascii.eqb c "%") then plain rest a
      else
        match rest with
        | EmptyString => true
        | String verb rest' =>
            if Ascii.eqb verb "%" then plain rest' a
            else
              negb (directiveByte verb)
              && match a with
                 | [] => plain rest' []
                 | arg :: a' => accepts verb arg && plain rest' a'
                 end
        end
  end.

End fmt.

(** ** Package regexp *)

Module regexp.

(** Bytes that are literals of a pattern and whose case-insensitive
    matches are ASCII only: digits, and the letters other than k and s
    (which also fold to U+212A and U+017F). *)
Definition literalByte (c : ascii) : bool :=
  isDigit c
  || (isLetter c && negb (Ascii.eqb (toLower c) "k") && negb (Ascii.eqb (toLower c) "s")).

(** [regexp.MatchString] for the patterns of the form
    [(?i)^(alt|...|alt)$] whose alternatives are sequences of literal
    bytes: the text matches when it equals one alternative up to
    ASCII case.  [None] for any other pattern. *)
Definition MatchString (pattern s : string) : option bool :=
  match strings.CutPrefix pattern "(?i)^(" with
  | None => None
  | Some r =>
      match strings.CutSuffix r ")$" with
      | None => None
      | Some body =>
          let alts := strings.Split body "|" in
          if forallb (allString literalByte) alts
          then Some (existsb (strings.EqualFold s) alts)
          else None
      end
  end.

End regexp.


(** ** Data model *)

(** Go's [error], represented by the text [err.Error()] returns. *)
Definition error := string.

Inductive result (A : Type) :=
| Ok (a : A)
| Err (err : error).
Arguments Ok {A} a.
Arguments Err {A} err.

Module common.
(** [common.Address], represented by its rendering [Hex()]. *)
Record Address := HexToAddress { Hex : string }.
End common.

Module minipool.

(** Modelled from the spec: the lifecycle states of package
    [rocketpool/minipool], whose declarations are not part of the
    sources at hand.  [OTHER] stands for the states the spec leaves
    open. *)
Inductive status :=
| INITIALIZED | STAKING | WITHDRAWABLE | WITHDRAWN | TIMED_OUT | DISSOLVED
| OTHER (code : nat).

Definition status_eqb (a b : status) : bool :=
  match a, b with
  | INITIALIZED, INITIALIZED | STAKING, STAKING | WITHDRAWABLE, WITHDRAWABLE
  | WITHDRAWN, WITHDRAWN | TIMED_OUT, TIMED_OUT | DISSOLVED, DISSOLVED => true
  | OTHER m, OTHER n => Nat.eqb m n
  | _, _ => false
  end.

(** The fields of [minipool.NodeStatus] the command reads. *)
Record NodeStatus := {
  Address : common.Address;
  Status : status;
  StatusType : string;
  DepositExists : bool
}.

End minipool.

(** RocketMinipool NodeWithdrawal event. *)
Record NodeWithdrawal := {
  To : common.Address;
  EtherAmount : Z;
  RethAmount : Z;
  RplAmount : Z;
  Created : Z
}.

(** An element of the slice [eth.GetTransactionEvents] returns, a value
    of type [interface{}], by its dynamic type. *)
Inductive any :=
| NodeWithdrawalPtr (nodeWithdrawalEvent : NodeWithdrawal)  (* a [*NodeWithdrawal], not nil *)
| NilNodeWithdrawalPtr                                      (* a nil [*NodeWithdrawal] *)
| OtherValue (dynamicType : string).                        (* another type, or the nil interface *)

(** The type assertion of line 149 on an element [v], and the reads
    of the fields of its result that follow: the event, or [None] when
    the assertion or the dereference panics. *)
Class TypeAssertion (Event : Type) := nodeWithdrawal : Event -> option NodeWithdrawal.

(** On an interface value the assertion is unchecked: it holds of a
    [*NodeWithdrawal] only, and the fields of a nil one cannot be read. *)
#[global] Instance dynamicAssertion : TypeAssertion any :=
  fun v => match v with
           | NodeWithdrawalPtr nodeWithdrawalEvent => Some nodeWithdrawalEvent
           | NilNodeWithdrawalPtr | OtherValue _ => None
           end.

(** Elements that are already of the type named by the prototype
    [NodeWithdrawal{}], which line 144 passes to
    [eth.GetTransactionEvents] and line 149 asserts: on them the
    assertion holds. *)
#[global] Instance typedAssertion : TypeAssertion NodeWithdrawal := Some.

(** How a run of the command ends. *)
Inductive exit :=
| Return (err : option error)   (* [return nil] or [return err] *)
| Panic                         (* a run-time panic: slice or index out of range,
                                   failed type assertion, nil dereference *)
| Blocked.                      (* still waiting, for a goroutine or for the operator *)

(** What the command did, in the order it did it. *)
Inductive event :=
| CheckWithdrawalAllowed
| FetchMinipoolAddresses
| QueryNodeStatus (a : common.Address)
| ReceiveNodeStatus (mi : nat) (s : minipool.NodeStatus)
| ReceiveNodeStatusError (err : error)
| AskOperator
| CreateTransactor (a : common.Address)
| SendWithdrawal (a : common.Address)
| ReadWithdrawalEvents (a : common.Address).

Definition LF : string := String (ascii_of_nat 10) "".

(** ** Status collection: goroutines and channels

    One goroutine per address calls [minipool.GetNodeStatus] and then
    blocks sending either the status on its own channel
    [nodeStatusChannel[mi]] or the error on the shared
    [nodeStatusErrorChannel]; all channels are unbuffered.  The receive
    loop selects, for [mi] from 0, between channel [mi] and the error
    channel.  The order in which goroutines finish and the branch a
    select takes when both are ready are chosen by a schedule.  The model
    starts once all goroutines are spawned: spawning has no effect a
    goroutine or the receive loop can observe. *)

Inductive goroutine :=
| Querying                                         (* inside GetNodeStatus *)
| SendStatus (nodeStatus : minipool.NodeStatus)    (* at [nodeStatusChannel[mi] <- nodeStatus] *)
| SendError (err : error)                          (* at [nodeStatusErrorChannel <- err] *)
| Exited.

Inductive receiver :=
| Receiving (mi : nat) (withdrawableMinipools : list minipool.NodeStatus)
| Failed (err : error).                            (* [return err] *)

Record collection := {
  goroutines : list goroutine;
  main : receiver;
  observed : list event
}.

Inductive choice :=
| Finish (i : nat)      (* goroutine [i] gets its answer and reaches its send *)
| TakeStatus            (* the select receives from [nodeStatusChannel[mi]] *)
| TakeError (i : nat).  (* the select receives from the error channel, sender [i] *)

(** The filter of the receive loop. *)
Definition withdrawable (nodeStatus : minipool.NodeStatus) : bool :=
  (minipool.status_eqb (minipool.Status nodeStatus) minipool.INITIALIZED
   || minipool.status_eqb (minipool.Status nodeStatus) minipool.WITHDRAWN
   || minipool.status_eqb (minipool.Status nodeStatus) minipool.TIMED_OUT)
  && minipool.DepositExists nodeStatus.

Section StatusCollection.

Variable GetNodeStatus : common.Address -> result minipool.NodeStatus.
Variable minipoolAddresses : list common.Address.

Definition minipoolCount : nat := length minipoolAddresses.

Definition spawned : collection :=
  {| goroutines := replicate minipoolCount Querying;
     main := Receiving 0 [];
     observed := [] |}.

Definition finished (c : collection) : bool :=
  match main c with
  | Failed _ => true
  | Receiving mi _ => negb (mi <? minipoolCount)%nat
  end.

Definition step (ch : choice) (c : collection) : collection :=
  match ch with
  | Finish i =>
      match goroutines c !! i, minipoolAddresses !! i with
      | Some Querying, Some a =>
          {| goroutines :=
               <[i := match GetNodeStatus a with
                      | Err err => SendError err
                      | Ok nodeStatus => SendStatus nodeStatus
                      end]> (goroutines c);
             main := main c;
             observed := observed c ++ [QueryNodeStatus a] |}
      | _, _ => c
      end
  | TakeStatus =>
      match main c with
      | Receiving mi withdrawableMinipools =>
          match goroutines c !! mi with
          | Some (SendStatus nodeStatus) =>
              {| goroutines := <[mi := Exited]> (goroutines c);
                 main := Receiving (S mi)
                           (if withdrawable nodeStatus
                            then withdrawableMinipools ++ [nodeStatus]
                            else withdrawableMinipools);
                 observed := observed c ++ [ReceiveNodeStatus mi nodeStatus] |}
          | _ => c
          end
      | Failed _ => c
      end
  | TakeError i =>
      match main c with
      | Receiving mi _ =>
          match goroutines c !! i with
          | Some (SendError err) =>
              if (mi <? minipoolCount)%nat
              then {| goroutines := <[i := Exited]> (goroutines c);
                      main := Failed err;
                      observed := observed c ++ [ReceiveNodeStatusError err] |}
              else c
          | _ => c
          end
      | Failed _ => c
      end
  end.

(** Run a schedule until the receive loop is over. *)
Fixpoint run (sched : list choice) (c : collection) : collection :=
  match sched with
  | [] => c
  | ch :: sched' => if finished c then c else run sched' (step ch c)
  end.

Definition collect (sched : list choice) : collection := run sched spawned.

End StatusCollection.

(** ** The command's state and collaborators *)

(** The services behind [services.NewProvider]: contract manager,
    account manager and client, over a chain state [W].  Read-only
    contract calls leave the chain state as it is; creating a transactor
    and sending a transaction may change it.
    [getWithdrawalAllowed] is the call of ["getWithdrawalAllowed"] on
    the rocketNodeSettings contract; [GetMinipoolAddresses] is
    [node.GetMinipoolAddresses] on the address of the node account (the
    error of [GetNodeAccount] is dropped by the source); [showEth x] is
    the text [%.2f] prints for [eth.WeiToEth(x)], floating point not
    being modelled.  [Event] is the type of the elements
    [eth.GetTransactionEvents] returns: [any] for the interface values of
    the source. *)
Record Services (Event W Transactor Receipt : Type) := {
  getWithdrawalAllowed : W -> result bool;
  GetMinipoolAddresses : W -> result (list common.Address);
  GetNodeStatus : W -> common.Address -> result minipool.NodeStatus;
  GetNodeAccountTransactor : W -> W * result Transactor;
  ExecuteContractTransaction : W -> Transactor -> common.Address -> W * result Receipt;
  GetTransactionEvents : W -> Receipt -> common.Address -> result (list Event);
  showEth : Z -> string
}.
Arguments getWithdrawalAllowed {Event W Transactor Receipt} p w : rename.
Arguments GetMinipoolAddresses {Event W Transactor Receipt} p w : rename.
Arguments GetNodeStatus {Event W Transactor Receipt} p w a : rename.
Arguments GetNodeAccountTransactor {Event W Transactor Receipt} p w : rename.
Arguments ExecuteContractTransaction {Event W Transactor Receipt} p w txor a : rename.
Arguments GetTransactionEvents {Event W Transactor Receipt} p w txReceipt a : rename.
Arguments showEth {Event W Transactor Receipt} p x : rename.

(** The services whose event retrieval returns [NodeWithdrawal] values:
    what the prototype [NodeWithdrawal{}] passed at line 144 asks for. *)
Abbreviation Provider := (Services NodeWithdrawal).

Record state (W : Type) := {
  chain : W;                 (* the chain and the node account *)
  Input : list string;       (* the lines the operator will type, [p.Input] *)
  Output : list string;      (* the lines printed so far, [p.Output] *)
  calls : list event
}.
Arguments chain {W} s.
Arguments Input {W} s.
Arguments Output {W} s.
Arguments calls {W} s.

(** Computations over the state that either go on with a value or leave
    the command. *)
Definition M (W A : Type) : Type := state W -> state W * (exit + A).

Definition ret {W A} (a : A) : M W A := fun st => (st, inr a).

Definition leave {W A} (e : exit) : M W A := fun st => (st, inl e).

Definition bind {W A B} (m : M W A) (k : A -> M W B) : M W B :=
  fun st =>
    match m st with
    | (st', inr a) => k a st'
    | (st', inl e) => (st', inl e)
    end.

Notation "x <- m ;; k" := (bind m (fun x => k))
  (at level 100, m at next level, right associativity).
Notation "m ;;; k" := (bind m (fun _ => k))
  (at level 100, right associativity).

(** [fmt.Fprintln(p.Output, line)]. *)
Definition Fprintln {W} (line : string) : M W unit :=
  fun st =>
    ({| chain := chain st; Input := Input st;
        Output := Output st ++ [line]; calls := calls st |}, inr tt).

Definition record {W} (evs : list event) : M W unit :=
  fun st =>
    ({| chain := chain st; Input := Input st;
        Output := Output st; calls := calls st ++ evs |}, inr tt).

(** A read-only call. *)
Definition query {W A} (ev : event) (f : W -> A) : M W A :=
  record [ev] ;;; fun st => (st, inr (f (chain st))).

(** A call that may change the chain state. *)
Definition call {W A} (ev : event) (f : W -> W * A) : M W A :=
  record [ev] ;;;
  fun st =>
    let (w, a) := f (chain st) in
    ({| chain := w; Input := Input st; Output := Output st; calls := calls st |}, inr a).

(** Modelled from the spec: [cliutils.Prompt], whose source is not at
    hand.  It prints the initial prompt, then reads the operator's lines
    until one matches the expected format, printing the
    incorrect-format prompt after each line that does not; it blocks
    when no line is left. *)
Fixpoint readValid {W} (lines : list string) (expectedFormat incorrectFormatPrompt : string)
  : M W string :=
  match lines with
  | [] => leave Blocked
  | line :: rest =>
      (fun st =>
         ({| chain := chain st; Input := rest; Output := Output st; calls := calls st |},
          inr tt)) ;;;
      match regexp.MatchString expectedFormat line with
      | Some true => ret line
      | _ =>
          Fprintln incorrectFormatPrompt ;;;
          readValid rest expectedFormat incorrectFormatPrompt
      end
  end.

Definition Prompt {W} (initialPrompt expectedFormat incorrectFormatPrompt : string)
  : M W string :=
  record [AskOperator] ;;;
  Fprintln initialPrompt ;;;
  fun st => readValid (Input st) expectedFormat incorrectFormatPrompt st.

(** ** withdrawMinipool *)

Section Withdraw.

Context {Event W Transactor Receipt : Type} {assertion : TypeAssertion Event}.
Variable p : Services Event W Transactor Receipt.

(** Get minipool node statuses; receive them and filter withdrawable
    minipools.  The goroutines query the chain state of the moment. *)
Definition receiveStatuses (sched : list choice) (minipoolAddresses : list common.Address)
  : M W (list minipool.NodeStatus) :=
  fun st =>
    let c := collect (GetNodeStatus p (chain st)) minipoolAddresses sched in
    let st' := {| chain := chain st; Input := Input st; Output := Output st;
                  calls := calls st ++ observed c |} in
    match main c with
    | Failed err => (st', inl (Return (Some err)))
    | Receiving _ withdrawableMinipools =>
        if finished minipoolAddresses c then (st', inr withdrawableMinipools)
        else (st', inl Blocked)
    end.

(** The menu loop: one prompt line and one option per withdrawable
    minipool, numbered from 1. *)
Fixpoint menu (mi : nat) (withdrawableMinipools : list minipool.NodeStatus)
         (prompt options : list string) : list string * list string :=
  match withdrawableMinipools with
  | [] => (prompt, options)
  | minipoolStatus :: rest =>
      menu (S mi) rest
        (prompt ++ [fmt.Sprintf "%d: %s (%s)"
                      [fmt.AInt (Z.of_nat mi + 1);
                       fmt.AString (common.Hex (minipool.Address minipoolStatus));
                       fmt.AString (strings.Title (minipool.StatusType minipoolStatus))]])
        (options ++ [strconv.Itoa (Z.of_nat mi + 1)])
  end.

Definition selectionPrompt (withdrawableMinipools : list minipool.NodeStatus) : string :=
  strings.Join
    (fst (menu 0 withdrawableMinipools
            ["Please select a minipool to withdraw from by entering a number, or enter 'A' for all (excluding initialized):"]
            []))
    LF.

Definition selectionPattern (withdrawableMinipools : list minipool.NodeStatus) : string :=
  fmt.Sprintf "(?i)^(%s|a|all)$"
    [fmt.AString (strings.Join (snd (menu 0 withdrawableMinipools [] [])) "|")].

(** The incorrect-format prompt of the selection. *)
Definition incorrectSelection : string :=
  "Please enter a minipool number or 'A' for all (excluding initialized)".

(** The all-branch: every withdrawable minipool that is not initialized. *)
Fixpoint exceptInitialized (withdrawableMinipools : list minipool.NodeStatus)
         (withdrawMinipoolAddresses : list common.Address) : list common.Address :=
  match withdrawableMinipools with
  | [] => withdrawMinipoolAddresses
  | minipoolStatus :: rest =>
      exceptInitialized rest
        (if negb (minipool.status_eqb (minipool.Status minipoolStatus) minipool.INITIALIZED)
         then withdrawMinipoolAddresses ++ [minipool.Address minipoolStatus]
         else withdrawMinipoolAddresses)
  end.

(** Get addresses of minipools to withdraw.  [response[:1]] panics on
    an empty response; the error of [Atoi] is dropped; indexing panics
    out of range. *)
Definition withdrawAddresses (withdrawableMinipools : list minipool.NodeStatus)
           (response : string) : exit + list common.Address :=
  match response with
  | EmptyString => inl Panic
  | String c _ =>
      if String.eqb (strings.ToLower (String c "")) "a"
      then inr (exceptInitialized withdrawableMinipools [])
      else
        let index := fst (strconv.Atoi response) in
        if (0 <=? index - 1) && (index - 1 <? Z.of_nat (length withdrawableMinipools))
        then match withdrawableMinipools !! Z.to_nat (index - 1) with
             | Some minipoolStatus => inr [minipool.Address minipoolStatus]
             | None => inl Panic
             end
        else inl Panic
  end.

(** One iteration of the withdrawal loop.  The type assertion of line
    149 is unchecked, and the fields of its result are read before
    anything is printed: on an element that is not a [NodeWithdrawal]
    the iteration panics. *)
Definition withdrawDeposit (minipoolAddress : common.Address) (withdrawErrors : list string)
  : M W (list string) :=
  let hex := fmt.AString (common.Hex minipoolAddress) in
  txor <- call (CreateTransactor minipoolAddress) (GetNodeAccountTransactor p) ;;
  match txor with
  | Err err =>
      ret (withdrawErrors
           ++ [fmt.Sprintf ("Error creating transactor for minipool %s: " ++ err) [hex]])%list
  | Ok txor =>
      Fprintln (fmt.Sprintf "Withdrawing deposit from minipool %s..." [hex]) ;;;
      txReceipt <- call (SendWithdrawal minipoolAddress)
                        (fun w => ExecuteContractTransaction p w txor minipoolAddress) ;;
      match txReceipt with
      | Err err =>
          ret (withdrawErrors
               ++ [fmt.Sprintf ("Error withdrawing deposit from minipool %s: " ++ err) [hex]])%list
      | Ok txReceipt =>
          nodeWithdrawalEvents <-
            query (ReadWithdrawalEvents minipoolAddress)
                  (fun w => GetTransactionEvents p w txReceipt minipoolAddress) ;;
          match nodeWithdrawalEvents with
          | Err err =>
              ret (withdrawErrors
                   ++ [fmt.Sprintf
                         ("Error retrieving node deposit withdrawal event for minipool %s: " ++ err)
                         [hex]])%list
          | Ok [] =>
              ret (withdrawErrors
                   ++ [fmt.Sprintf
                         "Could not retrieve node deposit withdrawal event for minipool %s"
                         [hex]])%list
          | Ok (first :: _) =>
              match nodeWithdrawal first with
              | None => leave Panic
              | Some nodeWithdrawalEvent =>
                  (* Log *)
                  Fprintln ("Successfully withdrew deposit of "
                            ++ showEth p (EtherAmount nodeWithdrawalEvent) ++ " ETH, "
                            ++ showEth p (RethAmount nodeWithdrawalEvent) ++ " rETH and "
                            ++ showEth p (RplAmount nodeWithdrawalEvent) ++ " RPL from minipool "
                            ++ common.Hex minipoolAddress) ;;;
                  ret withdrawErrors
              end
          end
      end
  end.

(** Withdraw node deposits, one address after the other. *)
Fixpoint withdrawDeposits (withdrawMinipoolAddresses : list common.Address)
         (withdrawErrors : list string) : M W (list string) :=
  match withdrawMinipoolAddresses with
  | [] => ret withdrawErrors
  | minipoolAddress :: rest =>
      withdrawErrors' <- withdrawDeposit minipoolAddress withdrawErrors ;;
      withdrawDeposits rest withdrawErrors'
  end.

Definition withdrawErrorsHeader : string :=
  "Error withdrawing deposits from one or more minipools:".

(** From "Cancel if no minipools to withdraw" to the end. *)
Definition finishWithdrawals (withdrawMinipoolAddresses : list common.Address)
  : M W Empty_set :=
  (* Cancel if no minipools to withdraw *)
  if (length withdrawMinipoolAddresses =? 0)%nat
  then Fprintln "No minipools to withdraw" ;;; leave (Return None)
  else
    (* Withdraw node deposits *)
    withdrawErrors <- withdrawDeposits withdrawMinipoolAddresses [withdrawErrorsHeader] ;;
    (* Return *)
    if (1 <? length withdrawErrors)%nat
    then leave (Return (Some (strings.Join withdrawErrors LF)))
    else leave (Return None).

(** From "Cancel if no minipools are withdrawable" to the end. *)
Definition selectMinipools (withdrawableMinipools : list minipool.NodeStatus)
  : M W Empty_set :=
  (* Cancel if no minipools are withdrawable *)
  if (length withdrawableMinipools =? 0)%nat
  then Fprintln "No minipools are currently available for withdrawal" ;;;
       leave (Return None)
  else
    (* Prompt for minipools to withdraw *)
    response <- Prompt (selectionPrompt withdrawableMinipools)
                       (selectionPattern withdrawableMinipools)
                       incorrectSelection ;;
    (* Get addresses of minipools to withdraw *)
    match withdrawAddresses withdrawableMinipools response with
    | inl e => leave e
    | inr withdrawMinipoolAddresses => finishWithdrawals withdrawMinipoolAddresses
    end.

(** The command, from the withdrawals-allowed check on. *)
Definition withdrawFrom (sched : list choice) : M W Empty_set :=
  (* Check withdrawals are allowed *)
  withdrawalsAllowed <- query CheckWithdrawalAllowed (getWithdrawalAllowed p) ;;
  match withdrawalsAllowed with
  | Err err =>
      leave (Return (Some ("Error checking node withdrawals enabled status: " ++ err)))
  | Ok false =>
      Fprintln "Node withdrawals are currently disabled in Rocket Pool" ;;;
      leave (Return None)
  | Ok true =>
      (* Get minipool addresses *)
      minipoolAddresses <- query FetchMinipoolAddresses (GetMinipoolAddresses p) ;;
      match minipoolAddresses with
      | Err err => leave (Return (Some err))
      | Ok minipoolAddresses =>
          (* Get minipool node statuses, filter withdrawable minipools *)
          withdrawableMinipools <- receiveStatuses sched minipoolAddresses ;;
          selectMinipools withdrawableMinipools
      end
  end.

End Withdraw.

(** What a run leaves behind. *)
Record outcome (W : Type) := {
  final : state W;
  ended : exit
}.
Arguments final {W} o.
Arguments ended {W} o.

(** Withdraw node deposit from a minipool: initialise services, then
    run the command on them.  The deferred [p.Cleanup()] has no effect
    on what is observed here. *)
Definition withdrawMinipool {Event W Transactor Receipt} {assertion : TypeAssertion Event}
           (NewProvider : result (Services Event W Transactor Receipt))
           (sched : list choice) (st : state W) : outcome W :=
  match NewProvider with
  | Err err => {| final := st; ended := Return (Some err) |}
  | Ok p =>
      match withdrawFrom p sched st with
      | (st', inl e) => {| final := st'; ended := e |}
      | (_, inr impossible) => match impossible with end
      end
  end.

(** A fresh invocation: nothing printed, nothing done yet. *)
Definition start {W} (w : W) (input : list string) : state W :=
  {| chain := w; Input := input; Output := []; calls := [] |}.

(** ** Reading the record of a run *)

(** The statuses handed to the body of the receive loop, with the
    iteration that received them. *)
Fixpoint delivered (evs : list event) : list (nat * minipool.NodeStatus) :=
  match evs with
  | [] => []
  | ReceiveNodeStatus mi s :: evs' => (mi, s) :: delivered evs'
  | _ :: evs' => delivered evs'
  end.

(** The addresses a transactor was requested for, that is, the
    iterations of the withdrawal loop. *)
Fixpoint attempted (evs : list event) : list common.Address :=
  match evs with
  | [] => []
  | CreateTransactor a :: evs' => a :: attempted evs'
  | _ :: evs' => attempted evs'
  end.

(** The errors the receive loop took from the error channel. *)
Fixpoint failures (evs : list event) : list error :=
  match evs with
  | [] => []
  | ReceiveNodeStatusError err :: evs' => err :: failures evs'
  | _ :: evs' => failures evs'
  end.

(** Events of the phases that follow status collection. *)
Definition laterPhase (ev : event) : bool :=
  match ev with
  | AskOperator | CreateTransactor _ | SendWithdrawal _ | ReadWithdrawalEvents _ => true
  | _ => false
  end.

(** The eligibility invariant of the data model, in the spec's words:
    the deposit exists and the state is Initialized, Withdrawn or
    TimedOut. *)
Definition eligible (s : minipool.NodeStatus) : Prop :=
  minipool.DepositExists s = true
  /\ (minipool.Status s = minipool.INITIALIZED
      \/ minipool.Status s = minipool.WITHDRAWN
      \/ minipool.Status s = minipool.TIMED_OUT).

(** The options of the menu loop: the numbers from [mi + 1] on. *)
Definition numbered (mi n : nat) : list string :=
  map (fun i => strconv.Itoa (Z.of_nat i + 1)) (seq mi n).

(** The test of the all-branch. *)
Definition notInitialized (s : minipool.NodeStatus) : bool :=
  negb (minipool.status_eqb (minipool.Status s) minipool.INITIALIZED).

(** No byte of [s] is [sep]. *)
Definition free_of (sep : ascii) (s : string) : bool :=
  allString (fun c => negb (Ascii.eqb c sep)) s.

(** The all-token, up to case. *)
Definition allToken (response : string) : bool :=
  strings.EqualFold response "a" || strings.EqualFold response "all".

(** The response starts with ['a'] or ['A']. *)
Definition startsWithA (response : string) : bool :=
  match response with
  | EmptyString => false
  | String c _ => Ascii.eqb c "a" || Ascii.eqb c "A"
  end.

(** ** The transaction executor, in the spec's words

    One attempt per address (section 4.4 of the spec): acquire a signer,
    submit the withdrawal and wait for it, decode the event.  An attempt
    produces one outcome (section 3): the withdrawal event with its
    amounts, or the error of the step that failed, for this address. *)

Inductive WithdrawalOutcome :=
| Withdrew (a : common.Address) (nodeWithdrawalEvent : NodeWithdrawal)
| SignerAcquisitionError (a : common.Address) (err : error)
| TransactionError (a : common.Address) (err : error)
| EventDecodeError (a : common.Address) (err : option error).  (* [None]: zero events found *)

Definition outcomeAddress (o : WithdrawalOutcome) : common.Address :=
  match o with
  | Withdrew a _ | SignerAcquisitionError a _ | TransactionError a _ | EventDecodeError a _ => a
  end.

Definition failed (o : WithdrawalOutcome) : bool :=
  match o with
  | Withdrew _ _ => false
  | _ => true
  end.

(** The text of the error an outcome carries. *)
Definition errorText (o : WithdrawalOutcome) : option error :=
  match o with
  | Withdrew _ _ => None
  | SignerAcquisitionError _ err | TransactionError _ err => Some err
  | EventDecodeError _ err => err
  end.

(** The line the report owes a failed outcome: what failed, the address
    it failed for and the text of the error, as they are. *)
Definition described (o : WithdrawalOutcome) : list string :=
  match o with
  | Withdrew _ _ => []
  | SignerAcquisitionError a err =>
      ["Error creating transactor for minipool " ++ common.Hex a ++ ": " ++ err]
  | TransactionError a err =>
      ["Error withdrawing deposit from minipool " ++ common.Hex a ++ ": " ++ err]
  | EventDecodeError a (Some err) =>
      ["Error retrieving node deposit withdrawal event for minipool " ++ common.Hex a
       ++ ": " ++ err]
  | EventDecodeError a None =>
      ["Could not retrieve node deposit withdrawal event for minipool " ++ common.Hex a]
  end.

(** The line the loop appends to [withdrawErrors] for an outcome, by
    the formatting calls of lines 134, 140, 145 and 147: the text of the
    error is part of the format, the address is its operand. *)
Definition recorded (o : WithdrawalOutcome) : list string :=
  match o with
  | Withdrew _ _ => []
  | SignerAcquisitionError a err =>
      [fmt.Sprintf ("Error creating transactor for minipool %s: " ++ err)
                   [fmt.AString (common.Hex a)]]
  | TransactionError a err =>
      [fmt.Sprintf ("Error withdrawing deposit from minipool %s: " ++ err)
                   [fmt.AString (common.Hex a)]]
  | EventDecodeError a (Some err) =>
      [fmt.Sprintf ("Error retrieving node deposit withdrawal event for minipool %s: " ++ err)
                   [fmt.AString (common.Hex a)]]
  | EventDecodeError a None =>
      [fmt.Sprintf "Could not retrieve node deposit withdrawal event for minipool %s"
                   [fmt.AString (common.Hex a)]]
  end.

(** The text of the error, if any, holds no percent sign. *)
Definition verbatim (o : WithdrawalOutcome) : bool :=
  match errorText o with
  | Some err => free_of "%" err
  | None => true
  end.

(** The line printed before a transaction is sent. *)
Definition progressLine (a : common.Address) : string :=
  "Withdrawing deposit from minipool " ++ common.Hex a ++ "...".

Section ExecutorSpec.

Context {Event W Transactor Receipt : Type} {assertion : TypeAssertion Event}.
Variable p : Services Event W Transactor Receipt.

(** The lines an attempt prints: none without a signer, the progress
    line once the transaction is sent, and the confirmation after a
    withdrawal. *)
Definition announced (o : WithdrawalOutcome) : list string :=
  match o with
  | SignerAcquisitionError _ _ => []
  | TransactionError a _ | EventDecodeError a _ => [progressLine a]
  | Withdrew a nodeWithdrawalEvent =>
      [progressLine a;
       "Successfully withdrew deposit of "
       ++ showEth p (EtherAmount nodeWithdrawalEvent) ++ " ETH, "
       ++ showEth p (RethAmount nodeWithdrawalEvent) ++ " rETH and "
       ++ showEth p (RplAmount nodeWithdrawalEvent) ++ " RPL from minipool "
       ++ common.Hex a]
  end.

(** [attempt a w w' evs o]: from chain state [w] the attempt on [a]
    makes the calls [evs], leaves the chain in [w'] and produces the
    outcome [o]. *)
Inductive attempt (a : common.Address) (w : W) : W -> list event -> WithdrawalOutcome -> Prop :=
| attempt_signer w1 err :
    GetNodeAccountTransactor p w = (w1, Err err) ->
    attempt a w w1 [CreateTransactor a] (SignerAcquisitionError a err)
| attempt_transaction w1 txor w2 err :
    GetNodeAccountTransactor p w = (w1, Ok txor) ->
    ExecuteContractTransaction p w1 txor a = (w2, Err err) ->
    attempt a w w2 [CreateTransactor a; SendWithdrawal a] (TransactionError a err)
| attempt_decode w1 txor w2 txReceipt err :
    GetNodeAccountTransactor p w = (w1, Ok txor) ->
    ExecuteContractTransaction p w1 txor a = (w2, Ok txReceipt) ->
    GetTransactionEvents p w2 txReceipt a = Err err ->
    attempt a w w2 [CreateTransactor a; SendWithdrawal a; ReadWithdrawalEvents a]
            (EventDecodeError a (Some err))
| attempt_no_event w1 txor w2 txReceipt :
    GetNodeAccountTransactor p w = (w1, Ok txor) ->
    ExecuteContractTransaction p w1 txor a = (w2, Ok txReceipt) ->
    GetTransactionEvents p w2 txReceipt a = Ok [] ->
    attempt a w w2 [CreateTransactor a; SendWithdrawal a; ReadWithdrawalEvents a]
            (EventDecodeError a None)
| attempt_withdrew w1 txor w2 txReceipt first more nodeWithdrawalEvent :
    GetNodeAccountTransactor p w = (w1, Ok txor) ->
    ExecuteContractTransaction p w1 txor a = (w2, Ok txReceipt) ->
    GetTransactionEvents p w2 txReceipt a = Ok (first :: more) ->
    nodeWithdrawal first = Some nodeWithdrawalEvent ->
    attempt a w w2 [CreateTransactor a; SendWithdrawal a; ReadWithdrawalEvents a]
            (Withdrew a nodeWithdrawalEvent).

(** The attempts on a list of addresses: in list order, one after the
    other, each starting from the chain state the previous one left, with
    one outcome each. *)
Inductive attempts
  : list common.Address -> W -> W -> list event -> list WithdrawalOutcome -> Prop :=
| attempts_nil w : attempts [] w w [] []
| attempts_cons a rest w w1 w2 evs1 evs2 o outcomes :
    attempt a w w1 evs1 o ->
    attempts rest w1 w2 evs2 outcomes ->
    attempts (a :: rest) w w2 (evs1 ++ evs2) (o :: outcomes).

(** The first element the event retrieval returns is a
    [NodeWithdrawal], whenever there is one. *)
Definition decodesNodeWithdrawals : Prop :=
  forall w txReceipt a first more,
    GetTransactionEvents p w txReceipt a = Ok (first :: more) ->
    nodeWithdrawal first <> None.

(** The attempt on [a] reaches the type assertion of line 149 with a
    first element that is not a [NodeWithdrawal]: the transaction was
    sent, leaving the chain in [w2]. *)
Definition aborts (a : common.Address) (w w2 : W) : Prop :=
  exists w1 txor txReceipt first more,
    GetNodeAccountTransactor p w = (w1, Ok txor)
    /\ ExecuteContractTransaction p w1 txor a = (w2, Ok txReceipt)
    /\ GetTransactionEvents p w2 txReceipt a = Ok (first :: more)
    /\ nodeWithdrawal first = None.

End ExecutorSpec.

(** ** Invariant of status collection *)

Section CollectionInvariant.

Variable GetNodeStatus : common.Address -> result minipool.NodeStatus.
Variable minipoolAddresses : list common.Address.

(** Goroutine [i] holds what its query returned; the receive loop at
    iteration [mi] has taken the statuses of the first [mi] addresses,
    in order, and kept the withdrawable ones; a failed loop holds the
    error of one of the queries. *)
Definition collecting (c : collection) : Prop :=
  length (goroutines c) = minipoolCount minipoolAddresses
  /\ Forall (fun ev => laterPhase ev = false) (observed c)
  /\ (forall i s, goroutines c !! i = Some (SendStatus s) ->
        exists a, minipoolAddresses !! i = Some a /\ GetNodeStatus a = Ok s)
  /\ (forall i err, goroutines c !! i = Some (SendError err) ->
        exists a, minipoolAddresses !! i = Some a /\ GetNodeStatus a = Err err)
  /\ match main c with
     | Receiving mi withdrawableMinipools =>
         (mi <= minipoolCount minipoolAddresses)%nat
         /\ (forall i, (mi <= i < minipoolCount minipoolAddresses)%nat ->
               goroutines c !! i <> Some Exited)
         /\ exists statuses,
             Forall2 (fun a s => GetNodeStatus a = Ok s) (take mi minipoolAddresses) statuses
             /\ withdrawableMinipools = List.filter withdrawable statuses
             /\ delivered (observed c) = combine (seq 0 mi) statuses
             /\ failures (observed c) = []
     | Failed err =>
         (exists a, In a minipoolAddresses /\ GetNodeStatus a = Err err)
         /\ failures (observed c) = [err]
     end.

(** The receive loop has reached iteration [k], or has failed. *)
Definition ahead (k : nat) (c : collection) : Prop :=
  match main c with
  | Failed _ => True
  | Receiving mi _ => (k <= mi)%nat
  end.

(** A schedule that lets the receive loop finish from any state:
    for each goroutine in turn, let it finish, then take what it
    sends. *)
Definition sweep : list choice :=
  flat_map (fun i => [Finish i; TakeStatus; TakeError i])
           (seq 0 (minipoolCount minipoolAddresses)).

End CollectionInvariant.

(** ** A sample node

    A node with three minipools over a chain state that counts the
    transactions sent, used to run the command on concrete inputs. *)
Module Sample.

Definition a1 : common.Address := common.HexToAddress "0x01".
Definition a2 : common.Address := common.HexToAddress "0x02".
Definition a3 : common.Address := common.HexToAddress "0x03".

Definition status (a : common.Address) (s : minipool.status) (label : string) (deposit : bool)
  : minipool.NodeStatus :=
  {| minipool.Address := a; minipool.Status := s;
     minipool.StatusType := label; minipool.DepositExists := deposit |}.

Definition initialized1 := status a1 minipool.INITIALIZED "initialized" true.
Definition withdrawn2 := status a2 minipool.WITHDRAWN "withdrawn" true.
Definition timedOut3 := status a3 minipool.TIMED_OUT "timed out" true.
Definition staking1 := status a1 minipool.STAKING "staking" true.
Definition emptied2 := status a2 minipool.WITHDRAWN "withdrawn" false.

Definition paid : NodeWithdrawal :=
  {| To := a2; EtherAmount := 16; RethAmount := 0; RplAmount := 3; Created := 1 |}.

(** The node's collaborators: [statusOf] answers the status queries,
    [send] the withdrawal transactions; every receipt holds one event. *)
Definition node (allowed : result bool)
           (statusOf : common.Address -> result minipool.NodeStatus)
           (send : common.Address -> result unit)
  : Provider nat unit unit :=
  {| getWithdrawalAllowed := fun _ => allowed;
     GetMinipoolAddresses := fun _ => Ok [a1; a2; a3];
     GetNodeStatus := fun _ a => statusOf a;
     GetNodeAccountTransactor := fun w => (w, Ok tt);
     ExecuteContractTransaction := fun w _ a => (S w, send a);
     GetTransactionEvents := fun _ _ _ => Ok [paid];
     showEth := strconv.Itoa |}.

Definition byHex (s1 s2 s3 : result minipool.NodeStatus) (a : common.Address)
  : result minipool.NodeStatus :=
  if String.eqb (common.Hex a) "0x01" then s1
  else if String.eqb (common.Hex a) "0x02" then s2
  else s3.

(** Three minipools: initialized, withdrawn, timed out. *)
Definition mixed := byHex (Ok initialized1) (Ok withdrawn2) (Ok timedOut3).

(** The query for the second minipool fails. *)
Definition failing := byHex (Ok initialized1) (Err "connection reset") (Ok timedOut3).

(** No minipool can be withdrawn from. *)
Definition idle := byHex (Ok staking1) (Ok emptied2) (Ok staking1).

(** Goroutines finish in the order 3, 1, 2; statuses are taken as soon
    as they can be. *)
Definition inTurn : list choice :=
  [Finish 2; Finish 0; TakeStatus; Finish 1; TakeStatus; TakeStatus].

(** The node of the three minipools above when the event retrieval
    hands back interface values: [send] answers the withdrawal
    transactions, [events] the event retrievals. *)
Definition untyped (send : common.Address -> result unit)
           (events : common.Address -> result (list any))
  : Services any nat unit unit :=
  {| getWithdrawalAllowed := fun _ => Ok true;
     GetMinipoolAddresses := fun _ => Ok [a1; a2; a3];
     GetNodeStatus := fun _ a => mixed a;
     GetNodeAccountTransactor := fun w => (w, Ok tt);
     ExecuteContractTransaction := fun w _ a => (S w, send a);
     GetTransactionEvents := fun _ _ a => events a;
     showEth := strconv.Itoa |}.

(** Every receipt holds the event [paid], behind a pointer. *)
Definition paidEvents (a : common.Address) : result (list any) :=
  Ok [NodeWithdrawalPtr paid].

(** The receipts of the third minipool hold a value of another type. *)
Definition strayEvents (a : common.Address) : result (list any) :=
  if String.eqb (common.Hex a) "0x03" then Ok [OtherValue "*big.Int"]
  else Ok [NodeWithdrawalPtr paid].

End Sample.

(** ** Further readings of the record and of the menu *)

(** The addresses a withdrawal transaction was sent for. *)
Fixpoint sent (evs : list event) : list common.Address :=
  match evs with
  | [] => []
  | SendWithdrawal a :: evs' => a :: sent evs'
  | _ :: evs' => sent evs'
  end.

(** The addresses the withdrawal events were read for. *)
Fixpoint decoded (evs : list event) : list common.Address :=
  match evs with
  | [] => []
  | ReadWithdrawalEvents a :: evs' => a :: decoded evs'
  | _ :: evs' => decoded evs'
  end.

(** The addresses the goroutines asked the status of. *)
Fixpoint queried (evs : list event) : list common.Address :=
  match evs with
  | [] => []
  | QueryNodeStatus a :: evs' => a :: queried evs'
  | _ :: evs' => queried evs'
  end.

(** The line of the menu for the minipool numbered [k]. *)
Definition menuLine (k : Z) (minipoolStatus : minipool.NodeStatus) : string :=
  strconv.Itoa k ++ ": " ++ common.Hex (minipool.Address minipoolStatus)
  ++ " (" ++ strings.Title (minipool.StatusType minipoolStatus) ++ ")".

(** The first line of the menu. *)
Definition menuHeader : string :=
  "Please select a minipool to withdraw from by entering a number, or enter 'A' for all (excluding initialized):".

(** The addresses a response resolves to, none when resolving panics. *)
Definition resolution (withdrawableMinipools : list minipool.NodeStatus)
           (response : string) : list common.Address :=
  match withdrawAddresses withdrawableMinipools response with
  | inr withdrawMinipoolAddresses => withdrawMinipoolAddresses
  | inl _ => []
  end.

(** The numbers, from 1, of the withdrawable minipools that are not
    initialized. *)
Definition numbersNotInitialized (withdrawableMinipools : list minipool.NodeStatus)
  : list nat :=
  List.filter
    (fun k => match withdrawableMinipools !! pred k with
              | Some minipoolStatus => notInitialized minipoolStatus
              | None => false
              end)
    (seq 1 (length withdrawableMinipools)).

Section GoroutineInvariant.

Variable GetNodeStatus : common.Address -> result minipool.NodeStatus.
Variable minipoolAddresses : list common.Address.

(** The goroutines go on after the receive loop is over: the steps of a
    schedule, none skipped. *)
Definition after (sched : list choice) (c : collection) : collection :=
  fold_left (fun c ch => step GetNodeStatus minipoolAddresses ch c) sched c.

(** The queries made so far are those of the goroutines that have left
    their query, one each; the goroutines the receive loop is past have
    exited. *)
Definition querying (c : collection) : Prop :=
  (exists idx,
      NoDup idx
      /\ (forall i, In i idx <->
                      exists g, goroutines c !! i = Some g /\ g <> Querying)
      /\ Forall2 (fun i a => minipoolAddresses !! i = Some a) idx (queried (observed c)))
  /\ match main c with
     | Receiving mi _ => forall i, (i < mi)%nat -> goroutines c !! i = Some Exited
     | Failed _ => True
     end.

End GoroutineInvariant.

(** A sample node whose minipool addresses cannot be fetched. *)
Definition unregisteredNode : Provider nat unit unit :=
  {| getWithdrawalAllowed := fun _ => Ok true;
     GetMinipoolAddresses := fun _ => Err "node not registered";
     GetNodeStatus := fun _ a => Sample.mixed a;
     GetNodeAccountTransactor := fun w => (w, Ok tt);
     ExecuteContractTransaction := fun w _ _ => (S w, Ok tt);
     GetTransactionEvents := fun _ _ _ => Ok [Sample.paid];
     showEth := strconv.Itoa |}.

(** * Properties *)

(** ** The library models on concrete inputs *)

Example Itoa_12 : strconv.Itoa 12 = "12". Proof. reflexivity. Qed.
Example Itoa_0 : strconv.Itoa 0 = "0". Proof. reflexivity. Qed.
Example Itoa_neg : strconv.Itoa (-305) = "-305". Proof. reflexivity. Qed.
Example Itoa_big : strconv.Itoa 9223372036854775807 = "9223372036854775807". Proof. reflexivity. Qed.
Example Atoi_12 : strconv.Atoi "12" = (12, None). Proof. reflexivity. Qed.
Example Atoi_bad : strconv.Atoi "1x" = (0, Some strconv.ErrSyntax). Proof. reflexivity. Qed.
Example Join_3 : strings.Join ["1"; "2"; "3"] "|" = "1|2|3". Proof. reflexivity. Qed.
Example Split_3 : strings.Split "1|2||3" "|" = ["1"; "2"; ""; "3"]. Proof. reflexivity. Qed.
Example Title_1 : strings.Title "timed out" = "Timed Out". Proof. reflexivity. Qed.
Example Cut_1 : strings.CutSuffix "abc)$" ")$" = Some "abc". Proof. reflexivity. Qed.
Example Sprintf_s : fmt.Sprintf "minipool %s..." [fmt.AString "0xab"] = "minipool 0xab...".
Proof. reflexivity. Qed.
Example Sprintf_line :
  fmt.Sprintf "%d: %s (%s)" [fmt.AInt 2; fmt.AString "0xab"; fmt.AString "Withdrawn"]
  = "2: 0xab (Withdrawn)".
Proof. reflexivity. Qed.
Example Sprintf_missing : fmt.Sprintf "%s: 100%z" [fmt.AString "x"] = "x: 100%!z(MISSING)".
Proof. reflexivity. Qed.
Example Match_1 : regexp.MatchString "(?i)^(1|2|a|all)$" "ALL" = Some true.
Proof. reflexivity. Qed.
Example Match_2 : regexp.MatchString "(?i)^(1|2|a|all)$" "3" = Some false.
Proof. reflexivity. Qed.
Example Match_3 : regexp.MatchString "(?i)^(|a|all)$" "" = Some true.
Proof. reflexivity. Qed.

(** ** Records of runs *)

Lemma delivered_app evs1 evs2 : delivered (evs1 ++ evs2) = (delivered evs1 ++ delivered evs2)%list.
Proof.
  induction evs1 as [|ev evs1 IH]; [reflexivity|].
  destruct ev; simpl; rewrite ?IH; reflexivity.
Qed.

Lemma failures_app evs1 evs2 : failures (evs1 ++ evs2) = (failures evs1 ++ failures evs2)%list.
Proof.
  induction evs1 as [|ev evs1 IH]; [reflexivity|].
  destruct ev; simpl; rewrite ?IH; reflexivity.
Qed.

Lemma attempted_app evs1 evs2 : attempted (evs1 ++ evs2) = (attempted evs1 ++ attempted evs2)%list.
Proof.
  induction evs1 as [|ev evs1 IH]; [reflexivity|].
  destruct ev; simpl; rewrite ?IH; reflexivity.
Qed.

Lemma combine_app_same {A B} (l1 l2 : list A) (k1 k2 : list B) :
  length l1 = length k1 ->
  combine (l1 ++ l2) (k1 ++ k2) = (combine l1 k1 ++ combine l2 k2)%list.
Proof.
  revert k1. induction l1 as [|x l1 IH]; intros [|y k1] H; simpl in *; try discriminate.
  - reflexivity.
  - f_equal. apply IH. lia.
Qed.

Lemma combine_seq_snoc {A} (l : list A) (x : A) (n : nat) :
  length l = n ->
  combine (seq 0 (S n)) (l ++ [x]) = (combine (seq 0 n) l ++ [(n, x)])%list.
Proof.
  intros Hn. rewrite seq_S. simpl.
  rewrite combine_app_same by (rewrite length_seq; lia).
  reflexivity.
Qed.

(** ** Status collection *)

Section CollectionFacts.

Variable GetNodeStatus : common.Address -> result minipool.NodeStatus.
Variable minipoolAddresses : list common.Address.

Local Abbreviation N := (minipoolCount minipoolAddresses).
Local Abbreviation inv := (collecting GetNodeStatus minipoolAddresses).
Local Abbreviation stepG := (step GetNodeStatus minipoolAddresses).
Local Abbreviation runG := (run GetNodeStatus minipoolAddresses).
Local Abbreviation over := (finished minipoolAddresses).

Lemma spawned_collecting : inv (spawned minipoolAddresses).
Proof.
  unfold collecting, spawned; simpl.
  split; [apply length_replicate|].
  split; [constructor|].
  split; [intros i s H; apply lookup_replicate in H as [H _]; discriminate|].
  split; [intros i s H; apply lookup_replicate in H as [H _]; discriminate|].
  split; [lia|].
  split; [intros i _ H; apply lookup_replicate in H as [H _]; discriminate|].
  exists []. repeat split; constructor.
Qed.

Lemma step_collecting ch c : inv c -> inv (stepG ch c).
Proof.
  intros Hc. pose proof Hc as (Hlen & Hevs & Hst & Herr & Hmain).
  destruct ch as [i| |i]; simpl.
  - (* a goroutine finishes its query *)
    destruct (goroutines c !! i) as [[| | |]|] eqn:Hg; try exact Hc.
    destruct (minipoolAddresses !! i) as [a|] eqn:Ha; try exact Hc.
    unfold collecting; cbn [goroutines main observed].
    split; [rewrite length_insert; exact Hlen|].
    split; [apply Forall_app; split; [exact Hevs|repeat constructor]|].
    split.
    { intros j s Hj. apply list_lookup_insert_Some in Hj as [(-> & Hv & _)|(Hne & Hj)].
      - exists a. split; [exact Ha|]. destruct (GetNodeStatus a); congruence.
      - eauto. }
    split.
    { intros j err Hj. apply list_lookup_insert_Some in Hj as [(-> & Hv & _)|(Hne & Hj)].
      - exists a. split; [exact Ha|]. destruct (GetNodeStatus a); congruence.
      - eauto. }
    destruct (main c) as [mi l|err] eqn:Hm.
    + destruct Hmain as (Hmi & Hlive & statuses & HF & Hl & Hd & Hf).
      split; [exact Hmi|]. split.
      { intros j Hj Hx. apply list_lookup_insert_Some in Hx as [(-> & Hv & _)|(Hne & Hx)].
        - destruct (GetNodeStatus a); discriminate.
        - exact (Hlive j Hj Hx). }
      exists statuses. rewrite delivered_app, failures_app, Hd, Hf; simpl.
      rewrite app_nil_r. repeat split; assumption.
    + destruct Hmain as (Ha' & Hf). split; [exact Ha'|].
      rewrite failures_app, Hf. reflexivity.
  - (* the select takes a status *)
    destruct (main c) as [mi l|err] eqn:Hm;
      [|exact Hc].
    destruct (goroutines c !! mi) as [[|s| |]|] eqn:Hg;
      try exact Hc.
    destruct Hmain as (Hmi & Hlive & statuses & HF & Hl & Hd & Hf).
    destruct (Hst mi s Hg) as (a & Ha & Hq).
    pose proof (lookup_lt_Some _ _ _ Ha) as Hlt.
    unfold collecting; cbn [goroutines main observed].
    split; [rewrite length_insert; exact Hlen|].
    split; [apply Forall_app; split; [exact Hevs|repeat constructor]|].
    split.
    { intros j s' Hj. apply list_lookup_insert_Some in Hj as [(_ & Hv & _)|(Hne & Hj)];
        [discriminate|eauto]. }
    split.
    { intros j err Hj. apply list_lookup_insert_Some in Hj as [(_ & Hv & _)|(Hne & Hj)];
        [discriminate|eauto]. }
    split; [unfold minipoolCount in *; lia|].
    split.
    { intros j Hj Hx. apply list_lookup_insert_Some in Hx as [(-> & _)|(Hne & Hx)];
        [lia|]. apply (Hlive j); [lia|exact Hx]. }
    exists (statuses ++ [s])%list.
    pose proof (Forall2_length _ _ _ HF) as HlenF.
    rewrite length_take in HlenF.
    split.
    { rewrite (take_S_r _ _ _ Ha). apply Forall2_app; [exact HF|]. repeat constructor. exact Hq. }
    split.
    { rewrite List.filter_app; simpl. rewrite <- Hl.
      destruct (withdrawable s); [reflexivity|]. rewrite app_nil_r. reflexivity. }
    split.
    { rewrite delivered_app, Hd.
      rewrite combine_seq_snoc; [reflexivity|]. unfold minipoolCount in *; lia. }
    rewrite failures_app, Hf. reflexivity.
  - (* the select takes an error *)
    destruct (main c) as [mi l|err] eqn:Hm;
      [|exact Hc].
    destruct (goroutines c !! i) as [[| |err|]|] eqn:Hg;
      try exact Hc.
    destruct (mi <? N)%nat eqn:Hlt;
      [|exact Hc].
    destruct Hmain as (Hmi & Hlive & statuses & HF & Hl & Hd & Hf).
    destruct (Herr i err Hg) as (a & Ha & Hq).
    unfold collecting; cbn [goroutines main observed].
    split; [rewrite length_insert; exact Hlen|].
    split; [apply Forall_app; split; [exact Hevs|repeat constructor]|].
    split.
    { intros j s' Hj. apply list_lookup_insert_Some in Hj as [(_ & Hv & _)|(Hne & Hj)];
        [discriminate|eauto]. }
    split.
    { intros j err' Hj. apply list_lookup_insert_Some in Hj as [(_ & Hv & _)|(Hne & Hj)];
        [discriminate|eauto]. }
    split.
    { exists a. split; [|exact Hq]. apply list_elem_of_In. eapply list_elem_of_lookup_2; eauto. }
    rewrite failures_app, Hf. reflexivity.
Qed.

Lemma run_collecting sched : forall c, inv c -> inv (runG sched c).
Proof.
  induction sched as [|ch sched IH]; intros c Hc; simpl; [exact Hc|].
  destruct (over c); [exact Hc|]. apply IH, step_collecting, Hc.
Qed.

Lemma collect_collecting sched : inv (collect GetNodeStatus minipoolAddresses sched).
Proof. apply run_collecting, spawned_collecting. Qed.

Lemma run_finished sched c : over c = true -> runG sched c = c.
Proof. intros H. destruct sched; simpl; [reflexivity|]. rewrite H. reflexivity. Qed.

Lemma run_app sched1 sched2 : forall c, runG (sched1 ++ sched2) c = runG sched2 (runG sched1 c).
Proof.
  induction sched1 as [|ch sched1 IH]; intros c; simpl; [reflexivity|].
  destruct (over c) eqn:Hf; [|apply IH].
  symmetry. apply run_finished, Hf.
Qed.

Lemma ahead_step k ch c : ahead k c -> ahead k (stepG ch c).
Proof.
  unfold ahead. intros H. destruct ch as [i| |i]; simpl.
  - destruct (goroutines c !! i) as [[| | |]|]; try exact H.
    destruct (minipoolAddresses !! i); exact H.
  - destruct (main c) as [mi l|err] eqn:Hm; [|rewrite Hm; exact I].
    destruct (goroutines c !! mi) as [[| | |]|]; simpl; rewrite ?Hm; lia.
  - destruct (main c) as [mi l|err] eqn:Hm; [|rewrite Hm; exact I].
    destruct (goroutines c !! i) as [[| | |]|]; simpl; rewrite ?Hm; try lia.
    destruct (mi <? N)%nat; simpl; rewrite ?Hm; [exact I|lia].
Qed.

Lemma ahead_run k sched : forall c, ahead k c -> ahead k (runG sched c).
Proof.
  induction sched as [|ch sched IH]; intros c H; simpl; [exact H|].
  destruct (over c); [exact H|]. apply IH, ahead_step, H.
Qed.

Lemma ahead_finished c : ahead N c -> over c = true.
Proof.
  unfold ahead, finished. destruct (main c) as [mi l|err]; [|reflexivity].
  intros H. apply negb_true_iff, Nat.ltb_ge, H.
Qed.

(** One round of the sweep moves the receive loop past iteration [i]. *)
Lemma round_ahead i c :
  inv c -> (i < N)%nat -> ahead i c ->
  ahead (S i) (runG [Finish i; TakeStatus; TakeError i] c).
Proof.
  intros Hc Hi Hk.
  pose proof Hc as (Hlen & _ & _ & _ & Hmain).
  cbn [run].
  destruct (over c) eqn:Hfin.
  { (* the loop is over already *)
    unfold ahead, finished in *. destruct (main c) as [mi l|err]; [|exact I].
    apply negb_true_iff, Nat.ltb_ge in Hfin. lia. }
  unfold ahead, finished in Hk, Hfin.
  destruct (main c) as [mi l|err] eqn:Hm; [|discriminate].
  apply negb_false_iff, Nat.ltb_lt in Hfin.
  destruct Hmain as (_ & Hlive & _).
  destruct (Nat.eq_dec mi i) as [->|Hne].
  2:{ (* the loop is past [i] already *)
      assert (Ha : ahead (S i) c) by (unfold ahead; rewrite Hm; lia).
      apply (ahead_run _ [TakeStatus; TakeError i]) in Ha as Ha'.
      pose proof (ahead_step _ (Finish i) _ Ha) as Ha1.
      destruct (over (stepG (Finish i) c)); [exact Ha1|].
      apply (ahead_run _ [TakeError i]), ahead_step, Ha1. }
  (* the loop waits for goroutine [i] *)
  destruct (lookup_lt_is_Some_2 (goroutines c) i) as [g Hg]; [lia|].
  destruct (lookup_lt_is_Some_2 minipoolAddresses i) as [a Ha]; [exact Hi|].
  assert (Hready : exists c1, stepG (Finish i) c = c1 /\ main c1 = Receiving i l
                    /\ ((exists s, goroutines c1 !! i = Some (SendStatus s))
                        \/ (exists err, goroutines c1 !! i = Some (SendError err)))).
  { unfold step. rewrite Hg, Ha. destruct g as [|s|err|].
    - eexists; split; [reflexivity|]. cbn [goroutines main]. split; [exact Hm|].
      rewrite list_lookup_insert_eq by lia. destruct (GetNodeStatus a); eauto.
    - eauto 6.
    - eauto 6.
    - exfalso. apply (Hlive i); [lia|exact Hg]. }
  destruct Hready as (c1 & -> & Hm1 & Hg1).
  assert (Hfin1 : over c1 = false).
  { unfold finished. rewrite Hm1. apply negb_false_iff, Nat.ltb_lt, Hfin. }
  rewrite Hfin1.
  destruct Hg1 as [(s & Hg1)|(err & Hg1)].
  - (* it sends its status *)
    assert (Ha2 : ahead (S i) (stepG TakeStatus c1)).
    { unfold ahead, step. rewrite Hm1, Hg1. cbn [main]. lia. }
    destruct (over (stepG TakeStatus c1)); [exact Ha2|].
    apply ahead_step, Ha2.
  - (* it sends its error *)
    assert (Hsame : stepG TakeStatus c1 = c1).
    { unfold step. rewrite Hm1, Hg1. reflexivity. }
    rewrite Hsame, Hfin1.
    unfold ahead, step. rewrite Hm1, Hg1.
    apply Nat.ltb_lt in Hfin. rewrite Hfin. exact I.
Qed.

Lemma sweep_from n : forall k c,
  inv c -> ahead k c -> (k + n = N)%nat ->
  over (runG (flat_map (fun i => [Finish i; TakeStatus; TakeError i]) (seq k n)) c) = true.
Proof.
  induction n as [|n IH]; intros k c Hc Hk Hn; cbn [seq flat_map].
  - apply ahead_finished. replace N with k by lia. exact Hk.
  - rewrite run_app. apply IH; [apply run_collecting, Hc| |lia].
    apply round_ahead; [exact Hc|lia|exact Hk].
Qed.

(** No deadlock: whatever has happened so far, the sweep ends the
    receive loop. *)
Lemma sweep_finishes sched :
  over (collect GetNodeStatus minipoolAddresses (sched ++ sweep minipoolAddresses)) = true.
Proof.
  unfold collect. rewrite run_app. apply sweep_from.
  - apply run_collecting, spawned_collecting.
  - unfold ahead. destruct (main _); [lia|exact I].
  - lia.
Qed.

(** What a finished receive loop holds. *)
Lemma finished_collecting c :
  inv c -> over c = true ->
  (exists statuses,
      Forall2 (fun a s => GetNodeStatus a = Ok s) minipoolAddresses statuses
      /\ main c = Receiving N (List.filter withdrawable statuses)
      /\ delivered (observed c) = combine (seq 0 N) statuses
      /\ failures (observed c) = [])
  \/ (exists err,
        main c = Failed err
        /\ (exists a, In a minipoolAddresses /\ GetNodeStatus a = Err err)
        /\ failures (observed c) = [err]).
Proof.
  intros (Hlen & _ & _ & _ & Hmain) Hfin. unfold finished in Hfin.
  destruct (main c) as [mi l|err].
  - left. destruct Hmain as (Hmi & _ & statuses & HF & Hl & Hd & Hf).
    apply negb_true_iff, Nat.ltb_ge in Hfin.
    assert (mi = N) as -> by lia.
    exists statuses. rewrite take_ge in HF by (unfold minipoolCount; lia).
    subst l. auto.
  - right. exists err. destruct Hmain as (Ha & Hf). auto.
Qed.

End CollectionFacts.

(** ** Strings *)

Lemma append_assoc (s t u : string) : ((s ++ t) ++ u = s ++ (t ++ u))%string.
Proof. induction s as [|c s IH]; simpl; [reflexivity|]. rewrite IH. reflexivity. Qed.

Lemma append_nil_r (s : string) : (s ++ "")%string = s.
Proof. induction s as [|c s IH]; simpl; [reflexivity|]. rewrite IH. reflexivity. Qed.

Lemma length_append (s t : string) :
  String.length (s ++ t) = (String.length s + String.length t)%nat.
Proof. induction s as [|c s IH]; simpl; [reflexivity|]. rewrite IH. reflexivity. Qed.

Lemma allString_append f (s t : string) :
  allString f (s ++ t) = allString f s && allString f t.
Proof.
  induction s as [|c s IH]; simpl; [reflexivity|].
  rewrite IH. apply andb_assoc.
Qed.

Lemma byte_of_char_of (n : Z) : 0 <= n < 256 -> byte_of (char_of n) = n.
Proof.
  intros H. unfold byte_of, char_of.
  rewrite N_ascii_embedding by lia. lia.
Qed.

Lemma byte_of_inj (c d : ascii) : byte_of c = byte_of d -> c = d.
Proof.
  unfold byte_of. intros H. apply Z2N.inj_iff in H; try lia.
  rewrite !N2Z.id in H.
  rewrite <- (ascii_N_embedding c), <- (ascii_N_embedding d), H. reflexivity.
Qed.

Lemma toLower_digit (c d : ascii) : isDigit d = true -> toLower c = d -> c = d.
Proof.
  unfold toLower, isDigit, isUpper. intros Hd H.
  destruct ((65 <=? byte_of c) && (byte_of c <=? 90)) eqn:Hu; [|exact H].
  exfalso. subst d. rewrite byte_of_char_of in Hd by lia. lia.
Qed.

Lemma toLower_of_digit (c : ascii) : isDigit c = true -> toLower c = c.
Proof.
  unfold toLower, isDigit, isUpper. intros Hd.
  destruct ((65 <=? byte_of c) && (byte_of c <=? 90)) eqn:Hu; [lia|reflexivity].
Qed.

Lemma toLower_a (c : ascii) : toLower c = "a"%char -> c = "a"%char \/ c = "A"%char.
Proof.
  unfold toLower, isUpper. intros H.
  destruct ((65 <=? byte_of c) && (byte_of c <=? 90)) eqn:Hu; [|left; exact H].
  right. apply byte_of_inj.
  apply (f_equal byte_of) in H. rewrite byte_of_char_of in H by lia.
  change (byte_of "a") with 97 in H. change (byte_of "A") with 65. lia.
Qed.

(** A text that equals a run of digits up to case is that run of digits. *)
Lemma EqualFold_digits (s t : string) :
  allString isDigit t = true -> strings.EqualFold s t = true -> s = t.
Proof.
  unfold strings.EqualFold. intros Ht H. apply String.eqb_eq in H.
  revert t Ht H. induction s as [|c s IH]; intros [|d t] Ht H; simpl in *; try discriminate.
  - reflexivity.
  - apply andb_true_iff in Ht as [Hd Ht]. injection H as Hc Hs.
    rewrite (toLower_of_digit d Hd) in Hc.
    f_equal; [exact (toLower_digit _ _ Hd Hc)|exact (IH _ Ht Hs)].
Qed.

Lemma EqualFold_refl (s : string) : strings.EqualFold s s = true.
Proof. apply String.eqb_refl. Qed.

Lemma allToken_startsWithA (response : string) :
  allToken response = true -> startsWithA response = true.
Proof.
  unfold allToken, strings.EqualFold. intros H.
  apply orb_true_iff in H as [H|H]; apply String.eqb_eq in H;
    destruct response as [|c r]; simpl in H; try discriminate;
    injection H as Hc _; apply toLower_a in Hc as [->| ->]; reflexivity.
Qed.

(** The test of the source on the first byte of the response. *)
Lemma first_byte_a (c : ascii) :
  String.eqb (strings.ToLower (String c "")) "a" = Ascii.eqb c "a" || Ascii.eqb c "A".
Proof.
  unfold strings.ToLower; simpl.
  destruct (Ascii.eqb_spec (toLower c) "a") as [H|H].
  - apply toLower_a in H as [->| ->]; reflexivity.
  - symmetry. apply orb_false_iff. split; apply Ascii.eqb_neq; intros ->; apply H; reflexivity.
Qed.

(** *** Join, Split and the cuts *)

Lemma Join_cons (x : string) (l : list string) (sep : string) :
  l <> [] -> strings.Join (x :: l) sep = (x ++ sep ++ strings.Join l sep)%string.
Proof. destruct l; [congruence|reflexivity]. Qed.

Lemma Join_app (l1 l2 : list string) (sep : string) :
  l1 <> [] -> l2 <> [] ->
  strings.Join (l1 ++ l2) sep = (strings.Join l1 sep ++ sep ++ strings.Join l2 sep)%string.
Proof.
  intros H1 H2. induction l1 as [|x l1 IH]; [congruence|].
  destruct l1 as [|y l1].
  - simpl app. rewrite Join_cons by exact H2. reflexivity.
  - change ((x :: y :: l1) ++ l2)%list with (x :: ((y :: l1) ++ l2))%list.
    rewrite Join_cons by discriminate. rewrite IH by discriminate.
    rewrite (Join_cons x (y :: l1)) by discriminate.
    rewrite !append_assoc. reflexivity.
Qed.

Lemma Split_free (s : string) (sep : ascii) :
  free_of sep s = true -> strings.Split s sep = [s].
Proof.
  induction s as [|c s IH]; simpl; [reflexivity|].
  intros H. apply andb_true_iff in H as [Hc Hs].
  apply negb_true_iff in Hc. rewrite Hc, (IH Hs). reflexivity.
Qed.

Lemma Split_append (s r : string) (sep : ascii) :
  free_of sep s = true ->
  strings.Split (s ++ String sep r) sep = s :: strings.Split r sep.
Proof.
  induction s as [|c s IH]; simpl.
  - rewrite Ascii.eqb_refl. reflexivity.
  - intros H. apply andb_true_iff in H as [Hc Hs].
    apply negb_true_iff in Hc. rewrite Hc, (IH Hs). reflexivity.
Qed.

Lemma Split_Join (l : list string) (sep : ascii) :
  l <> [] -> forallb (free_of sep) l = true ->
  strings.Split (strings.Join l (String sep "")) sep = l.
Proof.
  induction l as [|x l IH]; [congruence|]. intros _ H.
  simpl in H. apply andb_true_iff in H as [Hx Hl].
  destruct l as [|y l].
  - simpl. apply Split_free, Hx.
  - rewrite Join_cons by discriminate.
    change (String sep "" ++ ?r)%string with (String sep r).
    rewrite Split_append by exact Hx. f_equal. apply IH; [discriminate|exact Hl].
Qed.

Lemma CutPrefix_append (prefix s : string) : strings.CutPrefix (prefix ++ s) prefix = Some s.
Proof.
  induction prefix as [|c prefix IH]; simpl; [destruct s; reflexivity|].
  rewrite Ascii.eqb_refl. exact IH.
Qed.

Lemma CutSuffix_append (s suffix : string) : strings.CutSuffix (s ++ suffix) suffix = Some s.
Proof.
  induction s as [|c s IH].
  - simpl. destruct suffix; simpl; rewrite ?String.eqb_refl, ?Ascii.eqb_refl; reflexivity.
  - change (String c s ++ suffix)%string with (String c (s ++ suffix)).
    cbn [strings.CutSuffix].
    destruct (String.eqb_spec (String c (s ++ suffix)) suffix) as [H|_].
    + exfalso. apply (f_equal String.length) in H. simpl in H.
      rewrite length_append in H. lia.
    + rewrite IH. reflexivity.
Qed.

(** ** Decimal numbers *)

Lemma parseDigits_append (s t : string) : forall n,
  strconv.parseDigits (s ++ t) n
  = match strconv.parseDigits s n with
    | Some m => strconv.parseDigits t m
    | None => None
    end.
Proof.
  induction s as [|c s IH]; intros n; simpl; [reflexivity|].
  destruct (isDigit c); [apply IH|reflexivity].
Qed.

Lemma digit_char (d : Z) :
  0 <= d < 10 ->
  isDigit (char_of (48 + d)) = true /\ byte_of (char_of (48 + d)) - 48 = d.
Proof.
  intros H. unfold isDigit. rewrite byte_of_char_of by lia. split; lia.
Qed.

Lemma log2_div10 (n : Z) : 10 <= n -> Z.log2 (n / 10) < Z.log2 n.
Proof.
  intros H.
  assert (Hq : 0 < n / 10) by (apply Z.div_str_pos; lia).
  assert (Hle : 2 * (n / 10) <= n).
  { pose proof (Z.mul_div_le n 10 ltac:(lia)). lia. }
  pose proof (Z.log2_spec (n / 10) Hq) as [Hlo _].
  assert (Hpow : 2 ^ (Z.log2 (n / 10) + 1) <= n).
  { rewrite Z.pow_add_r by (try apply Z.log2_nonneg; lia). lia. }
  apply Z.log2_le_pow2 in Hpow; lia.
Qed.

(** [formatBits] writes the digits of [n] in front of [acc]. *)
Lemma formatBits_digits (fuel : nat) : forall n acc,
  0 <= n -> Z.log2 n <= Z.of_nat fuel ->
  exists ds,
    strconv.formatBits fuel n acc = (ds ++ acc)%string
    /\ ds <> ""%string
    /\ allString isDigit ds = true
    /\ strconv.parseDigits ds 0 = Some n.
Proof.
  induction fuel as [|fuel IH]; intros n acc Hn Hlog.
  - assert (Hsmall : n < 2).
    { destruct (Z.lt_ge_cases n 2) as [|Hge]; [assumption|].
      pose proof (Z.log2_le_mono 2 n Hge) as Hm. change (Z.log2 2) with 1 in Hm. lia. }
    exists (String (char_of (48 + n mod 10)) "").
    cbn [strconv.formatBits]. rewrite !Z.mod_small by lia.
    destruct (digit_char n ltac:(lia)) as [Hd Hv].
    cbn [strconv.formatBits strconv.parseDigits allString String.append].
    rewrite Hd, Hv.
    split; [reflexivity|]. split; [discriminate|]. split; [reflexivity|]. f_equal; lia.
  - cbn [strconv.formatBits].
    destruct (n <? 10) eqn:Hlt.
    + apply Z.ltb_lt in Hlt.
      exists (String (char_of (48 + n mod 10)) "").
      rewrite !Z.mod_small by lia.
      destruct (digit_char n ltac:(lia)) as [Hd Hv].
      cbn [strconv.formatBits strconv.parseDigits allString String.append].
    rewrite Hd, Hv.
    split; [reflexivity|]. split; [discriminate|]. split; [reflexivity|]. f_equal; lia.
    + apply Z.ltb_ge in Hlt.
      pose proof (log2_div10 n Hlt) as Hlog'.
      destruct (IH (n / 10) (String (char_of (48 + n mod 10)) acc)) as (ds & Hf & Hne & Hall & Hp).
      { apply Z.div_pos; lia. }
      { lia. }
      exists (ds ++ String (char_of (48 + n mod 10)) "")%string.
      pose proof (Z.mod_pos_bound n 10 ltac:(lia)) as Hmod.
      destruct (digit_char (n mod 10) Hmod) as [Hd Hv].
      split; [rewrite Hf, append_assoc; reflexivity|].
      split; [destruct ds; [congruence|discriminate]|].
      split; [rewrite allString_append, Hall; simpl; rewrite Hd; reflexivity|].
      rewrite parseDigits_append, Hp. simpl. rewrite Hd, Hv. f_equal.
      pose proof (Z.div_mod n 10 ltac:(lia)). lia.
Qed.

(** [Itoa] of a non-negative number is a non-empty run of digits that
    reads back as the number. *)
Lemma Itoa_digits (k : Z) :
  0 <= k ->
  strconv.Itoa k <> ""%string
  /\ allString isDigit (strconv.Itoa k) = true
  /\ strconv.parseDigits (strconv.Itoa k) 0 = Some k.
Proof.
  intros Hk. unfold strconv.Itoa.
  destruct (k <? 0) eqn:Hneg; [apply Z.ltb_lt in Hneg; lia|].
  destruct (formatBits_digits (Z.to_nat (Z.log2 k)) k "" Hk) as (ds & Hf & Hne & Hall & Hp).
  { rewrite Z2Nat.id by apply Z.log2_nonneg. lia. }
  rewrite Hf, append_nil_r. auto.
Qed.

(** [Atoi] undoes [Itoa] on the non-negative ints. *)
Lemma Atoi_Itoa (k : Z) :
  0 <= k <= strconv.maxInt -> strconv.Atoi (strconv.Itoa k) = (k, None).
Proof.
  intros Hk. destruct (Itoa_digits k ltac:(lia)) as (Hne & Hall & Hp).
  unfold strconv.Atoi.
  destruct (strconv.Itoa k) as [|c r] eqn:Hs; [congruence|].
  simpl in Hall. apply andb_true_iff in Hall as [Hc _].
  assert (Hminus : Ascii.eqb c "-" = false).
  { apply Ascii.eqb_neq. intros ->. discriminate Hc. }
  assert (Hplus : Ascii.eqb c "+" = false).
  { apply Ascii.eqb_neq. intros ->. discriminate Hc. }
  rewrite Hminus, Hplus, Hp.
  unfold strconv.maxInt, strconv.minInt in *.
  destruct (2 ^ 63 - 1 <? k) eqn:H1; [apply Z.ltb_lt in H1; lia|].
  destruct (k <? - 2 ^ 63) eqn:H2; [apply Z.ltb_lt in H2; lia|].
  reflexivity.
Qed.

Lemma Itoa_not_A (k : Z) : 0 <= k -> startsWithA (strconv.Itoa k) = false.
Proof.
  intros Hk. destruct (Itoa_digits k Hk) as (Hne & Hall & _).
  destruct (strconv.Itoa k) as [|c r]; [reflexivity|].
  simpl in *. apply andb_true_iff in Hall as [Hc _].
  apply orb_false_iff. split; apply Ascii.eqb_neq; intros ->; discriminate Hc.
Qed.

(** ** Selection *)

Lemma menu_options (l : list minipool.NodeStatus) : forall mi prompt options,
  snd (menu mi l prompt options) = (options ++ numbered mi (length l))%list.
Proof.
  induction l as [|s l IH]; intros mi prompt options; simpl.
  - rewrite app_nil_r. reflexivity.
  - rewrite IH, <- app_assoc. reflexivity.
Qed.

Lemma selectionPattern_text (l : list minipool.NodeStatus) :
  selectionPattern l
  = ("(?i)^(" ++ (strings.Join (numbered 0 (length l)) "|" ++ "|a|all") ++ ")$")%string.
Proof.
  unfold selectionPattern. rewrite menu_options. simpl app.
  cbn. rewrite !append_assoc. reflexivity.
Qed.

Lemma numbered_spec (mi n : nat) (x : string) :
  In x (numbered mi n) <->
  exists k, Z.of_nat mi + 1 <= k <= Z.of_nat mi + Z.of_nat n /\ x = strconv.Itoa k.
Proof.
  unfold numbered. rewrite in_map_iff. split.
  - intros (i & <- & Hi). apply in_seq in Hi. exists (Z.of_nat i + 1). split; [lia|reflexivity].
  - intros (k & Hk & ->). exists (Z.to_nat (k - 1)). split.
    + f_equal. lia.
    + apply in_seq. lia.
Qed.

Lemma allString_impl (f g : ascii -> bool) (s : string) :
  (forall c, f c = true -> g c = true) -> allString f s = true -> allString g s = true.
Proof.
  intros Hfg. induction s as [|c s IH]; simpl; [reflexivity|].
  intros H. apply andb_true_iff in H as [Hc Hs]. rewrite (Hfg c Hc), (IH Hs). reflexivity.
Qed.

Lemma numbered_literal (mi n : nat) :
  forallb (free_of "|") (numbered mi n) = true
  /\ forallb (allString regexp.literalByte) (numbered mi n) = true.
Proof.
  split; apply forallb_forall; intros x Hx; apply numbered_spec in Hx as (k & Hk & ->);
    destruct (Itoa_digits k ltac:(lia)) as (_ & Hall & _);
    revert Hall; apply allString_impl; intros c Hc.
  - apply negb_true_iff, Ascii.eqb_neq. intros ->. discriminate Hc.
  - unfold regexp.literalByte. rewrite Hc. reflexivity.
Qed.

(** On a non-empty list the pattern accepts the numbers of the menu and
    the all-token, up to case, and nothing else. *)
Lemma MatchString_selection (l : list minipool.NodeStatus) (response : string) :
  l <> [] ->
  regexp.MatchString (selectionPattern l) response
  = Some (existsb (strings.EqualFold response) (numbered 0 (length l) ++ ["a"; "all"]%string)).
Proof.
  intros Hl. unfold regexp.MatchString.
  rewrite selectionPattern_text, CutPrefix_append, CutSuffix_append.
  assert (Hn : numbered 0 (length l) <> []).
  { destruct l; [congruence|discriminate]. }
  change ("|a|all")%string with ("|" ++ strings.Join ["a"; "all"]%string "|")%string.
  rewrite <- Join_app by (try exact Hn; discriminate).
  destruct (numbered_literal 0 (length l)) as [Hfree Hlit].
  rewrite Split_Join.
  - rewrite forallb_app, Hlit. reflexivity.
  - destruct (numbered 0 (length l)); [congruence|discriminate].
  - rewrite forallb_app, Hfree. reflexivity.
Qed.

Lemma accepted_cases (l : list minipool.NodeStatus) (response : string) :
  l <> [] ->
  regexp.MatchString (selectionPattern l) response = Some true ->
  (exists k, 1 <= k <= Z.of_nat (length l) /\ response = strconv.Itoa k)
  \/ allToken response = true.
Proof.
  intros Hl H. rewrite MatchString_selection in H by exact Hl.
  injection H as H. apply existsb_exists in H as (x & Hx & Hfold).
  apply in_app_or in Hx as [Hx|Hx].
  - left. apply numbered_spec in Hx as (k & Hk & ->). exists k. split; [lia|].
    destruct (Itoa_digits k ltac:(lia)) as (_ & Hall & _).
    apply EqualFold_digits; assumption.
  - right. unfold allToken. simpl in Hx. destruct Hx as [<-|[<-|[]]]; rewrite Hfold.
    + reflexivity.
    + apply orb_true_r.
Qed.

Lemma number_accepted (l : list minipool.NodeStatus) (k : Z) :
  1 <= k <= Z.of_nat (length l) ->
  regexp.MatchString (selectionPattern l) (strconv.Itoa k) = Some true.
Proof.
  intros Hk. rewrite MatchString_selection by (destruct l; [simpl in Hk; lia|discriminate]).
  f_equal. apply existsb_exists. exists (strconv.Itoa k). split; [|apply EqualFold_refl].
  apply in_or_app. left. apply numbered_spec. exists k. split; [lia|reflexivity].
Qed.

Lemma allToken_accepted (l : list minipool.NodeStatus) (response : string) :
  l <> [] -> allToken response = true ->
  regexp.MatchString (selectionPattern l) response = Some true.
Proof.
  intros Hl H. rewrite MatchString_selection by exact Hl.
  f_equal. rewrite existsb_app. apply orb_true_iff. right.
  unfold allToken in H. simpl. rewrite orb_false_r. exact H.
Qed.

Lemma exceptInitialized_filter (l : list minipool.NodeStatus) : forall acc,
  exceptInitialized l acc
  = (acc ++ map minipool.Address (List.filter notInitialized l))%list.
Proof.
  induction l as [|s l IH]; intros acc; simpl.
  - rewrite app_nil_r. reflexivity.
  - rewrite IH. unfold notInitialized at 2.
    destruct (negb _); simpl; [rewrite <- app_assoc|]; reflexivity.
Qed.

(** The all-branch. *)
Lemma withdrawAddresses_all (l : list minipool.NodeStatus) (response : string) :
  startsWithA response = true ->
  withdrawAddresses l response = inr (map minipool.Address (List.filter notInitialized l)).
Proof.
  intros H. destruct response as [|c r]; [discriminate|].
  unfold withdrawAddresses. rewrite first_byte_a. simpl in H. rewrite H.
  rewrite exceptInitialized_filter. reflexivity.
Qed.

(** The number branch. *)
Lemma withdrawAddresses_number (l : list minipool.NodeStatus) (k : Z) :
  1 <= k <= Z.of_nat (length l) -> Z.of_nat (length l) <= strconv.maxInt ->
  exists s,
    l !! Z.to_nat (k - 1) = Some s
    /\ withdrawAddresses l (strconv.Itoa k) = inr [minipool.Address s].
Proof.
  intros Hk Hmax.
  destruct (lookup_lt_is_Some_2 l (Z.to_nat (k - 1))) as [s Hs]; [lia|].
  exists s. split; [exact Hs|].
  pose proof (Itoa_not_A k ltac:(lia)) as HA.
  pose proof (Atoi_Itoa k ltac:(lia)) as Hatoi.
  destruct (Itoa_digits k ltac:(lia)) as (Hne & _ & _).
  unfold withdrawAddresses.
  destruct (strconv.Itoa k) as [|c r] eqn:Hi; [congruence|].
  rewrite first_byte_a. simpl in HA. rewrite HA, Hatoi. cbn [fst].
  destruct (0 <=? k - 1) eqn:H0; [|apply Z.leb_gt in H0; lia].
  destruct (k - 1 <? Z.of_nat (length l)) eqn:H1; [|apply Z.ltb_ge in H1; lia].
  simpl. rewrite Hs. reflexivity.
Qed.

(** ** The withdrawal loop *)

(** A format without directives is printed as it is. *)
Lemma Sprintf_text (s : string) (a : list fmt.Arg) :
  free_of "%" s = true -> fmt.Sprintf s a = (s ++ fmt.extra a)%string.
Proof.
  induction s as [|c s IH]; intros H; [reflexivity|].
  simpl in H. apply andb_true_iff in H as [Hc Hs].
  cbn [fmt.Sprintf]. rewrite Hc, (IH Hs). reflexivity.
Qed.

(** When the text of the error holds no percent sign, the line recorded
    for a failure is the message, the address and the text of the
    error, one after the other. *)
Lemma error_line_verbatim (err hex : string) :
  free_of "%" err = true ->
  fmt.Sprintf ("Error creating transactor for minipool %s: " ++ err) [fmt.AString hex]
  = ("Error creating transactor for minipool " ++ hex ++ ": " ++ err)%string
  /\ fmt.Sprintf ("Error withdrawing deposit from minipool %s: " ++ err) [fmt.AString hex]
     = ("Error withdrawing deposit from minipool " ++ hex ++ ": " ++ err)%string
  /\ fmt.Sprintf ("Error retrieving node deposit withdrawal event for minipool %s: " ++ err)
                 [fmt.AString hex]
     = ("Error retrieving node deposit withdrawal event for minipool " ++ hex ++ ": " ++ err)%string.
Proof.
  intros H. pose proof (Sprintf_text err [] H) as Herr.
  simpl in Herr. rewrite append_nil_r in Herr.
  repeat split; cbn; rewrite Herr; reflexivity.
Qed.

Lemma progressLine_printed (a : common.Address) :
  fmt.Sprintf "Withdrawing deposit from minipool %s..." [fmt.AString (common.Hex a)]
  = progressLine a.
Proof. reflexivity. Qed.

Section ExecutorFacts.

Context {Event W Transactor Receipt : Type} {assertion : TypeAssertion Event}.
Variable p : Services Event W Transactor Receipt.

(** One iteration is one attempt in the sense of the spec, printing and
    recording what its outcome asks for, unless it panics at the type
    assertion. *)
Lemma withdrawDeposit_cases (a : common.Address) (errs : list string) (st : state W) :
  (exists w' evs o,
      attempt p a (chain st) w' evs o
      /\ withdrawDeposit p a errs st
         = ({| chain := w'; Input := Input st;
               Output := Output st ++ announced p o; calls := calls st ++ evs |},
            inr (errs ++ recorded o)%list))
  \/ (exists w2,
        aborts p a (chain st) w2
        /\ withdrawDeposit p a errs st
           = ({| chain := w2; Input := Input st;
                 Output := Output st ++ [progressLine a];
                 calls := calls st
                          ++ [CreateTransactor a; SendWithdrawal a; ReadWithdrawalEvents a] |},
              inl Panic)).
Proof.
  cbv beta iota zeta delta [withdrawDeposit bind call query record Fprintln ret leave
                            chain Input Output calls].
  rewrite progressLine_printed.
  destruct st as [w input output done]. cbn [chain Input Output calls].
  destruct (GetNodeAccountTransactor p w) as [w1 [txor|err]] eqn:Htx.
  2:{ left. exists w1, [CreateTransactor a], (SignerAcquisitionError a err).
      split; [eapply attempt_signer, Htx|].
      cbn [announced recorded]. rewrite app_nil_r. reflexivity. }
  destruct (ExecuteContractTransaction p w1 txor a) as [w2 [txReceipt|err]] eqn:Hex.
  2:{ left. exists w2, [CreateTransactor a; SendWithdrawal a], (TransactionError a err).
      split; [eapply attempt_transaction; eassumption|].
      cbn [announced recorded]. rewrite <- app_assoc. reflexivity. }
  destruct (GetTransactionEvents p w2 txReceipt a) as [[|first more]|err] eqn:Hev.
  - left. exists w2, [CreateTransactor a; SendWithdrawal a; ReadWithdrawalEvents a],
      (EventDecodeError a None).
    split; [eapply attempt_no_event; eassumption|].
    cbn [announced recorded]. rewrite <- !app_assoc. reflexivity.
  - destruct (nodeWithdrawal first) as [nodeWithdrawalEvent|] eqn:Hfirst.
    + left. exists w2, [CreateTransactor a; SendWithdrawal a; ReadWithdrawalEvents a],
        (Withdrew a nodeWithdrawalEvent).
      split; [eapply attempt_withdrew; eassumption|].
      cbn [announced recorded chain Input Output calls].
      rewrite <- !app_assoc, app_nil_r. reflexivity.
    + right. exists w2. split.
      * exists w1, txor, txReceipt, first, more. auto.
      * rewrite <- !app_assoc. reflexivity.
  - left. exists w2, [CreateTransactor a; SendWithdrawal a; ReadWithdrawalEvents a],
      (EventDecodeError a (Some err)).
    split; [eapply attempt_decode; eassumption|].
    cbn [announced recorded]. rewrite <- !app_assoc. reflexivity.
Qed.

(** The loop makes one attempt per address, in list order, each
    starting where the previous one ended, until the list is exhausted
    or an attempt panics; it prints and records what the outcomes ask
    for, in their order. *)
Lemma withdrawDeposits_cases (addresses : list common.Address) :
  forall (errs : list string) (st : state W),
  exists done w' evs outcomes,
    attempts p done (chain st) w' evs outcomes
    /\ ((done = addresses
         /\ withdrawDeposits p addresses errs st
            = ({| chain := w'; Input := Input st;
                  Output := Output st ++ flat_map (announced p) outcomes;
                  calls := calls st ++ evs |},
               inr (errs ++ flat_map recorded outcomes)%list))
        \/ (exists a rest w2,
              addresses = (done ++ a :: rest)%list
              /\ aborts p a w' w2
              /\ withdrawDeposits p addresses errs st
                 = ({| chain := w2; Input := Input st;
                       Output := Output st ++ flat_map (announced p) outcomes
                                 ++ [progressLine a];
                       calls := calls st ++ evs
                                ++ [CreateTransactor a; SendWithdrawal a;
                                    ReadWithdrawalEvents a] |},
                    inl Panic))).
Proof.
  induction addresses as [|a rest IH]; intros errs st.
  - exists [], (chain st), [], []. split; [constructor|]. left. split; [reflexivity|].
    simpl. unfold ret. rewrite !app_nil_r. destruct st; reflexivity.
  - assert (Hstep : withdrawDeposits p (a :: rest) errs st
                    = match withdrawDeposit p a errs st with
                      | (st', inr errs') => withdrawDeposits p rest errs' st'
                      | (st', inl e) => (st', inl e)
                      end) by reflexivity.
    rewrite Hstep. clear Hstep.
    destruct (withdrawDeposit_cases a errs st)
      as [(w1 & evs1 & o & Ha & ->)|(w2 & Hab & ->)].
    + match goal with |- context [withdrawDeposits p rest ?e ?s] =>
        destruct (IH e s) as (done & w' & evs2 & outcomes & Hatt & Hrun)
      end.
      cbn [chain Input Output calls] in Hatt, Hrun.
      exists (a :: done), w', (evs1 ++ evs2)%list, (o :: outcomes).
      split; [econstructor; eassumption|].
      destruct Hrun as [(Hd & Hr)|(a' & rest' & w2 & Hd & Hab & Hr)]; rewrite Hr.
      * left. split; [rewrite Hd; reflexivity|].
        cbn [flat_map]. rewrite <- !app_assoc. reflexivity.
      * right. exists a', rest', w2. split; [rewrite Hd; reflexivity|]. split; [exact Hab|].
        cbn [flat_map]. rewrite <- !app_assoc. reflexivity.
    + exists [], (chain st), [], []. split; [constructor|].
      right. exists a, rest, w2. split; [reflexivity|]. split; [exact Hab|].
      reflexivity.
Qed.

(** When the first element retrieved is always a [NodeWithdrawal] the
    loop never leaves the command. *)
Lemma withdrawDeposits_attempts (addresses : list common.Address)
      (errs : list string) (st : state W) :
  decodesNodeWithdrawals p ->
  exists w' evs outcomes,
    attempts p addresses (chain st) w' evs outcomes
    /\ withdrawDeposits p addresses errs st
       = ({| chain := w'; Input := Input st;
             Output := Output st ++ flat_map (announced p) outcomes;
             calls := calls st ++ evs |},
          inr (errs ++ flat_map recorded outcomes)%list).
Proof.
  intros Hdec.
  destruct (withdrawDeposits_cases addresses errs st)
    as (done & w' & evs & outcomes & Hatt & [(-> & Hrun)|(a & rest & w2 & _ & Hab & _)]).
  - exists w', evs, outcomes. split; assumption.
  - destruct Hab as (w1 & txor & txReceipt & first & more & _ & _ & Hev & Hnone).
    destruct (Hdec _ _ _ _ _ Hev Hnone).
Qed.

Lemma attempt_attempted (a : common.Address) w w' evs o :
  attempt p a w w' evs o -> attempted evs = [a] /\ outcomeAddress o = a.
Proof. destruct 1; split; reflexivity. Qed.

Lemma attempts_attempted (addresses : list common.Address) w w' evs outcomes :
  attempts p addresses w w' evs outcomes -> attempted evs = addresses.
Proof.
  induction 1 as [|a rest w w1 w2 evs1 evs2 o outcomes Ha _ IH]; [reflexivity|].
  rewrite attempted_app, IH, (proj1 (attempt_attempted _ _ _ _ _ Ha)). reflexivity.
Qed.

(** One outcome per address, for that address, in list order. *)
Lemma attempts_addresses (addresses : list common.Address) w w' evs outcomes :
  attempts p addresses w w' evs outcomes -> map outcomeAddress outcomes = addresses.
Proof.
  induction 1 as [|a rest w w1 w2 evs1 evs2 o outcomes Ha _ IH]; [reflexivity|].
  cbn [map]. rewrite IH, (proj2 (attempt_attempted _ _ _ _ _ Ha)). reflexivity.
Qed.

(** The end of the command: no address, or the loop and its report. *)
Lemma finishWithdrawals_none (st : state W) :
  finishWithdrawals p [] st
  = ({| chain := chain st; Input := Input st;
        Output := Output st ++ ["No minipools to withdraw"%string]; calls := calls st |},
     inl (Return None)).
Proof. reflexivity. Qed.

Lemma finishWithdrawals_cases (addresses : list common.Address) (st : state W) :
  addresses <> [] ->
  exists done w' evs outcomes,
    attempts p done (chain st) w' evs outcomes
    /\ ((done = addresses
         /\ finishWithdrawals p addresses st
            = ({| chain := w'; Input := Input st;
                  Output := Output st ++ flat_map (announced p) outcomes;
                  calls := calls st ++ evs |},
               inl (Return match flat_map recorded outcomes with
                           | [] => None
                           | line :: lines =>
                               Some (strings.Join (withdrawErrorsHeader :: line :: lines) LF)
                           end)))
        \/ (exists a rest w2,
              addresses = (done ++ a :: rest)%list
              /\ aborts p a w' w2
              /\ finishWithdrawals p addresses st
                 = ({| chain := w2; Input := Input st;
                       Output := Output st ++ flat_map (announced p) outcomes
                                 ++ [progressLine a];
                       calls := calls st ++ evs
                                ++ [CreateTransactor a; SendWithdrawal a;
                                    ReadWithdrawalEvents a] |},
                    inl Panic))).
Proof.
  intros Hne. unfold finishWithdrawals.
  destruct addresses as [|a0 rest0] eqn:Hl; [congruence|]. rewrite <- Hl.
  replace (length addresses =? 0)%nat with false by (subst; reflexivity).
  destruct (withdrawDeposits_cases addresses [withdrawErrorsHeader] st)
    as (done & w' & evs & outcomes & Hatt & Hrun).
  exists done, w', evs, outcomes. split; [exact Hatt|].
  unfold bind.
  destruct Hrun as [(Hd & Hr)|(a & rest & w2 & Hd & Hab & Hr)]; rewrite Hr.
  - left. split; [exact Hd|]. cbn [app length].
    destruct (flat_map recorded outcomes); reflexivity.
  - right. exists a, rest, w2. auto.
Qed.

Lemma finishWithdrawals_some (addresses : list common.Address) (st : state W) :
  decodesNodeWithdrawals p ->
  addresses <> [] ->
  exists w' evs outcomes,
    attempts p addresses (chain st) w' evs outcomes
    /\ finishWithdrawals p addresses st
       = ({| chain := w'; Input := Input st;
             Output := Output st ++ flat_map (announced p) outcomes;
             calls := calls st ++ evs |},
          inl (Return match flat_map recorded outcomes with
                      | [] => None
                      | line :: lines =>
                          Some (strings.Join (withdrawErrorsHeader :: line :: lines) LF)
                      end)).
Proof.
  intros Hdec Hne.
  destruct (finishWithdrawals_cases addresses st Hne)
    as (done & w' & evs & outcomes & Hatt & [(-> & Hrun)|(a & rest & w2 & _ & Hab & _)]).
  - exists w', evs, outcomes. split; assumption.
  - destruct Hab as (w1 & txor & txReceipt & first & more & _ & _ & Hev & Hnone).
    destruct (Hdec _ _ _ _ _ Hev Hnone).
Qed.

End ExecutorFacts.

(** Events that are [NodeWithdrawal] values always pass the assertion. *)
Lemma typed_decodes {W Transactor Receipt} (p : Provider W Transactor Receipt) :
  decodesNodeWithdrawals p.
Proof. intros w txReceipt a first more _. discriminate. Qed.

(** ** Phases of the command *)

Lemma status_eqb_eq (a b : minipool.status) : minipool.status_eqb a b = true <-> a = b.
Proof.
  split.
  - destruct a, b; simpl; try discriminate; try reflexivity.
    intros H. apply Nat.eqb_eq in H. congruence.
  - intros <-. destruct a; simpl; try reflexivity. apply Nat.eqb_refl.
Qed.

(** The filter of the receive loop is the eligibility invariant. *)
Lemma withdrawable_eligible (s : minipool.NodeStatus) : withdrawable s = true <-> eligible s.
Proof.
  unfold withdrawable, eligible. rewrite andb_true_iff, !orb_true_iff, !status_eqb_eq.
  tauto.
Qed.

Section PhaseFacts.

Context {Event W Transactor Receipt : Type} {assertion : TypeAssertion Event}.
Variable p : Services Event W Transactor Receipt.

(** The three ways status collection ends, for a given schedule. *)
Lemma receiveStatuses_cases (sched : list choice) (addresses : list common.Address)
      (st : state W) :
  exists evs,
    Forall (fun ev => laterPhase ev = false) evs
    /\ let st' := {| chain := chain st; Input := Input st; Output := Output st;
                     calls := calls st ++ evs |} in
       receiveStatuses p sched addresses st = (st', inl Blocked)
       \/ (exists statuses,
             Forall2 (fun a s => GetNodeStatus p (chain st) a = Ok s) addresses statuses
             /\ delivered evs = combine (seq 0 (length addresses)) statuses
             /\ failures evs = []
             /\ receiveStatuses p sched addresses st
                = (st', inr (List.filter withdrawable statuses)))
       \/ (exists err,
             (exists a, In a addresses /\ GetNodeStatus p (chain st) a = Err err)
             /\ failures evs = [err]
             /\ receiveStatuses p sched addresses st = (st', inl (Return (Some err)))).
Proof.
  pose proof (collect_collecting (GetNodeStatus p (chain st)) addresses sched) as Hc.
  exists (observed (collect (GetNodeStatus p (chain st)) addresses sched)).
  split; [apply Hc|]. cbv zeta. unfold receiveStatuses.
  destruct (finished addresses (collect (GetNodeStatus p (chain st)) addresses sched)) eqn:Hfin.
  - destruct (finished_collecting _ _ _ Hc Hfin)
      as [(statuses & HF & Hm & Hd & Hf)|(err & Hm & Ha & Hf)]; rewrite Hm.
    + right; left. exists statuses. auto.
    + right; right. exists err. auto.
  - unfold finished in Hfin.
    destruct (main (collect (GetNodeStatus p (chain st)) addresses sched)) as [mi l|err];
      [|discriminate].
    left. reflexivity.
Qed.

(** Status collection cannot stay blocked: the sweep ends it. *)
Lemma receiveStatuses_sweep (sched : list choice) (addresses : list common.Address)
      (st : state W) :
  snd (receiveStatuses p (sched ++ sweep addresses) addresses st) <> inl Blocked.
Proof.
  pose proof (sweep_finishes (GetNodeStatus p (chain st)) addresses sched) as Hfin.
  unfold receiveStatuses. rewrite Hfin.
  destruct (main _); simpl; discriminate.
Qed.

(** What the prompt returns was typed by the operator and matches the
    expected format. *)
Lemma readValid_cases (expectedFormat incorrect : string) (lines : list string) :
  forall st : state W,
  exists rest out,
    let st' := {| chain := chain st; Input := rest; Output := Output st ++ out;
                  calls := calls st |} in
    readValid lines expectedFormat incorrect st = (st', inl Blocked)
    \/ (exists response,
          In response lines
          /\ regexp.MatchString expectedFormat response = Some true
          /\ readValid lines expectedFormat incorrect st = (st', inr response)).
Proof.
  induction lines as [|line rest IH]; intros st.
  - exists (Input st), []. left.
    simpl. unfold leave. rewrite app_nil_r. destruct st; reflexivity.
  - cbn [readValid]. unfold bind at 1.
    destruct (regexp.MatchString expectedFormat line) as [[|]|] eqn:Hm.
    + exists rest, []. right. exists line. split; [left; reflexivity|]. split; [exact Hm|].
      unfold ret. cbn [chain Input Output calls]. rewrite app_nil_r. reflexivity.
    + unfold bind at 1, Fprintln at 1. cbn [chain Input Output calls].
      match goal with |- context [readValid rest _ _ ?s] => destruct (IH s) as (r & out & H) end.
      cbn [chain Input Output calls] in H. exists r, (incorrect :: out).
      cbv zeta in *. rewrite <- app_assoc in H.
      destruct H as [H|(response & Hin & Hok & H)].
      * left. exact H.
      * right. exists response. split; [right; exact Hin|]. split; [exact Hok|exact H].
    + unfold bind at 1, Fprintln at 1. cbn [chain Input Output calls].
      match goal with |- context [readValid rest _ _ ?s] => destruct (IH s) as (r & out & H) end.
      cbn [chain Input Output calls] in H. exists r, (incorrect :: out).
      cbv zeta in *. rewrite <- app_assoc in H.
      destruct H as [H|(response & Hin & Hok & H)].
      * left. exact H.
      * right. exists response. split; [right; exact Hin|]. split; [exact Hok|exact H].
Qed.

Lemma Prompt_cases (initialPrompt expectedFormat incorrect : string) (st : state W) :
  exists rest out,
    let st' := {| chain := chain st; Input := rest; Output := Output st ++ out;
                  calls := calls st ++ [AskOperator] |} in
    Prompt initialPrompt expectedFormat incorrect st = (st', inl Blocked)
    \/ (exists response,
          In response (Input st)
          /\ regexp.MatchString expectedFormat response = Some true
          /\ Prompt initialPrompt expectedFormat incorrect st = (st', inr response)).
Proof.
  unfold Prompt, bind, record, Fprintln. cbn [chain Input Output calls].
  match goal with |- context [readValid _ _ _ ?s] =>
    destruct (readValid_cases expectedFormat incorrect (Input st) s) as (r & out & H)
  end.
  cbn [chain Input Output calls] in H. exists r, (initialPrompt :: out).
  cbv zeta in *. rewrite <- app_assoc in H. exact H.
Qed.

End PhaseFacts.

(** * The claims *)

(** C1. Status collection, whatever the schedule of the goroutines:
    it is still blocked, or it has handed the statuses of all N
    addresses to the receive loop at iterations 0 .. N-1, in the order
    of the address list, or it returns the error of a failed query and
    nothing that follows in the command is run.  It cannot stay
    blocked: extended by the sweep, every schedule ends the phase.  On
    the empty address list it yields the empty sequence and no error. *)
Theorem C1_status_collection {W Transactor Receipt} (p : Provider W Transactor Receipt)
        (sched : list choice) (minipoolAddresses : list common.Address) (st : state W) :
  (exists evs,
      let st' := {| chain := chain st; Input := Input st; Output := Output st;
                    calls := calls st ++ evs |} in
      receiveStatuses p sched minipoolAddresses st = (st', inl Blocked)
      \/ (exists statuses,
            Forall2 (fun a s => GetNodeStatus p (chain st) a = Ok s) minipoolAddresses statuses
            /\ length statuses = length minipoolAddresses
            /\ delivered evs = combine (seq 0 (length minipoolAddresses)) statuses
            /\ receiveStatuses p sched minipoolAddresses st
               = (st', inr (List.filter withdrawable statuses)))
      \/ (exists err,
            (exists a, In a minipoolAddresses /\ GetNodeStatus p (chain st) a = Err err)
            /\ forall (B : Type) (later : list minipool.NodeStatus -> M W B),
                 (withdrawableMinipools <- receiveStatuses p sched minipoolAddresses ;;
                  later withdrawableMinipools) st
                 = (st', inl (Return (Some err)))))
  /\ snd (receiveStatuses p (sched ++ sweep minipoolAddresses) minipoolAddresses st)
     <> inl Blocked
  /\ receiveStatuses p sched [] st = (st, inr []).
Proof.
  split; [|split].
  - destruct (receiveStatuses_cases p sched minipoolAddresses st) as (evs & _ & H).
    exists evs. cbv zeta in *.
    destruct H as [H|[(statuses & HF & Hd & _ & H)|(err & Ha & _ & H)]].
    + left. exact H.
    + right; left. exists statuses. split; [exact HF|].
      split; [symmetry; exact (Forall2_length _ _ _ HF)|]. split; assumption.
    + right; right. exists err. split; [exact Ha|].
      intros B later. unfold bind. rewrite H. reflexivity.
  - apply receiveStatuses_sweep.
  - unfold receiveStatuses, collect.
    rewrite run_finished by reflexivity. simpl. rewrite app_nil_r.
    destruct st; reflexivity.
Qed.

Lemma In_combine_seq {A} (l : list A) (x : A) : forall k,
  In x l -> exists i, In (i, x) (combine (seq k (length l)) l).
Proof.
  induction l as [|y l IH]; intros k Hin; [destruct Hin|].
  destruct Hin as [->|Hin].
  - exists k. left. reflexivity.
  - destruct (IH (S k) Hin) as (i & Hi). exists i. right. exact Hi.
Qed.

(** Every resolved address is the address of a withdrawable minipool. *)
Lemma withdrawAddresses_sound (l : list minipool.NodeStatus) (response : string)
      (addresses : list common.Address) :
  withdrawAddresses l response = inr addresses ->
  forall a, In a addresses -> exists s, In s l /\ minipool.Address s = a.
Proof.
  unfold withdrawAddresses. destruct response as [|c r]; [discriminate|].
  destruct (String.eqb _ _).
  - rewrite exceptInitialized_filter. intros H. injection H as <-.
    intros a Ha. apply in_map_iff in Ha as (s & <- & Hs).
    apply List.filter_In in Hs as [Hs _]. eauto.
  - destruct (_ && _); [|discriminate].
    destruct (l !! _) as [s|] eqn:Hs; [|discriminate].
    intros H. injection H as <-. intros a [<-|[]].
    exists s. split; [|reflexivity].
    apply list_elem_of_In. eapply list_elem_of_lookup_2, Hs.
Qed.

(** The calls of the end of the command are the attempts on the
    addresses it is given. *)
Lemma finishWithdrawals_attempted {W Transactor Receipt} (p : Provider W Transactor Receipt)
      (addresses : list common.Address) (st : state W) :
  exists evs,
    calls (fst (finishWithdrawals p addresses st)) = (calls st ++ evs)%list
    /\ attempted evs = addresses.
Proof.
  destruct addresses as [|a rest].
  - exists []. rewrite finishWithdrawals_none. simpl. rewrite app_nil_r. split; reflexivity.
  - destruct (finishWithdrawals_some p (a :: rest) st (typed_decodes p) ltac:(discriminate))
      as (w' & evs & outcomes & Hatt & ->).
    exists evs. split; [reflexivity|]. eapply attempts_attempted, Hatt.
Qed.

(** Whatever the event retrieval returns, the addresses attempted are
    the first of the addresses given. *)
Lemma finishWithdrawals_attempted_prefix {Event W Transactor Receipt}
      {assertion : TypeAssertion Event} (p : Services Event W Transactor Receipt)
      (addresses : list common.Address) (st : state W) :
  exists evs rest,
    calls (fst (finishWithdrawals p addresses st)) = (calls st ++ evs)%list
    /\ addresses = (attempted evs ++ rest)%list.
Proof.
  destruct addresses as [|a0 rest0] eqn:Hl.
  - exists [], []. rewrite finishWithdrawals_none. simpl. rewrite app_nil_r.
    split; reflexivity.
  - rewrite <- Hl.
    destruct (finishWithdrawals_cases p addresses st ltac:(subst; discriminate))
      as (done & w' & evs & outcomes & Hatt
          & [(Hd & ->)|(a & rest & w2 & Hd & _ & ->)]);
      pose proof (attempts_attempted p _ _ _ _ _ Hatt) as Hdone.
    + exists evs, []. cbn [fst calls]. split; [reflexivity|].
      rewrite Hdone, app_nil_r, Hd. reflexivity.
    + exists (evs ++ [CreateTransactor a; SendWithdrawal a; ReadWithdrawalEvents a])%list,
        rest.
      cbn [fst calls]. split; [reflexivity|].
      rewrite attempted_app, Hdone, Hd, <- app_assoc. reflexivity.
Qed.

(** C2. A status handed to the receive loop is kept in the withdrawable
    set exactly when its deposit exists and its state is Initialized,
    Withdrawn or TimedOut, and the set holds nothing else; every
    address resolved from the set, and so every address the withdrawal
    loop attempts, belongs to such a status. *)
Theorem C2_withdrawable_filter {W Transactor Receipt} (p : Provider W Transactor Receipt)
        (sched : list choice) (minipoolAddresses : list common.Address) (st st' : state W)
        (withdrawableMinipools : list minipool.NodeStatus) :
  receiveStatuses p sched minipoolAddresses st = (st', inr withdrawableMinipools) ->
  exists evs,
    calls st' = (calls st ++ evs)%list
    /\ (forall mi s, In (mi, s) (delivered evs) ->
          (In s withdrawableMinipools <-> eligible s))
    /\ (forall s, In s withdrawableMinipools -> exists mi, In (mi, s) (delivered evs))
    /\ forall response withdrawMinipoolAddresses (st1 : state W),
         withdrawAddresses withdrawableMinipools response = inr withdrawMinipoolAddresses ->
         (forall a, In a withdrawMinipoolAddresses ->
            exists s, In s withdrawableMinipools /\ minipool.Address s = a /\ eligible s)
         /\ exists evs1,
              calls (fst (finishWithdrawals p withdrawMinipoolAddresses st1))
              = (calls st1 ++ evs1)%list
              /\ attempted evs1 = withdrawMinipoolAddresses.
Proof.
  intros Hrun.
  destruct (receiveStatuses_cases p sched minipoolAddresses st) as (evs & _ & H).
  cbv zeta in H. rewrite Hrun in H.
  destruct H as [H|[(statuses & HF & Hd & _ & H)|(err & _ & _ & H)]]; try discriminate.
  injection H as -> ->. exists evs. split; [reflexivity|].
  assert (Hdel : forall s, In s statuses <-> exists mi, In (mi, s) (delivered evs)).
  { intros s. rewrite Hd, (Forall2_length _ _ _ HF). split.
    - apply In_combine_seq.
    - intros (mi & Hin). exact (in_combine_r _ _ _ _ Hin). }
  split; [|split; [|intros response addresses st1 Hsel; split]].
  - intros mi s Hin. rewrite List.filter_In, withdrawable_eligible.
    assert (In s statuses) by (apply Hdel; eauto). tauto.
  - intros s Hs. apply List.filter_In in Hs as [Hs _]. apply Hdel, Hs.
  - intros a Ha.
    destruct (withdrawAddresses_sound _ _ _ Hsel a Ha) as (s & Hs & Hsa).
    exists s. split; [exact Hs|]. split; [exact Hsa|].
    apply List.filter_In in Hs as [_ Hs]. apply withdrawable_eligible, Hs.
  - apply finishWithdrawals_attempted.
Qed.

(** C2 on the sample node: with the goroutines finishing in the order
    3, 1, 2 the three statuses are kept, in the order of the addresses. *)
Lemma C2_witness :
  let p := Sample.node (Ok true) Sample.mixed (fun _ => Ok tt) in
  let addresses := [Sample.a1; Sample.a2; Sample.a3] in
  let l := [Sample.initialized1; Sample.withdrawn2; Sample.timedOut3] in
  let st := start 0%nat [] in
  let st' := fst (receiveStatuses p Sample.inTurn addresses st) in
  receiveStatuses p Sample.inTurn addresses st = (st', inr l)
  /\ exists evs,
      calls st' = (calls st ++ evs)%list
      /\ (forall mi s, In (mi, s) (delivered evs) -> (In s l <-> eligible s))
      /\ (forall s, In s l -> exists mi, In (mi, s) (delivered evs))
      /\ forall response withdrawMinipoolAddresses (st1 : state nat),
           withdrawAddresses l response = inr withdrawMinipoolAddresses ->
           (forall a, In a withdrawMinipoolAddresses ->
              exists s, In s l /\ minipool.Address s = a /\ eligible s)
           /\ exists evs1,
                calls (fst (finishWithdrawals p withdrawMinipoolAddresses st1))
                = (calls st1 ++ evs1)%list
                /\ attempted evs1 = withdrawMinipoolAddresses.
Proof.
  cbv zeta. split; [reflexivity|].
  apply (C2_withdrawable_filter _ Sample.inTurn [Sample.a1; Sample.a2; Sample.a3]).
  reflexivity.
Defined.

(** C3. When the accepted response is the all-token, in any case, the
    addresses to withdraw are those of the withdrawable minipools that
    are not initialized, in their order, and the command goes on with
    them; when there is none the command prints "No minipools to
    withdraw" and returns no error, having attempted no withdrawal. *)
Theorem C3_all_token {W Transactor Receipt} (p : Provider W Transactor Receipt)
        (withdrawableMinipools : list minipool.NodeStatus) (st st1 : state W)
        (response : string) :
  withdrawableMinipools <> [] ->
  Prompt (selectionPrompt withdrawableMinipools) (selectionPattern withdrawableMinipools)
         incorrectSelection st
  = (st1, inr response) ->
  allToken response = true ->
  let resolved := map minipool.Address (List.filter notInitialized withdrawableMinipools) in
  withdrawAddresses withdrawableMinipools response = inr resolved
  /\ selectMinipools p withdrawableMinipools st = finishWithdrawals p resolved st1
  /\ (resolved = [] ->
      selectMinipools p withdrawableMinipools st
      = ({| chain := chain st1; Input := Input st1;
            Output := Output st1 ++ ["No minipools to withdraw"%string];
            calls := calls st1 |},
         inl (Return None))).
Proof.
  intros Hne Hprompt Hall resolved.
  pose proof (withdrawAddresses_all withdrawableMinipools response
                (allToken_startsWithA _ Hall)) as Hsel.
  fold resolved in Hsel.
  assert (Hrun : selectMinipools p withdrawableMinipools st = finishWithdrawals p resolved st1).
  { unfold selectMinipools.
    destruct withdrawableMinipools as [|s l]; [congruence|]. cbn [length Nat.eqb].
    unfold bind. rewrite Hprompt, Hsel. reflexivity. }
  split; [exact Hsel|]. split; [exact Hrun|].
  intros Hnone. rewrite Hrun, Hnone. apply finishWithdrawals_none.
Qed.

(** C3 on a node whose only withdrawable minipool is initialized: the
    operator types a rejected line, then "All". *)
Lemma C3_witness :
  let p := Sample.node (Ok true) Sample.mixed (fun _ => Ok tt) in
  let l := [Sample.initialized1] in
  let st := start 0%nat ["x"; "All"]%string in
  let st1 := fst (Prompt (selectionPrompt l) (selectionPattern l) incorrectSelection st) in
  let resolved := map minipool.Address (List.filter notInitialized l) in
  (l <> []
   /\ Prompt (selectionPrompt l) (selectionPattern l) incorrectSelection st
      = (st1, inr "All"%string)
   /\ allToken "All" = true)
  /\ withdrawAddresses l "All" = inr resolved
  /\ selectMinipools p l st = finishWithdrawals p resolved st1
  /\ (resolved = [] ->
      selectMinipools p l st
      = ({| chain := chain st1; Input := Input st1;
            Output := Output st1 ++ ["No minipools to withdraw"%string];
            calls := calls st1 |},
         inl (Return None))).
Proof.
  cbv zeta.
  assert (H1 : [Sample.initialized1] <> []) by discriminate.
  assert (H2 : Prompt (selectionPrompt [Sample.initialized1])
                      (selectionPattern [Sample.initialized1]) incorrectSelection
                      (start 0%nat ["x"; "All"]%string)
               = (fst (Prompt (selectionPrompt [Sample.initialized1])
                              (selectionPattern [Sample.initialized1]) incorrectSelection
                              (start 0%nat ["x"; "All"]%string)),
                  inr "All"%string)) by reflexivity.
  assert (H3 : allToken "All" = true) by reflexivity.
  split; [split; [exact H1|split; [exact H2|exact H3]]|].
  exact (C3_all_token (Sample.node (Ok true) Sample.mixed (fun _ => Ok tt))
           [Sample.initialized1] _ _ "All" H1 H2 H3).
Defined.

(** One line is recorded for each failed outcome, none for a
    withdrawal. *)
Lemma recorded_failed (outcomes : list WithdrawalOutcome) :
  length (flat_map recorded outcomes) = length (List.filter failed outcomes)
  /\ match flat_map recorded outcomes with
     | [] => existsb failed outcomes = false
     | _ :: _ => existsb failed outcomes = true
     end.
Proof.
  induction outcomes as [|o outcomes [IH1 IH2]]; [split; reflexivity|].
  destruct o as [a e|a err|a err|a [err|]];
    cbn [flat_map recorded app existsb failed List.filter length orb];
    try (split; [rewrite IH1; reflexivity|reflexivity]).
  split; assumption.
Qed.

(** The recorded lines are the lines owed when no error text holds a
    percent sign. *)
Lemma recorded_described (o : WithdrawalOutcome) :
  verbatim o = true -> recorded o = described o.
Proof.
  destruct o as [a e|a err|a err|a [err|]]; cbn [verbatim errorText recorded described];
    intros H; try reflexivity.
  - f_equal. exact (proj1 (error_line_verbatim err (common.Hex a) H)).
  - f_equal. exact (proj1 (proj2 (error_line_verbatim err (common.Hex a) H))).
  - f_equal. exact (proj2 (proj2 (error_line_verbatim err (common.Hex a) H))).
  - f_equal. cbn. rewrite append_nil_r. reflexivity.
Qed.

(** When no error text holds a percent sign, the lines recorded are
    the lines owed. *)
Lemma recorded_all_described (outcomes : list WithdrawalOutcome) :
  Forall (fun o => verbatim o = true) outcomes ->
  flat_map recorded outcomes = flat_map described outcomes.
Proof.
  induction 1 as [|o outcomes Ho _ IH]; [reflexivity|].
  cbn [flat_map]. rewrite (recorded_described o Ho), IH. reflexivity.
Qed.

(** C4. When the event retrieval returns [NodeWithdrawal] elements, as
    the prototype passed to it asks, the withdrawal loop never leaves
    the command: for every list of addresses it makes one attempt per
    address, in list order and one after the other, each starting from
    the chain state the previous one left.  Every attempt has one
    outcome, for its own address: the withdrawal, or the failure to
    acquire a signer, to send the transaction or to decode the event,
    with the error of the failing call.  For each failed outcome, and
    for no other, the loop appends one line, that of lines 134, 140, 145
    or 147, and goes on with the next address; the line is the failure,
    the address and the text of the error whenever that text holds no
    percent sign.  The transactor requests on record are the addresses
    of the list, each once, in order. *)
Theorem C4_every_address_attempted {W Transactor Receipt}
        (p : Services any W Transactor Receipt)
        (withdrawMinipoolAddresses : list common.Address)
        (withdrawErrors : list string) (st : state W) :
  decodesNodeWithdrawals p ->
  exists w' evs outcomes,
    attempts p withdrawMinipoolAddresses (chain st) w' evs outcomes
    /\ withdrawDeposits p withdrawMinipoolAddresses withdrawErrors st
       = ({| chain := w'; Input := Input st;
             Output := Output st ++ flat_map (announced p) outcomes;
             calls := calls st ++ evs |},
          inr (withdrawErrors ++ flat_map recorded outcomes)%list)
    /\ map outcomeAddress outcomes = withdrawMinipoolAddresses
    /\ attempted evs = withdrawMinipoolAddresses
    /\ length (flat_map recorded outcomes) = length (List.filter failed outcomes)
    /\ (forall o, In o outcomes -> verbatim o = true -> recorded o = described o).
Proof.
  intros Hdec.
  destruct (withdrawDeposits_attempts p withdrawMinipoolAddresses withdrawErrors st Hdec)
    as (w' & evs & outcomes & Hatt & Hrun).
  exists w', evs, outcomes. split; [exact Hatt|]. split; [exact Hrun|].
  split; [exact (attempts_addresses p _ _ _ _ _ Hatt)|].
  split; [exact (attempts_attempted p _ _ _ _ _ Hatt)|].
  split; [exact (proj1 (recorded_failed outcomes))|].
  intros o _. apply recorded_described.
Qed.

(** C4 on the sample node: the transaction for the second minipool is
    refused, the third withdrawal goes through all the same. *)
Lemma C4_witness :
  let send := fun a => if String.eqb (common.Hex a) "0x02"
                       then Err "nonce too low"%string else Ok tt in
  let p := Sample.untyped send Sample.paidEvents in
  let st := start 0%nat [] in
  decodesNodeWithdrawals p
  /\ exists w' evs outcomes,
       attempts p [Sample.a2; Sample.a3] (chain st) w' evs outcomes
       /\ withdrawDeposits p [Sample.a2; Sample.a3] [withdrawErrorsHeader] st
          = ({| chain := w'; Input := Input st;
                Output := Output st ++ flat_map (announced p) outcomes;
                calls := calls st ++ evs |},
             inr ([withdrawErrorsHeader] ++ flat_map recorded outcomes)%list)
       /\ map outcomeAddress outcomes = [Sample.a2; Sample.a3]
       /\ attempted evs = [Sample.a2; Sample.a3]
       /\ length (flat_map recorded outcomes) = length (List.filter failed outcomes)
       /\ (forall o, In o outcomes -> verbatim o = true -> recorded o = described o).
Proof.
  cbv zeta.
  assert (Hdec : decodesNodeWithdrawals
                   (Sample.untyped
                      (fun a => if String.eqb (common.Hex a) "0x02"
                                then Err "nonce too low"%string else Ok tt)
                      Sample.paidEvents)).
  { intros w txReceipt a first more Hev. injection Hev as <- _. discriminate. }
  split; [exact Hdec|].
  exact (C4_every_address_attempted _ [Sample.a2; Sample.a3] [withdrawErrorsHeader]
           (start 0%nat []) Hdec).
Defined.

(** Without that, the loop stops at the first element that is not a
    [NodeWithdrawal]: here the second withdrawal is sent and the command
    panics, the progress line being the last one printed. *)
Example withdrawDeposits_type_assertion :
  withdrawDeposits (Sample.untyped (fun _ => Ok tt) Sample.strayEvents)
                   [Sample.a2; Sample.a3] [withdrawErrorsHeader] (start 0%nat [])
  = ({| chain := 2%nat; Input := [];
        Output := ["Withdrawing deposit from minipool 0x02...";
                   "Successfully withdrew deposit of 16 ETH, 0 rETH and 3 RPL from minipool 0x02";
                   "Withdrawing deposit from minipool 0x03..."]%string;
        calls := [CreateTransactor Sample.a2; SendWithdrawal Sample.a2;
                  ReadWithdrawalEvents Sample.a2;
                  CreateTransactor Sample.a3; SendWithdrawal Sample.a3;
                  ReadWithdrawalEvents Sample.a3] |},
     inl Panic).
Proof. reflexivity. Qed.

(** ** The whole command *)

Lemma withdrawMinipool_allowed {W Transactor Receipt} (p : Provider W Transactor Receipt)
      (sched : list choice) (w : W) (input : list string)
      (minipoolAddresses : list common.Address) :
  getWithdrawalAllowed p w = Ok true ->
  GetMinipoolAddresses p w = Ok minipoolAddresses ->
  withdrawFrom p sched (start w input)
  = (withdrawableMinipools <- receiveStatuses p sched minipoolAddresses ;;
     selectMinipools p withdrawableMinipools)
      {| chain := w; Input := input; Output := [];
         calls := [CheckWithdrawalAllowed; FetchMinipoolAddresses] |}.
Proof.
  intros Hallowed Haddresses.
  cbv beta iota zeta delta [withdrawFrom start bind query record chain Input Output calls].
  rewrite Hallowed. cbv beta iota. rewrite Haddresses. reflexivity.
Qed.

Lemma Forall2_all_Ok {A B} (f : A -> result B) (l : list A) (k : list B) (a : A) (err : error) :
  Forall2 (fun x y => f x = Ok y) l k -> In a l -> f a = Err err -> False.
Proof.
  induction 1 as [|x y l k Hxy _ IH]; intros Hin Ha; [destruct Hin|].
  destruct Hin as [->|Hin]; [congruence|exact (IH Hin Ha)].
Qed.

(** C6, as the code has it.  If a status query fails, the command ends
    with an error for every schedule that lets it end, and every
    schedule extends to one that does: the error returned is the one
    the receive loop took from the error channel, the first and only
    one it takes, handed back as it is, and it is the error of one of
    the failing queries; nothing is printed and no later phase runs. *)
Theorem C6_query_error_returned {W Transactor Receipt} (p : Provider W Transactor Receipt)
        (sched : list choice) (w : W) (input : list string)
        (minipoolAddresses : list common.Address) (a0 : common.Address) (err0 : error) :
  getWithdrawalAllowed p w = Ok true ->
  GetMinipoolAddresses p w = Ok minipoolAddresses ->
  In a0 minipoolAddresses ->
  GetNodeStatus p w a0 = Err err0 ->
  let o := withdrawMinipool (Ok p) sched (start w input) in
  (ended o = Blocked
   \/ exists a err,
        In a minipoolAddresses
        /\ GetNodeStatus p w a = Err err
        /\ ended o = Return (Some err)
        /\ failures (calls (final o)) = [err]
        /\ Forall (fun ev => laterPhase ev = false) (calls (final o))
        /\ Output (final o) = [])
  /\ ended (withdrawMinipool (Ok p) (sched ++ sweep minipoolAddresses) (start w input))
     <> Blocked.
Proof.
  intros Hallowed Haddresses Hin Hfail.
  assert (Hcases : forall sched',
    let o := withdrawMinipool (Ok p) sched' (start w input) in
    (ended o = Blocked
       /\ snd (receiveStatuses p sched' minipoolAddresses
                 {| chain := w; Input := input; Output := [];
                    calls := [CheckWithdrawalAllowed; FetchMinipoolAddresses] |})
          = inl Blocked)
    \/ exists a err,
         In a minipoolAddresses
         /\ GetNodeStatus p w a = Err err
         /\ ended o = Return (Some err)
         /\ failures (calls (final o)) = [err]
         /\ Forall (fun ev => laterPhase ev = false) (calls (final o))
         /\ Output (final o) = []).
  { intros sched'. cbv zeta. unfold withdrawMinipool.
    rewrite (withdrawMinipool_allowed p sched' w input minipoolAddresses Hallowed Haddresses).
    match goal with |- context [bind _ _ ?s] =>
      destruct (receiveStatuses_cases p sched' minipoolAddresses s) as (evs & Hevs & H)
    end.
    cbv zeta in H. cbn [chain Input Output calls] in H. unfold bind.
    destruct H as [H|[(statuses & HF & _ & _ & H)|(err & (a & Ha & Herr) & Hf & H)]].
    - rewrite H. left. split; reflexivity.
    - exfalso. exact (Forall2_all_Ok _ _ _ _ _ HF Hin Hfail).
    - rewrite H. right. exists a, err. cbn [final ended calls Output].
      repeat split; try assumption.
      repeat constructor. exact Hevs. }
  split.
  - destruct (Hcases sched) as [[H _]|H]; [left; exact H|right; exact H].
  - destruct (Hcases (sched ++ sweep minipoolAddresses)%list) as [[_ H]|(a & err & _ & _ & H & _)].
    + exfalso. exact (receiveStatuses_sweep p sched minipoolAddresses _ H).
    + cbv zeta in H. rewrite H. discriminate.
Qed.

(** C6 on the sample node: the query for the second minipool fails. *)
Lemma C6_witness :
  let p := Sample.node (Ok true) Sample.failing (fun _ => Ok tt) in
  let addresses := [Sample.a1; Sample.a2; Sample.a3] in
  let sched := [Finish 1; Finish 0; TakeStatus; TakeError 1] in
  let o := withdrawMinipool (Ok p) sched (start 0%nat ["A"%string]) in
  (getWithdrawalAllowed p 0%nat = Ok true
   /\ GetMinipoolAddresses p 0%nat = Ok addresses
   /\ In Sample.a2 addresses
   /\ GetNodeStatus p 0%nat Sample.a2 = Err "connection reset"%string)
  /\ (ended o = Blocked
      \/ exists a err,
           In a addresses
           /\ GetNodeStatus p 0%nat a = Err err
           /\ ended o = Return (Some err)
           /\ failures (calls (final o)) = [err]
           /\ Forall (fun ev => laterPhase ev = false) (calls (final o))
           /\ Output (final o) = [])
  /\ ended (withdrawMinipool (Ok p) (sched ++ sweep addresses) (start 0%nat ["A"%string]))
     <> Blocked.
Proof.
  cbv zeta.
  assert (H3 : In Sample.a2 [Sample.a1; Sample.a2; Sample.a3]) by (simpl; auto).
  split; [repeat split; try reflexivity; exact H3|].
  exact (C6_query_error_returned (Sample.node (Ok true) Sample.failing (fun _ => Ok tt))
           [Finish 1; Finish 0; TakeStatus; TakeError 1] 0%nat ["A"%string]
           [Sample.a1; Sample.a2; Sample.a3] Sample.a2 "connection reset"%string
           eq_refl eq_refl H3 eq_refl).
Defined.

(** C6 as stated fails: the error the command returns is the error of
    the query itself, not an error that wraps it. *)
Lemma C6_counterexample :
  let p := Sample.node (Ok true) Sample.failing (fun _ => Ok tt) in
  let o := withdrawMinipool (Ok p) [Finish 1; Finish 0; TakeStatus; TakeError 1]
             (start 0%nat ["A"%string]) in
  GetNodeStatus p 0%nat Sample.a2 = Err "connection reset"%string
  /\ ended o = Return (Some "connection reset"%string).
Proof. split; reflexivity. Qed.

(** C7. When the withdrawals-allowed call answers false the command
    prints one line, returns no error and has made no other call; when
    the call fails the command returns an error that carries the text
    of the failure, having printed nothing and made no other call. *)
Theorem C7_withdrawals_gate {W Transactor Receipt} (p : Provider W Transactor Receipt)
        (sched : list choice) (w : W) (input : list string) :
  (getWithdrawalAllowed p w = Ok false ->
   withdrawMinipool (Ok p) sched (start w input)
   = {| final := {| chain := w; Input := input;
                    Output := ["Node withdrawals are currently disabled in Rocket Pool"%string];
                    calls := [CheckWithdrawalAllowed] |};
        ended := Return None |})
  /\ (forall err,
        getWithdrawalAllowed p w = Err err ->
        withdrawMinipool (Ok p) sched (start w input)
        = {| final := {| chain := w; Input := input; Output := [];
                         calls := [CheckWithdrawalAllowed] |};
             ended := Return (Some ("Error checking node withdrawals enabled status: " ++ err)%string) |}).
Proof.
  split; [intros H|intros err H]; unfold withdrawMinipool;
    cbv beta iota zeta delta [withdrawFrom start bind query record Fprintln leave
                              chain Input Output calls];
    rewrite H; reflexivity.
Qed.

(** C7 on the sample node, with withdrawals disabled and with a failing
    call. *)
Lemma C7_witness :
  (let p := Sample.node (Ok false) Sample.mixed (fun _ => Ok tt) in
   getWithdrawalAllowed p 0%nat = Ok false
   /\ withdrawMinipool (Ok p) Sample.inTurn (start 0%nat ["A"%string])
      = {| final := {| chain := 0%nat; Input := ["A"%string];
                       Output := ["Node withdrawals are currently disabled in Rocket Pool"%string];
                       calls := [CheckWithdrawalAllowed] |};
           ended := Return None |})
  /\ (let p := Sample.node (Err "no peers") Sample.mixed (fun _ => Ok tt) in
      getWithdrawalAllowed p 0%nat = Err "no peers"%string
      /\ withdrawMinipool (Ok p) Sample.inTurn (start 0%nat ["A"%string])
         = {| final := {| chain := 0%nat; Input := ["A"%string]; Output := [];
                          calls := [CheckWithdrawalAllowed] |};
              ended := Return (Some "Error checking node withdrawals enabled status: no peers"%string) |}).
Proof.
  cbv zeta. split; (split; [reflexivity|]).
  - exact (proj1 (C7_withdrawals_gate (Sample.node (Ok false) Sample.mixed (fun _ => Ok tt))
                    Sample.inTurn 0%nat ["A"%string]) eq_refl).
  - exact (proj2 (C7_withdrawals_gate (Sample.node (Err "no peers") Sample.mixed (fun _ => Ok tt))
                    Sample.inTurn 0%nat ["A"%string]) "no peers"%string eq_refl).
Defined.

Lemma filter_none {A} (f : A -> bool) (l : list A) :
  (forall x, In x l -> f x = false) -> List.filter f l = [].
Proof.
  induction l as [|x l IH]; intros H; simpl; [reflexivity|].
  rewrite (H x (or_introl eq_refl)). apply IH. intros y Hy. apply H. right. exact Hy.
Qed.

Lemma Forall2_In_r {A B} (P : A -> B -> Prop) (l : list A) (k : list B) (y : B) :
  Forall2 P l k -> In y k -> exists x, In x l /\ P x y.
Proof.
  induction 1 as [|x y' l k Hxy _ IH]; intros Hin; [destruct Hin|].
  destruct Hin as [->|Hin].
  - exists x. split; [left; reflexivity|exact Hxy].
  - destruct (IH Hin) as (x' & Hx' & HP). exists x'. split; [right; exact Hx'|exact HP].
Qed.

(** C8. When every status query succeeds and no status is eligible,
    the command, for every schedule that lets it end, prints the one
    line "No minipools are currently available for withdrawal" and
    returns no error, without asking the operator or attempting a
    withdrawal; every schedule extends to one that lets it end. *)
Theorem C8_none_available {W Transactor Receipt} (p : Provider W Transactor Receipt)
        (sched : list choice) (w : W) (input : list string)
        (minipoolAddresses : list common.Address) :
  getWithdrawalAllowed p w = Ok true ->
  GetMinipoolAddresses p w = Ok minipoolAddresses ->
  (forall a, In a minipoolAddresses ->
     exists s, GetNodeStatus p w a = Ok s /\ ~ eligible s) ->
  let o := withdrawMinipool (Ok p) sched (start w input) in
  (ended o = Blocked
   \/ (ended o = Return None
       /\ Output (final o) = ["No minipools are currently available for withdrawal"%string]
       /\ Forall (fun ev => laterPhase ev = false) (calls (final o))
       /\ Input (final o) = input
       /\ chain (final o) = w))
  /\ ended (withdrawMinipool (Ok p) (sched ++ sweep minipoolAddresses) (start w input))
     <> Blocked.
Proof.
  intros Hallowed Haddresses Hnone.
  assert (Hcases : forall sched',
    let o := withdrawMinipool (Ok p) sched' (start w input) in
    (ended o = Blocked
       /\ snd (receiveStatuses p sched' minipoolAddresses
                 {| chain := w; Input := input; Output := [];
                    calls := [CheckWithdrawalAllowed; FetchMinipoolAddresses] |})
          = inl Blocked)
    \/ (ended o = Return None
        /\ Output (final o) = ["No minipools are currently available for withdrawal"%string]
        /\ Forall (fun ev => laterPhase ev = false) (calls (final o))
        /\ Input (final o) = input
        /\ chain (final o) = w)).
  { intros sched'. cbv zeta. unfold withdrawMinipool.
    rewrite (withdrawMinipool_allowed p sched' w input minipoolAddresses Hallowed Haddresses).
    match goal with |- context [bind _ _ ?s] =>
      destruct (receiveStatuses_cases p sched' minipoolAddresses s) as (evs & Hevs & H)
    end.
    cbv zeta in H. cbn [chain Input Output calls] in H. unfold bind.
    destruct H as [H|[(statuses & HF & _ & _ & H)|(err & (a & Ha & Herr) & _ & _)]].
    - rewrite H. left. split; reflexivity.
    - rewrite H. right.
      rewrite filter_none.
      + cbn. repeat split. repeat constructor. exact Hevs.
      + intros s Hs. destruct (Forall2_In_r _ _ _ _ HF Hs) as (a & Ha & Hq).
        destruct (Hnone a Ha) as (s' & Hq' & Hno).
        assert (s' = s) as -> by congruence.
        destruct (withdrawable s) eqn:Hw; [|reflexivity].
        exfalso. apply Hno, withdrawable_eligible, Hw.
    - exfalso. destruct (Hnone a Ha) as (s' & Hq' & _). congruence. }
  split.
  - destruct (Hcases sched) as [[H _]|H]; [left; exact H|right; exact H].
  - destruct (Hcases (sched ++ sweep minipoolAddresses)%list) as [[_ H]|(H & _)].
    + exfalso. exact (receiveStatuses_sweep p sched minipoolAddresses _ H).
    + cbv zeta in H. rewrite H. discriminate.
Qed.

(** C8 on a node whose minipools are staking or already emptied. *)
Lemma C8_witness :
  let p := Sample.node (Ok true) Sample.idle (fun _ => Ok tt) in
  let addresses := [Sample.a1; Sample.a2; Sample.a3] in
  let o := withdrawMinipool (Ok p) Sample.inTurn (start 0%nat ["A"%string]) in
  (getWithdrawalAllowed p 0%nat = Ok true
   /\ GetMinipoolAddresses p 0%nat = Ok addresses
   /\ (forall a, In a addresses ->
         exists s, GetNodeStatus p 0%nat a = Ok s /\ ~ eligible s))
  /\ (ended o = Blocked
      \/ (ended o = Return None
          /\ Output (final o) = ["No minipools are currently available for withdrawal"%string]
          /\ Forall (fun ev => laterPhase ev = false) (calls (final o))
          /\ Input (final o) = ["A"%string]
          /\ chain (final o) = 0%nat))
  /\ ended (withdrawMinipool (Ok p) (Sample.inTurn ++ sweep addresses)
              (start 0%nat ["A"%string]))
     <> Blocked.
Proof.
  cbv zeta.
  assert (H3 : forall a, In a [Sample.a1; Sample.a2; Sample.a3] ->
                 exists s, GetNodeStatus (Sample.node (Ok true) Sample.idle (fun _ => Ok tt))
                             0%nat a = Ok s /\ ~ eligible s).
  { intros a [<-|[<-|[<-|[]]]]; eexists; (split; [reflexivity|]);
      intros [Hd [Hs|[Hs|Hs]]]; discriminate. }
  split; [split; [reflexivity|split; [reflexivity|exact H3]]|].
  exact (C8_none_available (Sample.node (Ok true) Sample.idle (fun _ => Ok tt))
           Sample.inTurn 0%nat ["A"%string] [Sample.a1; Sample.a2; Sample.a3]
           eq_refl eq_refl H3).
Defined.

(** C9. An accepted response that does not start with the letter A is
    the decimal numeral of some k between 1 and the length of the
    withdrawable list, and resolves to exactly one address: that of the
    k-th withdrawable minipool, counted from 1. *)
Theorem C9_numeric_selection (withdrawableMinipools : list minipool.NodeStatus)
        (response : string) :
  withdrawableMinipools <> [] ->
  Z.of_nat (length withdrawableMinipools) <= strconv.maxInt ->
  regexp.MatchString (selectionPattern withdrawableMinipools) response = Some true ->
  startsWithA response = false ->
  exists k minipoolStatus,
    1 <= k <= Z.of_nat (length withdrawableMinipools)
    /\ response = strconv.Itoa k
    /\ withdrawableMinipools !! Z.to_nat (k - 1) = Some minipoolStatus
    /\ withdrawAddresses withdrawableMinipools response
       = inr [minipool.Address minipoolStatus].
Proof.
  intros Hne Hmax Hok HA.
  destruct (accepted_cases _ _ Hne Hok) as [(k & Hk & ->)|Hall].
  - destruct (withdrawAddresses_number withdrawableMinipools k Hk Hmax) as (s & Hs & Hsel).
    exists k, s. auto.
  - apply allToken_startsWithA in Hall. congruence.
Qed.

(** C9 on three withdrawable minipools: "2" selects the second. *)
Lemma C9_witness :
  let l := [Sample.initialized1; Sample.withdrawn2; Sample.timedOut3] in
  (l <> []
   /\ Z.of_nat (length l) <= strconv.maxInt
   /\ regexp.MatchString (selectionPattern l) "2" = Some true
   /\ startsWithA "2" = false)
  /\ exists k minipoolStatus,
       1 <= k <= Z.of_nat (length l)
       /\ "2"%string = strconv.Itoa k
       /\ l !! Z.to_nat (k - 1) = Some minipoolStatus
       /\ withdrawAddresses l "2" = inr [minipool.Address minipoolStatus].
Proof.
  cbv zeta.
  assert (H1 : [Sample.initialized1; Sample.withdrawn2; Sample.timedOut3] <> [])
    by discriminate.
  assert (H2 : Z.of_nat (length [Sample.initialized1; Sample.withdrawn2; Sample.timedOut3])
               <= strconv.maxInt) by (vm_compute; discriminate).
  split; [split; [exact H1|split; [exact H2|split; reflexivity]]|].
  exact (C9_numeric_selection [Sample.initialized1; Sample.withdrawn2; Sample.timedOut3]
           "2" H1 H2 eq_refl eq_refl).
Defined.

(** Past the prompt the command does not panic on the response: what
    the prompt returns is accepted by the pattern, and an accepted
    response resolves.  A panic is that of the type assertion in the
    withdrawal loop. *)
Lemma selectMinipools_panic {Event W Transactor Receipt} {assertion : TypeAssertion Event}
      (p : Services Event W Transactor Receipt)
      (withdrawableMinipools : list minipool.NodeStatus) (st : state W) :
  Z.of_nat (length withdrawableMinipools) <= strconv.maxInt ->
  snd (selectMinipools p withdrawableMinipools st) = inl Panic ->
  exists a txReceipt first more,
    last (calls (fst (selectMinipools p withdrawableMinipools st)))
    = Some (ReadWithdrawalEvents a)
    /\ GetTransactionEvents p (chain (fst (selectMinipools p withdrawableMinipools st)))
                            txReceipt a
       = Ok (first :: more)
    /\ nodeWithdrawal first = None.
Proof.
  intros Hmax. unfold selectMinipools.
  destruct withdrawableMinipools as [|s l] eqn:Hl; [simpl; discriminate|].
  rewrite <- Hl in *. assert (Hne : withdrawableMinipools <> []) by (subst; discriminate).
  replace (length withdrawableMinipools =? 0)%nat with false by (subst; reflexivity).
  unfold bind.
  destruct (Prompt_cases (selectionPrompt withdrawableMinipools)
              (selectionPattern withdrawableMinipools) incorrectSelection st)
    as (rest & out & [H|(response & _ & Hok & H)]); cbv zeta in H; rewrite H.
  - simpl. discriminate.
  - assert (Hsel : exists addresses,
               withdrawAddresses withdrawableMinipools response = inr addresses).
    { destruct (accepted_cases _ _ Hne Hok) as [(k & Hk & ->)|Hall].
      - destruct (withdrawAddresses_number withdrawableMinipools k Hk Hmax) as (s' & _ & Hs).
        eauto.
      - eexists. apply withdrawAddresses_all, allToken_startsWithA, Hall. }
    destruct Hsel as (addresses & ->).
    destruct addresses as [|a addresses].
    + rewrite finishWithdrawals_none. simpl. discriminate.
    + destruct (finishWithdrawals_cases p (a :: addresses)
                  {| chain := chain st; Input := rest; Output := Output st ++ out;
                     calls := calls st ++ [AskOperator] |} ltac:(discriminate))
        as (done & w' & evs & outcomes & _
            & [(_ & ->)|(a' & rest' & w2 & _ & Hab & ->)]).
      * simpl. discriminate.
      * intros _. cbn [fst snd chain calls].
        destruct Hab as (w1 & txor & txReceipt & first & more & _ & _ & Hev & Hnone).
        exists a', txReceipt, first, more. split; [|split; assumption].
        rewrite !app_assoc.
        change [CreateTransactor a'; SendWithdrawal a'; ReadWithdrawalEvents a']
          with ([CreateTransactor a'; SendWithdrawal a'] ++ [ReadWithdrawalEvents a'])%list.
        rewrite app_assoc. apply last_snoc.
Qed.

Lemma selectMinipools_never_panics {W Transactor Receipt} (p : Provider W Transactor Receipt)
      (withdrawableMinipools : list minipool.NodeStatus) (st : state W) :
  Z.of_nat (length withdrawableMinipools) <= strconv.maxInt ->
  snd (selectMinipools p withdrawableMinipools st) <> inl Panic.
Proof.
  intros Hmax Hpanic.
  destruct (selectMinipools_panic p withdrawableMinipools st Hmax Hpanic)
    as (a & txReceipt & first & more & _ & _ & Hnone).
  discriminate Hnone.
Qed.

(** C10. A response accepted by the pattern built over a non-empty
    withdrawable list is not empty, and either starts with the letter A
    or is read by [Atoi], with no error, as a number k between 1 and the
    length of the list, so that position k - 1 exists; resolving it
    does not panic. *)
Theorem C10_accepted_response_safe (withdrawableMinipools : list minipool.NodeStatus)
        (response : string) :
  withdrawableMinipools <> [] ->
  Z.of_nat (length withdrawableMinipools) <= strconv.maxInt ->
  regexp.MatchString (selectionPattern withdrawableMinipools) response = Some true ->
  response <> ""%string
  /\ (startsWithA response = true
      \/ exists k,
           1 <= k <= Z.of_nat (length withdrawableMinipools)
           /\ strconv.Atoi response = (k, None)
           /\ is_Some (withdrawableMinipools !! Z.to_nat (k - 1)))
  /\ exists withdrawMinipoolAddresses,
       withdrawAddresses withdrawableMinipools response = inr withdrawMinipoolAddresses.
Proof.
  intros Hne Hmax Hok.
  destruct (accepted_cases _ _ Hne Hok) as [(k & Hk & ->)|Hall].
  - destruct (withdrawAddresses_number withdrawableMinipools k Hk Hmax) as (s & Hs & Hsel).
    destruct (Itoa_digits k ltac:(lia)) as (Hnonempty & _ & _).
    split; [exact Hnonempty|]. split; [|eauto].
    right. exists k. split; [exact Hk|]. split; [apply Atoi_Itoa; lia|eauto].
  - pose proof (allToken_startsWithA _ Hall) as HA.
    split; [intros ->; discriminate HA|]. split; [left; exact HA|].
    eexists. apply withdrawAddresses_all, HA.
Qed.

(** C10 on three withdrawable minipools and the response "3". *)
Lemma C10_witness :
  let l := [Sample.initialized1; Sample.withdrawn2; Sample.timedOut3] in
  (l <> []
   /\ Z.of_nat (length l) <= strconv.maxInt
   /\ regexp.MatchString (selectionPattern l) "3" = Some true)
  /\ "3"%string <> ""%string
  /\ (startsWithA "3" = true
      \/ exists k,
           1 <= k <= Z.of_nat (length l)
           /\ strconv.Atoi "3" = (k, None)
           /\ is_Some (l !! Z.to_nat (k - 1)))
  /\ exists withdrawMinipoolAddresses,
       withdrawAddresses l "3" = inr withdrawMinipoolAddresses.
Proof.
  cbv zeta.
  assert (H1 : [Sample.initialized1; Sample.withdrawn2; Sample.timedOut3] <> [])
    by discriminate.
  assert (H2 : Z.of_nat (length [Sample.initialized1; Sample.withdrawn2; Sample.timedOut3])
               <= strconv.maxInt) by (vm_compute; discriminate).
  split; [split; [exact H1|split; [exact H2|reflexivity]]|].
  exact (C10_accepted_response_safe
           [Sample.initialized1; Sample.withdrawn2; Sample.timedOut3] "3" H1 H2 eq_refl).
Defined.

(** ** The error report *)

(** Past the loop the command returns an error exactly when an attempt
    failed, and the error holds the header and the line of every failed
    attempt, in the order of the attempts. *)
Lemma finishWithdrawals_report {Event W Transactor Receipt} {assertion : TypeAssertion Event}
      (p : Services Event W Transactor Receipt)
      (addresses : list common.Address) (st : state W) :
  decodesNodeWithdrawals p ->
  addresses <> [] ->
  exists w' evs outcomes,
    attempts p addresses (chain st) w' evs outcomes
    /\ snd (finishWithdrawals p addresses st)
       = inl (Return (if existsb failed outcomes
                      then Some (strings.Join
                                   (withdrawErrorsHeader :: flat_map recorded outcomes) LF)
                      else None)).
Proof.
  intros Hdec Hne.
  destruct (finishWithdrawals_some p addresses st Hdec Hne)
    as (w' & evs & outcomes & Hatt & ->).
  exists w', evs, outcomes. split; [exact Hatt|]. cbn [snd].
  pose proof (proj2 (recorded_failed outcomes)) as H.
  destruct (flat_map recorded outcomes); rewrite H; reflexivity.
Qed.

(** The command reports an error exactly when an attempt failed, and
    the report holds the header and the line recorded for every failed
    attempt, in the order of the attempts. *)
Lemma report_all_failures {W Transactor Receipt} (p : Provider W Transactor Receipt)
      (addresses : list common.Address) (st : state W) :
  addresses <> [] ->
  exists w' evs outcomes,
    attempts p addresses (chain st) w' evs outcomes
    /\ map outcomeAddress outcomes = addresses
    /\ (existsb failed outcomes = false ->
        snd (finishWithdrawals p addresses st) = inl (Return None))
    /\ (existsb failed outcomes = true ->
        snd (finishWithdrawals p addresses st)
        = inl (Return (Some (strings.Join
                               (withdrawErrorsHeader :: flat_map recorded outcomes) LF)))).
Proof.
  intros Hne.
  destruct (finishWithdrawals_report p addresses st (typed_decodes p) Hne)
    as (w' & evs & outcomes & Hatt & ->).
  exists w', evs, outcomes. split; [exact Hatt|].
  split; [exact (attempts_addresses p _ _ _ _ _ Hatt)|].
  split; intros ->; reflexivity.
Qed.

(** C5, at an input on which the code departs from it.  Two
    withdrawals fail with an error whose text holds a percent sign.
    The command returns an error that lists both failures, but the text
    of the error is not in the report: it was made part of the format,
    and its percent sign is read as a directive with no operand. *)
Theorem C5_error_text_rewritten :
  let reverted := "execution reverted: fee above 10%, aborted"%string in
  let p := Sample.node (Ok true) Sample.mixed (fun _ => Err reverted) in
  let o := withdrawMinipool (Ok p) Sample.inTurn (start 0%nat ["A"%string]) in
  fmt.plain ("Error withdrawing deposit from minipool %s: " ++ reverted) [fmt.AString "0x02"]
  = true
  /\ attempted (calls (final o)) = [Sample.a2; Sample.a3]
  /\ ended o
     = Return (Some (strings.Join
         [withdrawErrorsHeader;
          "Error withdrawing deposit from minipool 0x02: execution reverted: fee above 10%!,(MISSING) aborted";
          "Error withdrawing deposit from minipool 0x03: execution reverted: fee above 10%!,(MISSING) aborted"]%string
         LF))
  /\ ended o
     <> Return (Some (strings.Join
          [withdrawErrorsHeader;
           ("Error withdrawing deposit from minipool 0x02: " ++ reverted)%string;
           ("Error withdrawing deposit from minipool 0x03: " ++ reverted)%string]
          LF)).
Proof.
  cbv zeta. split; [reflexivity|]. split; [reflexivity|].
  split; [reflexivity|]. vm_compute. discriminate.
Qed.

(** * Further properties *)

(** ** Status collection: queries, schedules and goroutines *)

Lemma queried_app evs1 evs2 : queried (evs1 ++ evs2) = (queried evs1 ++ queried evs2)%list.
Proof.
  induction evs1 as [|ev evs1 IH]; [reflexivity|].
  destruct ev; simpl; rewrite ?IH; reflexivity.
Qed.

Lemma sent_app evs1 evs2 : sent (evs1 ++ evs2) = (sent evs1 ++ sent evs2)%list.
Proof.
  induction evs1 as [|ev evs1 IH]; [reflexivity|].
  destruct ev; simpl; rewrite ?IH; reflexivity.
Qed.

Lemma decoded_app evs1 evs2 : decoded (evs1 ++ evs2) = (decoded evs1 ++ decoded evs2)%list.
Proof.
  induction evs1 as [|ev evs1 IH]; [reflexivity|].
  destruct ev; simpl; rewrite ?IH; reflexivity.
Qed.

Lemma Forall2_functional {A B} (f : A -> result B) (l : list A) (k1 k2 : list B) :
  Forall2 (fun x y => f x = Ok y) l k1 -> Forall2 (fun x y => f x = Ok y) l k2 -> k1 = k2.
Proof.
  intros H1. revert k2. induction H1 as [|x y l k1 Hxy _ IH]; intros k2 H2; inversion H2; subst.
  - reflexivity.
  - f_equal; [congruence|apply IH; assumption].
Qed.

Lemma map_lookup_seq {A} (l : list A) (d : A) :
  map (fun i => nth i l d) (seq 0 (length l)) = l.
Proof.
  induction l as [|x l IH]; [reflexivity|].
  simpl. f_equal. rewrite <- seq_shift, map_map. exact IH.
Qed.

Lemma Forall2_lookup_perm {A} (l : list A) (idx : list nat) (q : list A) :
  Forall2 (fun i a => l !! i = Some a) idx q ->
  Permutation idx (seq 0 (length l)) ->
  Permutation q l.
Proof.
  intros Hq Hperm. destruct l as [|d rest].
  - apply Permutation_nil_r in Hperm. subst idx. inversion Hq. constructor.
  - assert (Hmap : q = map (fun i => nth i (d :: rest) d) idx).
    { clear Hperm. induction Hq as [|i a idx q Hia _ IH]; [reflexivity|].
      simpl map. f_equal; [|exact IH].
      symmetry. exact (nth_lookup_Some _ _ d _ Hia). }
    rewrite Hmap.
    eapply Permutation_trans; [apply Permutation_map, Hperm|].
    rewrite map_lookup_seq. reflexivity.
Qed.

Section GoroutineFacts.

Variable GetNodeStatus : common.Address -> result minipool.NodeStatus.
Variable minipoolAddresses : list common.Address.

Local Abbreviation inv := (collecting GetNodeStatus minipoolAddresses).
Local Abbreviation qinv := (querying minipoolAddresses).
Local Abbreviation stepG := (step GetNodeStatus minipoolAddresses).
Local Abbreviation runG := (run GetNodeStatus minipoolAddresses).

Lemma spawned_querying : qinv (spawned minipoolAddresses).
Proof.
  split.
  - exists []. split; [constructor|]. split; [|constructor].
    intros i. split; [intros []|].
    intros (g & Hg & Hne). apply lookup_replicate in Hg as [-> _]. congruence.
  - simpl. intros i Hi. lia.
Qed.

Lemma step_querying ch c : inv c -> qinv c -> qinv (stepG ch c).
Proof.
  intros Hc ((idx & Hnd & Hidx & Hq) & Hpast).
  pose proof Hc as (Hlen & _).
  destruct ch as [i| |i]; simpl.
  - (* a goroutine finishes its query *)
    destruct (goroutines c !! i) as [[| | |]|] eqn:Hg;
      try (split; [exists idx; auto|exact Hpast]).
    destruct (minipoolAddresses !! i) as [a|] eqn:Ha;
      try (split; [exists idx; auto|exact Hpast]).
    pose proof (lookup_lt_Some _ _ _ Hg) as Hlt.
    split.
    + exists (idx ++ [i])%list. cbn [goroutines observed]. split; [|split].
      * apply NoDup_app. split; [exact Hnd|]. split; [|apply NoDup_singleton].
        intros j Hj Hji. apply list_elem_of_In in Hj, Hji.
        destruct Hji as [->|[]]. apply Hidx in Hj as (g & Hg' & Hne). congruence.
      * intros j. rewrite in_app_iff, Hidx. simpl. split.
        -- intros [(g & Hg' & Hne)|[<-|[]]].
           ++ destruct (Nat.eq_dec i j) as [->|Hij]; [congruence|].
              exists g. rewrite list_lookup_insert_ne by exact Hij. auto.
           ++ rewrite list_lookup_insert_eq by exact Hlt.
              eexists. split; [reflexivity|]. destruct (GetNodeStatus a); discriminate.
        -- intros (g & Hg' & Hne).
           destruct (Nat.eq_dec i j) as [->|Hij]; [right; left; reflexivity|].
           left. exists g. rewrite list_lookup_insert_ne in Hg' by exact Hij. auto.
      * rewrite queried_app. apply Forall2_app; [exact Hq|]. repeat constructor. exact Ha.
    + cbn [main goroutines]. destruct (main c) as [mi l|err]; [|exact I].
      intros j Hj. specialize (Hpast j Hj).
      destruct (Nat.eq_dec i j) as [->|Hij]; [congruence|].
      rewrite list_lookup_insert_ne by exact Hij. exact Hpast.
  - (* the select takes a status *)
    destruct (main c) as [mi l|err] eqn:Hm;
      [|split; [exists idx; auto|rewrite Hm; exact I]].
    destruct (goroutines c !! mi) as [[|s| |]|] eqn:Hg;
      try (split; [exists idx; auto|rewrite Hm; exact Hpast]).
    pose proof (lookup_lt_Some _ _ _ Hg) as Hlt.
    split.
    + exists idx. cbn [goroutines observed]. split; [exact Hnd|]. split.
      * intros j. rewrite Hidx. split; intros (g & Hg' & Hne).
        -- destruct (Nat.eq_dec mi j) as [->|Hij].
           ++ rewrite list_lookup_insert_eq by exact Hlt. eexists; split; [reflexivity|discriminate].
           ++ exists g. rewrite list_lookup_insert_ne by exact Hij. auto.
        -- destruct (Nat.eq_dec mi j) as [->|Hij].
           ++ eexists; split; [exact Hg|discriminate].
           ++ exists g. rewrite list_lookup_insert_ne in Hg' by exact Hij. auto.
      * rewrite queried_app, app_nil_r. exact Hq.
    + cbn [main goroutines]. intros j Hj.
      destruct (Nat.eq_dec mi j) as [->|Hij].
      * apply list_lookup_insert_eq, Hlt.
      * rewrite list_lookup_insert_ne by exact Hij. apply Hpast. lia.
  - (* the select takes an error *)
    destruct (main c) as [mi l|err] eqn:Hm;
      [|split; [exists idx; auto|rewrite Hm; exact I]].
    destruct (goroutines c !! i) as [[| |err|]|] eqn:Hg;
      try (split; [exists idx; auto|rewrite Hm; exact Hpast]).
    destruct (mi <? minipoolCount minipoolAddresses)%nat;
      [|split; [exists idx; auto|rewrite Hm; exact Hpast]].
    pose proof (lookup_lt_Some _ _ _ Hg) as Hlt.
    split; [|exact I].
    exists idx. cbn [goroutines observed]. split; [exact Hnd|]. split.
    + intros j. rewrite Hidx. split; intros (g & Hg' & Hne).
      * destruct (Nat.eq_dec i j) as [->|Hij].
        -- rewrite list_lookup_insert_eq by exact Hlt. eexists; split; [reflexivity|discriminate].
        -- exists g. rewrite list_lookup_insert_ne by exact Hij. auto.
      * destruct (Nat.eq_dec i j) as [->|Hij].
        -- eexists; split; [exact Hg|discriminate].
        -- exists g. rewrite list_lookup_insert_ne in Hg' by exact Hij. auto.
    + rewrite queried_app, app_nil_r. exact Hq.
Qed.

Lemma run_querying sched : forall c, inv c -> qinv c -> qinv (runG sched c).
Proof.
  induction sched as [|ch sched IH]; intros c Hc Hq; simpl; [exact Hq|].
  destruct (finished minipoolAddresses c); [exact Hq|].
  apply IH; [apply step_collecting, Hc|apply step_querying; assumption].
Qed.

Lemma collect_querying sched : qinv (collect GetNodeStatus minipoolAddresses sched).
Proof. apply run_querying; [apply spawned_collecting|apply spawned_querying]. Qed.

(** The positions queried are pairwise distinct; once all statuses are
    received every position has been queried. *)
Lemma queried_once (c : collection) :
  inv c -> qinv c ->
  (exists idx,
      NoDup idx /\ Forall2 (fun i a => minipoolAddresses !! i = Some a) idx (queried (observed c)))
  /\ (forall l, main c = Receiving (minipoolCount minipoolAddresses) l ->
        Permutation (queried (observed c)) minipoolAddresses).
Proof.
  intros (Hlen & _) ((idx & Hnd & Hidx & Hq) & Hpast).
  split; [exists idx; auto|].
  intros l Hm. rewrite Hm in Hpast.
  assert (Hperm : Permutation idx (seq 0 (minipoolCount minipoolAddresses))).
  { apply NoDup_Permutation; [exact Hnd|apply NoDup_seq|].
    intros i. rewrite !list_elem_of_In, Hidx, in_seq. split.
    - intros (g & Hg & _). apply lookup_lt_Some in Hg. lia.
    - intros Hi. exists Exited. split; [apply Hpast; lia|discriminate]. }
  exact (Forall2_lookup_perm _ _ _ Hq Hperm).
Qed.

(** Steps after a failure change neither the receive loop nor the set
    of goroutines that have exited. *)
Lemma step_failed ch c err :
  main c = Failed err ->
  main (stepG ch c) = Failed err
  /\ forall i, goroutines (stepG ch c) !! i = Some Exited -> goroutines c !! i = Some Exited.
Proof.
  intros Hm. destruct ch as [i| |i]; simpl.
  - destruct (goroutines c !! i) as [[| | |]|] eqn:Hg;
      try (split; [exact Hm|intros j Hj; exact Hj]).
    destruct (minipoolAddresses !! i) as [a|];
      try (split; [exact Hm|intros j Hj; exact Hj]).
    split; [exact Hm|]. cbn [goroutines]. intros j Hj.
    apply list_lookup_insert_Some in Hj as [(_ & Hv & _)|(_ & Hj)]; [|exact Hj].
    destruct (GetNodeStatus a); discriminate.
  - rewrite Hm. auto.
  - rewrite Hm. auto.
Qed.

Lemma after_failed sched : forall c err,
  main c = Failed err ->
  main (after GetNodeStatus minipoolAddresses sched c) = Failed err
  /\ forall i, goroutines (after GetNodeStatus minipoolAddresses sched c) !! i = Some Exited ->
               goroutines c !! i = Some Exited.
Proof.
  induction sched as [|ch sched IH]; intros c err Hm; simpl; [auto|].
  destruct (step_failed ch c err Hm) as [Hm' Hex].
  destruct (IH _ err Hm') as [Hm'' Hex'].
  split; [exact Hm''|]. intros i Hi. apply Hex, Hex', Hi.
Qed.

End GoroutineFacts.

(** X1. Whatever the schedule, no position of the address list is
    queried twice; when status collection hands back the withdrawable
    list, every address has been queried exactly once (the queries are a
    permutation of the address list) and the list is no longer than the
    address list. *)
Theorem X1_each_address_queried_once {W Transactor Receipt}
        (p : Provider W Transactor Receipt) (sched : list choice)
        (minipoolAddresses : list common.Address) (st : state W) :
  let r := receiveStatuses p sched minipoolAddresses st in
  exists evs,
    calls (fst r) = (calls st ++ evs)%list
    /\ (exists idx,
          NoDup idx
          /\ Forall2 (fun i a => minipoolAddresses !! i = Some a) idx (queried evs))
    /\ match snd r with
       | inr withdrawableMinipools =>
           Permutation (queried evs) minipoolAddresses
           /\ (length withdrawableMinipools <= length minipoolAddresses)%nat
       | inl _ => True
       end.
Proof.
  cbv zeta. unfold receiveStatuses.
  set (c := collect (GetNodeStatus p (chain st)) minipoolAddresses sched).
  pose proof (collect_collecting (GetNodeStatus p (chain st)) minipoolAddresses sched) as Hc.
  pose proof (collect_querying (GetNodeStatus p (chain st)) minipoolAddresses sched) as Hq.
  fold c in Hc, Hq.
  destruct (queried_once _ _ c Hc Hq) as [Hidx Hperm].
  exists (observed c).
  destruct (main c) as [mi l|err] eqn:Hm.
  - destruct (finished minipoolAddresses c) eqn:Hfin; cbn [fst snd calls];
      (split; [reflexivity|split; [exact Hidx|]]); [|exact I].
    destruct (finished_collecting _ _ c Hc Hfin)
      as [(statuses & HF & Hm' & _)|(err & Hm' & _)]; [|congruence].
    rewrite Hm in Hm'. injection Hm' as -> ->.
    split; [exact (Hperm _ eq_refl)|].
    rewrite (Forall2_length _ _ _ HF). apply List.filter_length_le.
  - cbn [fst snd calls]. split; [reflexivity|split; [exact Hidx|exact I]].
Qed.

(** X2. Once the receive loop has returned an error nothing is received
    any more: whatever the goroutines do afterwards, the loop stays
    failed and a goroutine that had not exited by then never exits (it
    stays in its query or at its send). *)
Theorem X2_no_exit_after_failure (GetNodeStatus : common.Address -> result minipool.NodeStatus)
        (minipoolAddresses : list common.Address) (sched later : list choice)
        (err : error) (i : nat) :
  main (collect GetNodeStatus minipoolAddresses sched) = Failed err ->
  goroutines (after GetNodeStatus minipoolAddresses later
                (collect GetNodeStatus minipoolAddresses sched)) !! i = Some Exited ->
  goroutines (collect GetNodeStatus minipoolAddresses sched) !! i = Some Exited
  /\ main (after GetNodeStatus minipoolAddresses later
             (collect GetNodeStatus minipoolAddresses sched)) = Failed err.
Proof.
  intros Hm Hi.
  destruct (after_failed GetNodeStatus minipoolAddresses later _ err Hm) as [Hm' Hex].
  split; [exact (Hex i Hi)|exact Hm'].
Qed.

(** X2 on the sample node: the second query fails and its error is
    taken; the first goroutine had been received from, the third is
    left at its send. *)
Lemma X2_witness :
  let addresses := [Sample.a1; Sample.a2; Sample.a3] in
  let sched := [Finish 1; Finish 0; TakeStatus; TakeError 1] in
  let later := [Finish 2; TakeStatus; TakeError 2] in
  let c := collect Sample.failing addresses sched in
  (main c = Failed "connection reset"%string
   /\ goroutines (after Sample.failing addresses later c) !! 0%nat = Some Exited)
  /\ goroutines c !! 0%nat = Some Exited
  /\ main (after Sample.failing addresses later c) = Failed "connection reset"%string.
Proof.
  cbv zeta. split; [split; reflexivity|].
  exact (X2_no_exit_after_failure Sample.failing [Sample.a1; Sample.a2; Sample.a3]
           [Finish 1; Finish 0; TakeStatus; TakeError 1]
           [Finish 2; TakeStatus; TakeError 2] "connection reset"%string 0%nat
           eq_refl eq_refl).
Defined.

(** X3. Which error is returned is decided by the schedule: for every
    address whose query fails there is a schedule (that goroutine
    finishes first and the select takes its error) on which status
    collection returns that very error. *)
Theorem X3_any_failing_query_can_win {W Transactor Receipt}
        (p : Provider W Transactor Receipt)
        (minipoolAddresses : list common.Address) (st : state W)
        (i : nat) (a : common.Address) (err : error) :
  minipoolAddresses !! i = Some a ->
  GetNodeStatus p (chain st) a = Err err ->
  snd (receiveStatuses p [Finish i; TakeError i] minipoolAddresses st)
  = inl (Return (Some err)).
Proof.
  intros Ha Herr. pose proof (lookup_lt_Some _ _ _ Ha) as Hlt.
  assert (Hpos : (0 <? minipoolCount minipoolAddresses)%nat = true).
  { apply Nat.ltb_lt. unfold minipoolCount. lia. }
  unfold receiveStatuses, collect, spawned.
  cbn [run finished main]. rewrite Hpos. cbn [negb].
  cbn [step goroutines main observed].
  rewrite lookup_replicate_2 by exact Hlt. rewrite Ha, Herr.
  cbn [finished main]. rewrite Hpos. cbn [negb].
  cbn [step goroutines main observed].
  rewrite list_lookup_insert_eq by (rewrite length_replicate; exact Hlt).
  rewrite ?Hpos. reflexivity.
Qed.

(** X3 on a node where two queries fail with different errors: either
    can be the one returned. *)
Lemma X3_witness :
  let p := Sample.node (Ok true)
             (Sample.byHex (Err "timeout") (Err "connection reset") (Ok Sample.timedOut3))
             (fun _ => Ok tt) in
  let addresses := [Sample.a1; Sample.a2; Sample.a3] in
  ((addresses !! 0%nat = Some Sample.a1
    /\ GetNodeStatus p (chain (start 0%nat [])) Sample.a1 = Err "timeout"%string)
   /\ snd (receiveStatuses p [Finish 0; TakeError 0] addresses (start 0%nat []))
      = inl (Return (Some "timeout"%string)))
  /\ ((addresses !! 1%nat = Some Sample.a2
       /\ GetNodeStatus p (chain (start 0%nat [])) Sample.a2 = Err "connection reset"%string)
      /\ snd (receiveStatuses p [Finish 1; TakeError 1] addresses (start 0%nat []))
         = inl (Return (Some "connection reset"%string))).
Proof.
  cbv zeta. split; (split; [split; reflexivity|]).
  - exact (X3_any_failing_query_can_win
             (Sample.node (Ok true)
                (Sample.byHex (Err "timeout") (Err "connection reset") (Ok Sample.timedOut3))
                (fun _ => Ok tt))
             [Sample.a1; Sample.a2; Sample.a3]
             (start 0%nat []) 0%nat Sample.a1 "timeout"%string eq_refl eq_refl).
  - exact (X3_any_failing_query_can_win
             (Sample.node (Ok true)
                (Sample.byHex (Err "timeout") (Err "connection reset") (Ok Sample.timedOut3))
                (fun _ => Ok tt))
             [Sample.a1; Sample.a2; Sample.a3]
             (start 0%nat []) 1%nat Sample.a2 "connection reset"%string eq_refl eq_refl).
Defined.

(** X4. The withdrawable list does not depend on the order in which the
    goroutines finish: two schedules on which status collection hands
    back a list hand back the same list, and have delivered the same
    statuses at the same iterations. *)
Theorem X4_result_independent_of_schedule {W Transactor Receipt}
        (p : Provider W Transactor Receipt) (sched1 sched2 : list choice)
        (minipoolAddresses : list common.Address) (st st1 st2 : state W)
        (l1 l2 : list minipool.NodeStatus) :
  receiveStatuses p sched1 minipoolAddresses st = (st1, inr l1) ->
  receiveStatuses p sched2 minipoolAddresses st = (st2, inr l2) ->
  l1 = l2 /\ delivered (calls st1) = delivered (calls st2).
Proof.
  intros H1 H2.
  destruct (receiveStatuses_cases p sched1 minipoolAddresses st) as (evs1 & _ & C1).
  destruct (receiveStatuses_cases p sched2 minipoolAddresses st) as (evs2 & _ & C2).
  cbv zeta in C1, C2. rewrite H1 in C1. rewrite H2 in C2.
  destruct C1 as [C1|[(ss1 & HF1 & Hd1 & _ & C1)|(e & _ & _ & C1)]]; try discriminate.
  destruct C2 as [C2|[(ss2 & HF2 & Hd2 & _ & C2)|(e & _ & _ & C2)]]; try discriminate.
  injection C1 as -> ->. injection C2 as -> ->.
  pose proof (Forall2_functional _ _ _ _ HF1 HF2) as ->.
  split; [reflexivity|]. cbn [calls]. rewrite !delivered_app, Hd1, Hd2. reflexivity.
Qed.

(** X4 on the sample node, with the goroutines finishing in the orders
    3, 1, 2 and 1, 2, 3. *)
Lemma X4_witness :
  let p := Sample.node (Ok true) Sample.mixed (fun _ => Ok tt) in
  let addresses := [Sample.a1; Sample.a2; Sample.a3] in
  let l := [Sample.initialized1; Sample.withdrawn2; Sample.timedOut3] in
  let inOrder := [Finish 0; TakeStatus; Finish 1; TakeStatus; Finish 2; TakeStatus] in
  let st := start 0%nat [] in
  (receiveStatuses p Sample.inTurn addresses st
   = (fst (receiveStatuses p Sample.inTurn addresses st), inr l)
   /\ receiveStatuses p inOrder addresses st
      = (fst (receiveStatuses p inOrder addresses st), inr l))
  /\ l = l
  /\ delivered (calls (fst (receiveStatuses p Sample.inTurn addresses st)))
     = delivered (calls (fst (receiveStatuses p inOrder addresses st))).
Proof.
  cbv zeta. split; [split; reflexivity|].
  exact (X4_result_independent_of_schedule
           (Sample.node (Ok true) Sample.mixed (fun _ => Ok tt))
           Sample.inTurn
           [Finish 0; TakeStatus; Finish 1; TakeStatus; Finish 2; TakeStatus]
           [Sample.a1; Sample.a2; Sample.a3] (start 0%nat []) _ _ _ _ eq_refl eq_refl).
Defined.

(** ** The withdrawal loop: what is sent, and what is reported *)

Section LoopFacts.

Context {W Transactor Receipt : Type}.
Variable p : Provider W Transactor Receipt.

Lemma attempts_sent (addresses : list common.Address) w w' evs outcomes :
  attempts p addresses w w' evs outcomes ->
  sublist (sent evs) addresses /\ sublist (decoded evs) (sent evs).
Proof.
  induction 1 as [|a rest w w1 w2 evs1 evs2 o outcomes Ha _ [IH1 IH2]].
  - split; constructor.
  - rewrite sent_app, decoded_app.
    assert (H1 : sublist (sent evs1) [a] /\ sublist (decoded evs1) (sent evs1)).
    { destruct Ha; simpl; split; repeat constructor. }
    destruct H1 as [H1 H1'].
    split; [exact (sublist_app _ [a] _ rest H1 IH1)|exact (sublist_app _ _ _ _ H1' IH2)].
Qed.

(** When no call fails, an iteration prints two lines and records no
    error. *)
Lemma withdrawDeposit_succeeds (a : common.Address) (errs : list string) (st : state W) :
  (forall w, exists w' txor, GetNodeAccountTransactor p w = (w', Ok txor)) ->
  (forall w txor a', exists w' txReceipt,
      ExecuteContractTransaction p w txor a' = (w', Ok txReceipt)) ->
  (forall w txReceipt a', exists ev more,
      GetTransactionEvents p w txReceipt a' = Ok (ev :: more)) ->
  exists w' line1 line2,
    withdrawDeposit p a errs st
    = ({| chain := w'; Input := Input st;
          Output := Output st ++ [line1; line2];
          calls := calls st ++ [CreateTransactor a; SendWithdrawal a; ReadWithdrawalEvents a] |},
       inr errs).
Proof.
  intros H1 H2 H3.
  cbv beta iota zeta delta [withdrawDeposit bind call query record Fprintln ret chain Input Output
                            calls nodeWithdrawal typedAssertion].
  destruct st as [w input output done]. cbn [chain Input Output calls].
  destruct (H1 w) as (w1 & txor & ->).
  destruct (H2 w1 txor a) as (w2 & txReceipt & ->).
  destruct (H3 w2 txReceipt a) as (ev & more & ->).
  eexists w2, _, _. rewrite <- !app_assoc. reflexivity.
Qed.

Lemma withdrawDeposits_succeed (addresses : list common.Address) :
  (forall w, exists w' txor, GetNodeAccountTransactor p w = (w', Ok txor)) ->
  (forall w txor a', exists w' txReceipt,
      ExecuteContractTransaction p w txor a' = (w', Ok txReceipt)) ->
  (forall w txReceipt a', exists ev more,
      GetTransactionEvents p w txReceipt a' = Ok (ev :: more)) ->
  forall (errs : list string) (st : state W),
  exists w' out,
    length out = (2 * length addresses)%nat
    /\ withdrawDeposits p addresses errs st
       = ({| chain := w'; Input := Input st;
             Output := Output st ++ out;
             calls := calls st
                      ++ flat_map (fun a => [CreateTransactor a; SendWithdrawal a;
                                             ReadWithdrawalEvents a]) addresses |},
          inr errs).
Proof.
  intros H1 H2 H3. induction addresses as [|a rest IH]; intros errs st.
  - exists (chain st), []. split; [reflexivity|].
    simpl. unfold ret. rewrite !app_nil_r. destruct st; reflexivity.
  - destruct (withdrawDeposit_succeeds a errs st H1 H2 H3) as (w1 & l1 & l2 & Hone).
    cbn [withdrawDeposits]. unfold bind at 1. rewrite Hone.
    match goal with |- context [withdrawDeposits p rest ?e ?s] =>
      destruct (IH e s) as (w2 & out & Hlen & Hrest)
    end.
    cbn [chain Input Output calls] in Hrest.
    exists w2, (l1 :: l2 :: out). split; [simpl; lia|].
    rewrite Hrest, <- !app_assoc. reflexivity.
Qed.

End LoopFacts.

(** X5. The withdrawal loop sends at most one transaction per entry of
    the address list, in list order (the transactions sent are a sublist
    of the list), and reads withdrawal events only for a transaction it
    has sent. *)
Theorem X5_one_transaction_per_address {W Transactor Receipt}
        (p : Provider W Transactor Receipt)
        (withdrawMinipoolAddresses : list common.Address)
        (withdrawErrors : list string) (st : state W) :
  exists evs,
    calls (fst (withdrawDeposits p withdrawMinipoolAddresses withdrawErrors st))
    = (calls st ++ evs)%list
    /\ sublist (sent evs) withdrawMinipoolAddresses
    /\ sublist (decoded evs) (sent evs).
Proof.
  destruct (withdrawDeposits_attempts p withdrawMinipoolAddresses withdrawErrors st
              (typed_decodes p))
    as (w' & evs & outcomes & Hatt & ->).
  exists evs. split; [reflexivity|]. exact (attempts_sent p _ _ _ _ _ Hatt).
Qed.

(** X6. When no call of the loop fails, the command returns nil after
    requesting a transactor, sending the withdrawal and reading its
    events for every address, in list order, and printing two lines per
    address. *)
Theorem X6_all_withdrawals_succeed {W Transactor Receipt}
        (p : Provider W Transactor Receipt)
        (withdrawMinipoolAddresses : list common.Address) (st : state W) :
  withdrawMinipoolAddresses <> [] ->
  (forall w, exists w' txor, GetNodeAccountTransactor p w = (w', Ok txor)) ->
  (forall w txor a, exists w' txReceipt,
      ExecuteContractTransaction p w txor a = (w', Ok txReceipt)) ->
  (forall w txReceipt a, exists ev more,
      GetTransactionEvents p w txReceipt a = Ok (ev :: more)) ->
  exists st',
    finishWithdrawals p withdrawMinipoolAddresses st = (st', inl (Return None))
    /\ calls st'
       = (calls st
          ++ flat_map (fun a => [CreateTransactor a; SendWithdrawal a; ReadWithdrawalEvents a])
                      withdrawMinipoolAddresses)%list
    /\ length (Output st')
       = (length (Output st) + 2 * length withdrawMinipoolAddresses)%nat.
Proof.
  intros Hne H1 H2 H3. unfold finishWithdrawals.
  destruct withdrawMinipoolAddresses as [|a rest] eqn:Hl; [congruence|].
  rewrite <- Hl. replace (length withdrawMinipoolAddresses =? 0)%nat with false
    by (subst; reflexivity).
  destruct (withdrawDeposits_succeed p withdrawMinipoolAddresses H1 H2 H3
              [withdrawErrorsHeader] st) as (w' & out & Hlen & Hrun).
  unfold bind. rewrite Hrun. cbn [length Nat.ltb Nat.leb].
  eexists. split; [reflexivity|]. cbn [calls Output].
  split; [reflexivity|]. rewrite length_app. lia.
Qed.

(** X6 on the sample node: both selected withdrawals go through. *)
Lemma X6_witness :
  let p := Sample.node (Ok true) Sample.mixed (fun _ => Ok tt) in
  let addresses := [Sample.a2; Sample.a3] in
  let st := start 0%nat [] in
  (addresses <> []
   /\ (forall w, exists w' txor, GetNodeAccountTransactor p w = (w', Ok txor))
   /\ (forall w txor a, exists w' txReceipt,
         ExecuteContractTransaction p w txor a = (w', Ok txReceipt))
   /\ (forall w txReceipt a, exists ev more,
         GetTransactionEvents p w txReceipt a = Ok (ev :: more)))
  /\ exists st',
       finishWithdrawals p addresses st = (st', inl (Return None))
       /\ calls st'
          = (calls st
             ++ flat_map (fun a => [CreateTransactor a; SendWithdrawal a; ReadWithdrawalEvents a])
                         addresses)%list
       /\ length (Output st') = (length (Output st) + 2 * length addresses)%nat.
Proof.
  cbv zeta.
  assert (H0 : [Sample.a2; Sample.a3] <> []) by discriminate.
  assert (H1 : forall w : nat, exists (w' : nat) (txor : unit),
               GetNodeAccountTransactor (Sample.node (Ok true) Sample.mixed (fun _ => Ok tt)) w
               = (w', Ok txor)) by (intros w; eexists _, _; reflexivity).
  assert (H2 : forall (w : nat) (txor : unit) a, exists (w' : nat) (txReceipt : unit),
               ExecuteContractTransaction (Sample.node (Ok true) Sample.mixed (fun _ => Ok tt))
                 w txor a = (w', Ok txReceipt)) by (intros w txor a; eexists _, _; reflexivity).
  assert (H3 : forall (w : nat) (txReceipt : unit) a, exists ev more,
               GetTransactionEvents (Sample.node (Ok true) Sample.mixed (fun _ => Ok tt))
                 w txReceipt a = Ok (ev :: more)) by (intros w r a; eexists _, _; reflexivity).
  split; [split; [exact H0|split; [exact H1|split; [exact H2|exact H3]]]|].
  exact (X6_all_withdrawals_succeed (Sample.node (Ok true) Sample.mixed (fun _ => Ok tt))
           [Sample.a2; Sample.a3] (start 0%nat []) H0 H1 H2 H3).
Defined.

(** The errors in the outcomes are those the services returned. *)
Lemma attempts_verbatim {Event W Transactor Receipt} {assertion : TypeAssertion Event}
      (p : Services Event W Transactor Receipt)
      (addresses : list common.Address) w w' evs outcomes :
  (forall w0 w1 err, GetNodeAccountTransactor p w0 = (w1, Err err) -> free_of "%" err = true) ->
  (forall w0 txor a w1 err,
      ExecuteContractTransaction p w0 txor a = (w1, Err err) -> free_of "%" err = true) ->
  (forall w0 txReceipt a err,
      GetTransactionEvents p w0 txReceipt a = Err err -> free_of "%" err = true) ->
  attempts p addresses w w' evs outcomes ->
  Forall (fun o => verbatim o = true) outcomes.
Proof.
  intros H1 H2 H3.
  induction 1 as [|a rest w w1 w2 evs1 evs2 o outcomes Ha _ IH]; constructor; [|exact IH].
  destruct Ha as [w3 err Htx|w3 txor w4 err _ Hex|w3 txor w4 txReceipt err _ _ Hev| |];
    cbn [verbatim errorText]; eauto.
Qed.

(** X7. Past the loop, when the event retrieval returns
    [NodeWithdrawal] elements, the command returns an error exactly when
    an attempt failed.  The attempts have one outcome per address, in
    the order of the list; the text of the error is the header followed
    by the line recorded for each failed outcome, in that order, joined
    by line feeds: one line for each failure, which is the failure, its
    address and the text of its error when no error text holds a percent
    sign. *)
Theorem X7_report_holds_every_failure {W Transactor Receipt}
        (p : Services any W Transactor Receipt)
        (withdrawMinipoolAddresses : list common.Address) (st : state W) :
  decodesNodeWithdrawals p ->
  withdrawMinipoolAddresses <> [] ->
  exists w' evs outcomes,
    attempts p withdrawMinipoolAddresses (chain st) w' evs outcomes
    /\ map outcomeAddress outcomes = withdrawMinipoolAddresses
    /\ snd (finishWithdrawals p withdrawMinipoolAddresses st)
       = inl (Return (if existsb failed outcomes
                      then Some (strings.Join
                                   (withdrawErrorsHeader :: flat_map recorded outcomes) LF)
                      else None))
    /\ length (flat_map recorded outcomes) = length (List.filter failed outcomes)
    /\ (Forall (fun o => verbatim o = true) outcomes ->
        flat_map recorded outcomes = flat_map described outcomes).
Proof.
  intros Hdec Hne.
  destruct (finishWithdrawals_report p withdrawMinipoolAddresses st Hdec Hne)
    as (w' & evs & outcomes & Hatt & Hrun).
  exists w', evs, outcomes. split; [exact Hatt|].
  split; [exact (attempts_addresses p _ _ _ _ _ Hatt)|].
  split; [exact Hrun|].
  split; [exact (proj1 (recorded_failed outcomes))|].
  apply recorded_all_described.
Qed.

(** X7 on the sample node, the withdrawals failing. *)
Lemma X7_witness :
  let p := Sample.untyped (fun _ => Err "out of gas"%string) Sample.paidEvents in
  let addresses := [Sample.a2; Sample.a3] in
  let st := start 0%nat [] in
  (decodesNodeWithdrawals p /\ addresses <> [])
  /\ exists w' evs outcomes,
       attempts p addresses (chain st) w' evs outcomes
       /\ map outcomeAddress outcomes = addresses
       /\ snd (finishWithdrawals p addresses st)
          = inl (Return (if existsb failed outcomes
                         then Some (strings.Join
                                      (withdrawErrorsHeader :: flat_map recorded outcomes) LF)
                         else None))
       /\ length (flat_map recorded outcomes) = length (List.filter failed outcomes)
       /\ (Forall (fun o => verbatim o = true) outcomes ->
           flat_map recorded outcomes = flat_map described outcomes).
Proof.
  cbv zeta.
  assert (Hdec : decodesNodeWithdrawals
                   (Sample.untyped (fun _ => Err "out of gas"%string) Sample.paidEvents)).
  { intros w txReceipt a first more Hev. injection Hev as <- _. discriminate. }
  assert (H0 : [Sample.a2; Sample.a3] <> []) by discriminate.
  split; [split; [exact Hdec|exact H0]|].
  exact (X7_report_holds_every_failure
           (Sample.untyped (fun _ => Err "out of gas"%string) Sample.paidEvents)
           [Sample.a2; Sample.a3] (start 0%nat []) Hdec H0).
Defined.

(** X8. What the withdrawal loop prints and records, when the event
    retrieval returns [NodeWithdrawal] elements and no error the
    services return holds a percent sign in its text: for each address,
    in order, nothing without a signer, else the progress line, then the
    confirmation after a withdrawal; and for each failure one line made
    of the failure, the address and the text of the error.  The address
    is printed as it is in all of them, whatever its text. *)
Theorem X8_lines_verbatim {W Transactor Receipt}
        (p : Services any W Transactor Receipt)
        (withdrawMinipoolAddresses : list common.Address)
        (withdrawErrors : list string) (st : state W) :
  decodesNodeWithdrawals p ->
  (forall w w' err, GetNodeAccountTransactor p w = (w', Err err) -> free_of "%" err = true) ->
  (forall w txor a w' err,
      ExecuteContractTransaction p w txor a = (w', Err err) -> free_of "%" err = true) ->
  (forall w txReceipt a err,
      GetTransactionEvents p w txReceipt a = Err err -> free_of "%" err = true) ->
  exists w' evs outcomes,
    attempts p withdrawMinipoolAddresses (chain st) w' evs outcomes
    /\ map outcomeAddress outcomes = withdrawMinipoolAddresses
    /\ withdrawDeposits p withdrawMinipoolAddresses withdrawErrors st
       = ({| chain := w'; Input := Input st;
             Output := Output st ++ flat_map (announced p) outcomes;
             calls := calls st ++ evs |},
          inr (withdrawErrors ++ flat_map described outcomes)%list).
Proof.
  intros Hdec H1 H2 H3.
  destruct (withdrawDeposits_attempts p withdrawMinipoolAddresses withdrawErrors st Hdec)
    as (w' & evs & outcomes & Hatt & Hrun).
  exists w', evs, outcomes. split; [exact Hatt|].
  split; [exact (attempts_addresses p _ _ _ _ _ Hatt)|].
  rewrite Hrun, (recorded_all_described outcomes); [reflexivity|].
  exact (attempts_verbatim p _ _ _ _ _ H1 H2 H3 Hatt).
Qed.

(** X8 on an address whose text itself holds a percent sign, the
    transaction failing. *)
Lemma X8_witness :
  let p := Sample.untyped (fun _ => Err "out of gas"%string) Sample.paidEvents in
  let addresses := [common.HexToAddress "0x%d"] in
  let st := start 0%nat [] in
  (decodesNodeWithdrawals p
   /\ (forall w w' err, GetNodeAccountTransactor p w = (w', Err err) -> free_of "%" err = true)
   /\ (forall w txor a w' err,
         ExecuteContractTransaction p w txor a = (w', Err err) -> free_of "%" err = true)
   /\ (forall w txReceipt a err,
         GetTransactionEvents p w txReceipt a = Err err -> free_of "%" err = true))
  /\ exists w' evs outcomes,
       attempts p addresses (chain st) w' evs outcomes
       /\ map outcomeAddress outcomes = addresses
       /\ withdrawDeposits p addresses [withdrawErrorsHeader] st
          = ({| chain := w'; Input := Input st;
                Output := Output st ++ flat_map (announced p) outcomes;
                calls := calls st ++ evs |},
             inr ([withdrawErrorsHeader] ++ flat_map described outcomes)%list).
Proof.
  cbv zeta.
  assert (Hdec : decodesNodeWithdrawals
                   (Sample.untyped (fun _ => Err "out of gas"%string) Sample.paidEvents)).
  { intros w txReceipt a first more Hev. injection Hev as <- _. discriminate. }
  assert (H1 : forall (w w' : nat) err,
             GetNodeAccountTransactor
               (Sample.untyped (fun _ => Err "out of gas"%string) Sample.paidEvents) w
             = (w', Err err) -> free_of "%" err = true).
  { intros w w' err H. discriminate H. }
  assert (H2 : forall (w : nat) (txor : unit) a (w' : nat) err,
             ExecuteContractTransaction
               (Sample.untyped (fun _ => Err "out of gas"%string) Sample.paidEvents) w txor a
             = (w', Err err) -> free_of "%" err = true).
  { intros w txor a w' err H. injection H as _ <-. reflexivity. }
  assert (H3 : forall (w : nat) (txReceipt : unit) a err,
             GetTransactionEvents
               (Sample.untyped (fun _ => Err "out of gas"%string) Sample.paidEvents)
               w txReceipt a
             = Err err -> free_of "%" err = true).
  { intros w txReceipt a err H. discriminate H. }
  split; [split; [exact Hdec|split; [exact H1|split; [exact H2|exact H3]]]|].
  exact (X8_lines_verbatim
           (Sample.untyped (fun _ => Err "out of gas"%string) Sample.paidEvents)
           [common.HexToAddress "0x%d"] [withdrawErrorsHeader] (start 0%nat [])
           Hdec H1 H2 H3).
Defined.

(** ** The menu and the selection *)

Lemma menu_prompt (l : list minipool.NodeStatus) : forall mi prompt options,
  fst (menu mi l prompt options)
  = (prompt ++ map (fun '(i, s) => menuLine (Z.of_nat i + 1) s)
                   (combine (seq mi (length l)) l))%list.
Proof.
  induction l as [|s l IH]; intros mi prompt options; simpl.
  - rewrite app_nil_r. reflexivity.
  - rewrite IH, <- app_assoc. reflexivity.
Qed.

Lemma lookup_combine_seq {A} (l : list A) (i : nat) (x : A) : forall mi,
  l !! i = Some x -> combine (seq mi (length l)) l !! i = Some ((mi + i)%nat, x).
Proof.
  revert i. induction l as [|y l IH]; intros i mi H; [discriminate|].
  destruct i as [|i]; simpl in *.
  - injection H as ->. rewrite Nat.add_0_r. reflexivity.
  - rewrite (IH i (S mi) H). do 2 f_equal. lia.
Qed.

Lemma lookup_of_map {A B} (f : A -> B) (l : list A) : forall i,
  map f l !! i = option_map f (l !! i).
Proof.
  induction l as [|x l IH]; intros [|i]; simpl; try reflexivity. apply IH.
Qed.

Lemma lookup_cons_S {A} (x : A) (l : list A) (i : nat) : (x :: l) !! S i = l !! i.
Proof. reflexivity. Qed.

Lemma flat_map_ext_in {A B} (f g : A -> list B) (l : list A) :
  (forall x, In x l -> f x = g x) -> flat_map f l = flat_map g l.
Proof.
  induction l as [|x l IH]; intros H; [reflexivity|].
  simpl. rewrite (H x (or_introl eq_refl)), IH; [reflexivity|].
  intros y Hy. apply H. right. exact Hy.
Qed.

(** The elements a filter keeps, read by their number from 1. *)
Lemma filter_by_number {A B} (P : A -> bool) (f : A -> B) (l : list A) :
  map f (List.filter P l)
  = flat_map (fun k => match l !! pred k with Some s => [f s] | None => [] end)
      (List.filter (fun k => match l !! pred k with Some s => P s | None => false end)
                   (seq 1 (length l))).
Proof.
  induction l as [|x l IH] using rev_ind; [reflexivity|].
  rewrite List.filter_app, map_app, length_app, Nat.add_comm. cbn [length Nat.add].
  rewrite seq_S, List.filter_app, flat_map_app. f_equal.
  - rewrite IH.
    rewrite (List.filter_ext_in
               (fun k => match (l ++ [x])%list !! pred k with Some s => P s | None => false end)
               (fun k => match l !! pred k with Some s => P s | None => false end)).
    + apply flat_map_ext_in. intros k Hk. apply List.filter_In in Hk as [Hk _].
      apply in_seq in Hk. rewrite lookup_app_l by lia. reflexivity.
    + intros k Hk. apply in_seq in Hk. rewrite lookup_app_l by lia. reflexivity.
  - cbn [List.filter Nat.add pred].
    rewrite list_lookup_middle by reflexivity.
    destruct (P x); simpl; [|reflexivity].
    rewrite list_lookup_middle by reflexivity. reflexivity.
Qed.

(** X9. On a non-empty withdrawable list the pattern the command builds
    accepts exactly the decimal numerals of 1 .. N and the texts equal
    to "a" or "all" up to case. *)
Theorem X9_pattern_accepts_exactly (withdrawableMinipools : list minipool.NodeStatus)
        (response : string) :
  withdrawableMinipools <> [] ->
  regexp.MatchString (selectionPattern withdrawableMinipools) response = Some true
  <-> ((exists k, 1 <= k <= Z.of_nat (length withdrawableMinipools)
                  /\ response = strconv.Itoa k)
       \/ allToken response = true).
Proof.
  intros Hne. split.
  - apply accepted_cases, Hne.
  - intros [(k & Hk & ->)|Hall].
    + apply number_accepted, Hk.
    + apply allToken_accepted; assumption.
Qed.

(** X9 on three withdrawable minipools: "3" and "aLL" are accepted,
    "4" and "0" are not accepted. *)
Lemma X9_witness :
  let l := [Sample.initialized1; Sample.withdrawn2; Sample.timedOut3] in
  l <> []
  /\ (regexp.MatchString (selectionPattern l) "aLL" = Some true
      <-> ((exists k, 1 <= k <= Z.of_nat (length l) /\ "aLL"%string = strconv.Itoa k)
           \/ allToken "aLL" = true))
  /\ regexp.MatchString (selectionPattern l) "3" = Some true
  /\ regexp.MatchString (selectionPattern l) "4" = Some false
  /\ regexp.MatchString (selectionPattern l) "0" = Some false.
Proof.
  cbv zeta.
  assert (H0 : [Sample.initialized1; Sample.withdrawn2; Sample.timedOut3] <> [])
    by discriminate.
  split; [exact H0|].
  split; [exact (X9_pattern_accepts_exactly _ "aLL" H0)|].
  repeat split; reflexivity.
Defined.

(** X10. The menu and the resolution agree: the prompt is the header
    followed by one line per withdrawable minipool, and the line
    numbered k shows the address and the state label of the minipool
    that the response k resolves to. *)
Theorem X10_menu_matches_resolution (withdrawableMinipools : list minipool.NodeStatus)
        (k : Z) :
  1 <= k <= Z.of_nat (length withdrawableMinipools) ->
  Z.of_nat (length withdrawableMinipools) <= strconv.maxInt ->
  exists lines minipoolStatus,
    selectionPrompt withdrawableMinipools = strings.Join lines LF
    /\ length lines = S (length withdrawableMinipools)
    /\ lines !! 0%nat = Some menuHeader
    /\ withdrawableMinipools !! Z.to_nat (k - 1) = Some minipoolStatus
    /\ lines !! Z.to_nat k = Some (menuLine k minipoolStatus)
    /\ withdrawAddresses withdrawableMinipools (strconv.Itoa k)
       = inr [minipool.Address minipoolStatus].
Proof.
  intros Hk Hmax.
  destruct (withdrawAddresses_number withdrawableMinipools k Hk Hmax) as (s & Hs & Hsel).
  exists (fst (menu 0 withdrawableMinipools [menuHeader] [])), s.
  split; [reflexivity|]. rewrite menu_prompt.
  split; [simpl; rewrite length_map, length_combine, length_seq; lia|].
  split; [reflexivity|]. split; [exact Hs|]. split; [|exact Hsel].
  replace (Z.to_nat k) with (S (Z.to_nat (k - 1))) by lia.
  cbn [app]. rewrite lookup_cons_S.
  rewrite lookup_of_map, (lookup_combine_seq _ _ _ 0%nat Hs). cbn.
  do 2 f_equal. lia.
Qed.

(** X10 on three withdrawable minipools and the number 2. *)
Lemma X10_witness :
  let l := [Sample.initialized1; Sample.withdrawn2; Sample.timedOut3] in
  (1 <= 2 <= Z.of_nat (length l) /\ Z.of_nat (length l) <= strconv.maxInt)
  /\ exists lines minipoolStatus,
       selectionPrompt l = strings.Join lines LF
       /\ length lines = S (length l)
       /\ lines !! 0%nat = Some menuHeader
       /\ l !! Z.to_nat (2 - 1) = Some minipoolStatus
       /\ lines !! Z.to_nat 2 = Some (menuLine 2 minipoolStatus)
       /\ withdrawAddresses l (strconv.Itoa 2) = inr [minipool.Address minipoolStatus].
Proof.
  cbv zeta.
  assert (H1 : 1 <= 2 <= Z.of_nat (length [Sample.initialized1; Sample.withdrawn2;
                                            Sample.timedOut3])) by (simpl; lia).
  assert (H2 : Z.of_nat (length [Sample.initialized1; Sample.withdrawn2; Sample.timedOut3])
               <= strconv.maxInt) by (vm_compute; discriminate).
  split; [split; [exact H1|exact H2]|].
  exact (X10_menu_matches_resolution
           [Sample.initialized1; Sample.withdrawn2; Sample.timedOut3] 2 H1 H2).
Defined.

(** X11. Answering with the all-token withdraws from the same
    minipools, in the same order, as answering in turn with the number
    of each withdrawable minipool that is not initialized. *)
Theorem X11_all_is_each_number (withdrawableMinipools : list minipool.NodeStatus)
        (response : string) :
  Z.of_nat (length withdrawableMinipools) <= strconv.maxInt ->
  startsWithA response = true ->
  resolution withdrawableMinipools response
  = flat_map (fun k => resolution withdrawableMinipools (strconv.Itoa (Z.of_nat k)))
             (numbersNotInitialized withdrawableMinipools).
Proof.
  intros Hmax HA. unfold resolution at 1.
  rewrite (withdrawAddresses_all _ _ HA), (filter_by_number notInitialized minipool.Address).
  apply flat_map_ext_in. intros k Hk.
  apply List.filter_In in Hk as [Hk _]. apply in_seq in Hk.
  destruct (withdrawAddresses_number withdrawableMinipools (Z.of_nat k) ltac:(lia) Hmax)
    as (s & Hs & Hsel).
  replace (Z.to_nat (Z.of_nat k - 1)) with (pred k) in Hs by lia.
  unfold resolution. rewrite Hs, Hsel. reflexivity.
Qed.

(** X11 on three withdrawable minipools, the first one initialized. *)
Lemma X11_witness :
  let l := [Sample.initialized1; Sample.withdrawn2; Sample.timedOut3] in
  (Z.of_nat (length l) <= strconv.maxInt /\ startsWithA "A" = true)
  /\ numbersNotInitialized l = [2; 3]%nat
  /\ resolution l "A"
     = flat_map (fun k => resolution l (strconv.Itoa (Z.of_nat k))) (numbersNotInitialized l).
Proof.
  cbv zeta.
  assert (H1 : Z.of_nat (length [Sample.initialized1; Sample.withdrawn2; Sample.timedOut3])
               <= strconv.maxInt) by (vm_compute; discriminate).
  split; [split; [exact H1|reflexivity]|]. split; [reflexivity|].
  exact (X11_all_is_each_number
           [Sample.initialized1; Sample.withdrawn2; Sample.timedOut3] "A" H1 eq_refl).
Defined.

(** ** The whole command: exits *)

Section CommandFacts.

Context {Event W Transactor Receipt : Type} {assertion : TypeAssertion Event}.
Variable p : Services Event W Transactor Receipt.

(** The command, exit by exit, up to status collection. *)
Lemma withdrawFrom_unfold (sched : list choice) (st : state W) :
  withdrawFrom p sched st
  = match getWithdrawalAllowed p (chain st) with
    | Err err =>
        ({| chain := chain st; Input := Input st; Output := Output st;
            calls := calls st ++ [CheckWithdrawalAllowed] |},
         inl (Return (Some ("Error checking node withdrawals enabled status: " ++ err)%string)))
    | Ok false =>
        ({| chain := chain st; Input := Input st;
            Output := Output st ++ ["Node withdrawals are currently disabled in Rocket Pool"%string];
            calls := calls st ++ [CheckWithdrawalAllowed] |},
         inl (Return None))
    | Ok true =>
        match GetMinipoolAddresses p (chain st) with
        | Err err =>
            ({| chain := chain st; Input := Input st; Output := Output st;
                calls := (calls st ++ [CheckWithdrawalAllowed]) ++ [FetchMinipoolAddresses] |},
             inl (Return (Some err)))
        | Ok minipoolAddresses =>
            (withdrawableMinipools <- receiveStatuses p sched minipoolAddresses ;;
             selectMinipools p withdrawableMinipools)
              {| chain := chain st; Input := Input st; Output := Output st;
                 calls := (calls st ++ [CheckWithdrawalAllowed]) ++ [FetchMinipoolAddresses] |}
        end
    end.
Proof.
  cbv beta iota zeta delta [withdrawFrom bind query record Fprintln leave
                            chain Input Output calls].
  destruct st as [w input output done].
  destruct (getWithdrawalAllowed p w) as [[|]|err]; try reflexivity.
  destruct (GetMinipoolAddresses p w) as [addresses|err]; reflexivity.
Qed.

Lemma withdrawMinipool_ended (sched : list choice) (st st' : state W) (e : exit) :
  withdrawFrom p sched st = (st', inl e) ->
  withdrawMinipool (Ok p) sched st = {| final := st'; ended := e |}.
Proof. intros H. unfold withdrawMinipool. rewrite H. reflexivity. Qed.

(** From the prompt on, the chain state changes only if a withdrawal is
    attempted. *)
Lemma selectMinipools_chain (l : list minipool.NodeStatus) (st : state W) :
  exists evs,
    calls (fst (selectMinipools p l st)) = (calls st ++ evs)%list
    /\ (attempted evs = [] -> chain (fst (selectMinipools p l st)) = chain st).
Proof.
  unfold selectMinipools.
  destruct l as [|s l'] eqn:Hl.
  { exists []. simpl. rewrite app_nil_r. auto. }
  rewrite <- Hl. replace (length l =? 0)%nat with false by (subst; reflexivity).
  unfold bind.
  destruct (Prompt_cases (selectionPrompt l) (selectionPattern l) incorrectSelection st)
    as (rest & out & [H|(response & _ & _ & H)]); cbv zeta in H; rewrite H.
  - exists [AskOperator]. simpl. auto.
  - destruct (withdrawAddresses l response) as [e|addresses].
    + exists [AskOperator]. simpl. auto.
    + destruct addresses as [|a addresses].
      * rewrite finishWithdrawals_none. exists [AskOperator]. simpl. auto.
      * destruct (finishWithdrawals_cases p (a :: addresses)
                    {| chain := chain st; Input := rest; Output := Output st ++ out;
                       calls := calls st ++ [AskOperator] |} ltac:(discriminate))
          as (done & w' & evs & outcomes & Hatt
              & [(Hd & ->)|(a' & rest' & w2 & Hd & _ & ->)]).
        -- exists (AskOperator :: evs). cbn [fst calls chain].
           split; [rewrite <- app_assoc; reflexivity|].
           intros Hnone. simpl in Hnone.
           rewrite (attempts_attempted p _ _ _ _ _ Hatt), Hd in Hnone. discriminate.
        -- exists (AskOperator :: evs
                   ++ [CreateTransactor a'; SendWithdrawal a'; ReadWithdrawalEvents a'])%list.
           cbn [fst calls chain].
           split; [rewrite <- app_assoc; reflexivity|].
           intros Hnone. simpl in Hnone. rewrite attempted_app in Hnone.
           apply app_eq_nil in Hnone as [_ Hnone]. discriminate.
Qed.

End CommandFacts.

Lemma attempted_later (evs : list event) :
  Forall (fun ev => laterPhase ev = false) evs -> attempted evs = [].
Proof.
  induction 1 as [|ev evs Hev _ IH]; [reflexivity|].
  destruct ev; simpl; try exact IH. discriminate Hev.
Qed.

(** X12. No line the operator types makes the command panic.  Of the
    run-time checks on the command's own statements that the model
    covers (the slice of the response, the index into the withdrawable
    list behind the dropped error of [Atoi], and the type assertion of
    line 149), the first two hold in every run, whatever the services
    answer and the goroutines' schedule, provided the number of minipool
    addresses fits an int: a run that ends in a panic has passed the
    selection, sent a withdrawal and read its events, and the first of
    them is not a [NodeWithdrawal].  Nil pointers handed back by the
    services are not values of the model. *)
Theorem X12_panic_only_at_type_assertion {W Transactor Receipt}
        (NewProvider : result (Services any W Transactor Receipt))
        (sched : list choice) (st : state W) :
  (forall p minipoolAddresses,
      NewProvider = Ok p ->
      GetMinipoolAddresses p (chain st) = Ok minipoolAddresses ->
      Z.of_nat (length minipoolAddresses) <= strconv.maxInt) ->
  ended (withdrawMinipool NewProvider sched st) = Panic ->
  exists p a txReceipt first more,
    NewProvider = Ok p
    /\ last (calls (final (withdrawMinipool NewProvider sched st)))
       = Some (ReadWithdrawalEvents a)
    /\ GetTransactionEvents p (chain (final (withdrawMinipool NewProvider sched st)))
                            txReceipt a
       = Ok (first :: more)
    /\ nodeWithdrawal first = None.
Proof.
  intros Hmax. destruct NewProvider as [p|err]; [|simpl; discriminate].
  specialize (Hmax p).
  destruct (withdrawFrom p sched st) as [st' [e|[]]] eqn:Hrun.
  rewrite (withdrawMinipool_ended p sched st st' e Hrun). cbn [ended final].
  rewrite withdrawFrom_unfold in Hrun.
  destruct (getWithdrawalAllowed p (chain st)) as [[|]|err]; try (injection Hrun as _ <-; discriminate).
  destruct (GetMinipoolAddresses p (chain st)) as [addresses|err];
    [|injection Hrun as _ <-; discriminate].
  specialize (Hmax addresses eq_refl eq_refl).
  match type of Hrun with bind _ _ ?s = _ =>
    destruct (receiveStatuses_cases p sched addresses s) as (evs & _ & H)
  end.
  cbv zeta in H. unfold bind in Hrun.
  destruct H as [H|[(statuses & HF & _ & _ & H)|(err & _ & _ & H)]]; rewrite H in Hrun.
  - injection Hrun as _ <-. discriminate.
  - intros ->.
    match type of Hrun with selectMinipools p ?l ?s = _ =>
      destruct (selectMinipools_panic p l s) as (a & txReceipt & first & more & Hlast & Hev & Hnone)
    end.
    + pose proof (List.filter_length_le withdrawable statuses) as Hle.
      rewrite <- (Forall2_length _ _ _ HF) in Hle. lia.
    + rewrite Hrun. reflexivity.
    + rewrite Hrun in Hlast, Hev. cbn [fst] in Hlast, Hev.
      exists p, a, txReceipt, first, more. auto.
  - injection Hrun as _ <-. discriminate.
Qed.

(** X12 on the sample node: the operator types two lines the prompt
    refuses, then asks for all; the receipt of the third minipool holds a
    value that is not a [NodeWithdrawal]. *)
Lemma X12_witness :
  let np := Ok (Sample.untyped (fun _ => Ok tt) Sample.strayEvents) in
  let st := start 0%nat [""; "7"; "A"]%string in
  ((forall p minipoolAddresses,
       np = Ok p ->
       GetMinipoolAddresses p (chain st) = Ok minipoolAddresses ->
       Z.of_nat (length minipoolAddresses) <= strconv.maxInt)
   /\ ended (withdrawMinipool np Sample.inTurn st) = Panic)
  /\ exists p a txReceipt first more,
       np = Ok p
       /\ last (calls (final (withdrawMinipool np Sample.inTurn st)))
          = Some (ReadWithdrawalEvents a)
       /\ GetTransactionEvents p (chain (final (withdrawMinipool np Sample.inTurn st)))
                               txReceipt a
          = Ok (first :: more)
       /\ nodeWithdrawal first = None.
Proof.
  cbv zeta.
  assert (H : forall (p : Services any nat unit unit) minipoolAddresses,
             Ok (Sample.untyped (fun _ => Ok tt) Sample.strayEvents) = Ok p ->
             GetMinipoolAddresses p (chain (start 0%nat [""; "7"; "A"]%string))
             = Ok minipoolAddresses ->
             Z.of_nat (length minipoolAddresses) <= strconv.maxInt).
  { intros p l Hp Hl. injection Hp as <-. injection Hl as <-. vm_compute. discriminate. }
  assert (Hpanic : ended (withdrawMinipool
                            (Ok (Sample.untyped (fun _ => Ok tt) Sample.strayEvents))
                            Sample.inTurn (start 0%nat [""; "7"; "A"]%string))
                   = Panic) by reflexivity.
  split; [split; [exact H|exact Hpanic]|].
  exact (X12_panic_only_at_type_assertion _ Sample.inTurn
           (start 0%nat [""; "7"; "A"]%string) H Hpanic).
Defined.

(** X13. The command changes the chain state only through a withdrawal
    attempt: a run in which no transactor was requested, however it
    ended (an early return, an error of status collection, an operator
    who has not answered), leaves the chain state as it found it. *)
Theorem X13_chain_untouched_without_attempt {W Transactor Receipt}
        (NewProvider : result (Provider W Transactor Receipt))
        (sched : list choice) (w : W) (input : list string) :
  let o := withdrawMinipool NewProvider sched (start w input) in
  attempted (calls (final o)) = [] -> chain (final o) = w.
Proof.
  cbv zeta. destruct NewProvider as [p|err]; [|reflexivity].
  destruct (withdrawFrom p sched (start w input)) as [st' [e|[]]] eqn:Hrun.
  rewrite (withdrawMinipool_ended p sched _ st' e Hrun). cbn [final].
  rewrite withdrawFrom_unfold in Hrun. cbn [start chain Input Output calls] in Hrun.
  destruct (getWithdrawalAllowed p w) as [[|]|err]; try (injection Hrun as <- _; reflexivity).
  destruct (GetMinipoolAddresses p w) as [addresses|err];
    [|injection Hrun as <- _; reflexivity].
  match type of Hrun with bind _ _ ?s = _ =>
    destruct (receiveStatuses_cases p sched addresses s) as (evs & _ & H)
  end.
  cbv zeta in H. unfold bind in Hrun. cbn [chain Input Output calls] in H.
  destruct H as [H|[(statuses & _ & _ & _ & H)|(err & _ & _ & H)]]; rewrite H in Hrun.
  - injection Hrun as <- _. reflexivity.
  - match type of Hrun with selectMinipools p ?l ?s = _ =>
      destruct (selectMinipools_chain p l s) as (evs' & Hcalls & Hchain)
    end.
    rewrite Hrun in Hcalls, Hchain. cbn [fst chain calls] in Hcalls, Hchain.
    intros Hnone. apply Hchain.
    rewrite Hcalls, attempted_app in Hnone.
    apply app_eq_nil in Hnone as [_ Hnone]. exact Hnone.
  - injection Hrun as <- _. reflexivity.
Qed.

(** X13 on the sample node with an operator who types nothing. *)
Lemma X13_witness :
  let o := withdrawMinipool (Ok (Sample.node (Ok true) Sample.mixed (fun _ => Ok tt)))
             Sample.inTurn (start 0%nat []) in
  (attempted (calls (final o)) = [] /\ ended o = Blocked)
  /\ chain (final o) = 0%nat.
Proof.
  cbv zeta. split; [split; reflexivity|].
  exact (X13_chain_untouched_without_attempt
           (Ok (Sample.node (Ok true) Sample.mixed (fun _ => Ok tt)))
           Sample.inTurn 0%nat [] eq_refl).
Defined.

(** X14. A failure to initialise the services, or to fetch the
    minipool addresses, is returned as it is: in the first case nothing
    has been called or printed, in the second only the two calls made
    so far are on record, no status was queried and nothing was
    printed. *)
Theorem X14_discovery_errors_returned {W Transactor Receipt}
        (p : Provider W Transactor Receipt) (sched : list choice)
        (w : W) (input : list string) (err : error) :
  withdrawMinipool (@Err (Provider W Transactor Receipt) err) sched (start w input)
  = {| final := start w input; ended := Return (Some err) |}
  /\ (getWithdrawalAllowed p w = Ok true ->
      GetMinipoolAddresses p w = Err err ->
      withdrawMinipool (Ok p) sched (start w input)
      = {| final := {| chain := w; Input := input; Output := [];
                       calls := [CheckWithdrawalAllowed; FetchMinipoolAddresses] |};
           ended := Return (Some err) |}).
Proof.
  split; [reflexivity|]. intros Hallowed Herr.
  apply withdrawMinipool_ended. rewrite withdrawFrom_unfold.
  cbn [start chain Input Output calls]. rewrite Hallowed, Herr. reflexivity.
Qed.

(** X14 on the sample node. *)
Lemma X14_witness :
  (getWithdrawalAllowed unregisteredNode 0%nat = Ok true
   /\ GetMinipoolAddresses unregisteredNode 0%nat = Err "node not registered"%string)
  /\ withdrawMinipool (Ok unregisteredNode) Sample.inTurn (start 0%nat ["A"%string])
     = {| final := {| chain := 0%nat; Input := ["A"%string]; Output := [];
                      calls := [CheckWithdrawalAllowed; FetchMinipoolAddresses] |};
          ended := Return (Some "node not registered"%string) |}.
Proof.
  split; [split; reflexivity|].
  exact (proj2 (X14_discovery_errors_returned unregisteredNode Sample.inTurn 0%nat
                  ["A"%string] "node not registered"%string) eq_refl eq_refl).
Defined.

Lemma attempts_later {Event W Transactor Receipt} {assertion : TypeAssertion Event}
      (p : Services Event W Transactor Receipt)
      (addresses : list common.Address) w w' evs outcomes :
  attempts p addresses w w' evs outcomes -> Forall (fun ev => laterPhase ev = true) evs.
Proof.
  induction 1 as [|a rest w w1 w2 evs1 evs2 o outcomes Ha _ IH]; [constructor|].
  apply Forall_app. split; [|exact IH]. destruct Ha; repeat constructor.
Qed.

Lemma delivered_later (evs : list event) :
  Forall (fun ev => laterPhase ev = true) evs -> delivered evs = [].
Proof.
  induction 1 as [|ev evs Hev _ IH]; [reflexivity|].
  destruct ev; simpl; try exact IH. discriminate Hev.
Qed.

Lemma not_asked (evs : list event) :
  Forall (fun ev => laterPhase ev = false) evs -> ~ In AskOperator evs.
Proof.
  intros H Hin. rewrite Forall_forall in H.
  specialize (H AskOperator ltac:(apply list_elem_of_In; exact Hin)). discriminate H.
Qed.

(** From the prompt on, no status is received; nothing is recorded when
    the withdrawable list is empty. *)
Lemma selectMinipools_events {W Transactor Receipt} (p : Provider W Transactor Receipt)
      (l : list minipool.NodeStatus) (st : state W) :
  exists evs,
    calls (fst (selectMinipools p l st)) = (calls st ++ evs)%list
    /\ delivered evs = []
    /\ (l = [] -> evs = []).
Proof.
  unfold selectMinipools.
  destruct l as [|s l'] eqn:Hl.
  { exists []. simpl. rewrite app_nil_r. auto. }
  rewrite <- Hl. replace (length l =? 0)%nat with false by (subst; reflexivity).
  assert (Hne : l = [] -> False) by (subst; discriminate).
  unfold bind.
  destruct (Prompt_cases (selectionPrompt l) (selectionPattern l) incorrectSelection st)
    as (rest & out & [H|(response & _ & _ & H)]); cbv zeta in H; rewrite H.
  - exists [AskOperator]. simpl. split; [reflexivity|]. split; [reflexivity|]. intros E. destruct (Hne E).
  - destruct (withdrawAddresses l response) as [e|addresses].
    + exists [AskOperator]. simpl. split; [reflexivity|]. split; [reflexivity|].
      intros E. destruct (Hne E).
    + destruct addresses as [|a addresses].
      * rewrite finishWithdrawals_none. exists [AskOperator]. simpl.
        split; [reflexivity|]. split; [reflexivity|]. intros E. destruct (Hne E).
      * destruct (finishWithdrawals_some p (a :: addresses)
                    {| chain := chain st; Input := rest; Output := Output st ++ out;
                       calls := calls st ++ [AskOperator] |}
                    (typed_decodes p) ltac:(discriminate))
          as (w' & evs & outcomes & Hatt & ->).
        exists (AskOperator :: evs). cbn [fst calls].
        split; [rewrite <- app_assoc; reflexivity|].
        split; [|intros E; destruct (Hne E)].
        simpl. apply delivered_later. exact (attempts_later p _ _ _ _ _ Hatt).
Qed.

(** X15. The operator is asked only when it makes sense: if the prompt
    was issued in a run, then the services were initialised,
    withdrawals were allowed, the addresses were fetched, every status
    query had succeeded and been received in address order, and at least
    one status was withdrawable. *)
Theorem X15_operator_asked_only_when_withdrawable {W Transactor Receipt}
        (NewProvider : result (Provider W Transactor Receipt))
        (sched : list choice) (w : W) (input : list string) :
  let o := withdrawMinipool NewProvider sched (start w input) in
  In AskOperator (calls (final o)) ->
  exists p minipoolAddresses statuses,
    NewProvider = Ok p
    /\ getWithdrawalAllowed p w = Ok true
    /\ GetMinipoolAddresses p w = Ok minipoolAddresses
    /\ Forall2 (fun a s => GetNodeStatus p w a = Ok s) minipoolAddresses statuses
    /\ delivered (calls (final o)) = combine (seq 0 (length minipoolAddresses)) statuses
    /\ List.filter withdrawable statuses <> [].
Proof.
  cbv zeta. destruct NewProvider as [p|err]; [|intros []].
  destruct (withdrawFrom p sched (start w input)) as [st' [e|[]]] eqn:Hrun.
  rewrite (withdrawMinipool_ended p sched _ st' e Hrun). cbn [final].
  rewrite withdrawFrom_unfold in Hrun. cbn [start chain Input Output calls] in Hrun.
  destruct (getWithdrawalAllowed p w) as [[|]|err] eqn:Hallowed;
    try (injection Hrun as <- _; cbn [calls]; simpl; intros [H|[]]; discriminate H).
  destruct (GetMinipoolAddresses p w) as [addresses|err] eqn:Haddresses;
    [|injection Hrun as <- _; cbn [calls]; simpl; intros [H|[H|[]]]; discriminate H].
  match type of Hrun with bind _ _ ?s = _ =>
    destruct (receiveStatuses_cases p sched addresses s) as (evs & Hevs & H)
  end.
  cbv zeta in H. unfold bind in Hrun. cbn [chain Input Output calls] in H.
  assert (Hpre : forall st'' : state W,
             calls st'' = ([CheckWithdrawalAllowed; FetchMinipoolAddresses] ++ evs)%list ->
             ~ In AskOperator (calls st'')).
  { intros st'' -> Hin. apply in_app_or in Hin as [[Hin|[Hin|[]]]|Hin]; try discriminate.
    exact (not_asked evs Hevs Hin). }
  destruct H as [H|[(statuses & HF & Hd & _ & H)|(err & _ & _ & H)]]; rewrite H in Hrun.
  - injection Hrun as <- _. intros Hin. exfalso. eapply Hpre; [|exact Hin]. reflexivity.
  - match type of Hrun with selectMinipools p ?l ?s = _ =>
      destruct (selectMinipools_events p l s) as (evs' & Hcalls & Hdel & Hempty)
    end.
    rewrite Hrun in Hcalls. cbn [fst calls] in Hcalls.
    intros Hin. exists p, addresses, statuses.
    repeat split; try assumption.
    + rewrite Hcalls, !delivered_app, Hdel, Hd, app_nil_r. reflexivity.
    + intros Hnone. rewrite (Hempty Hnone), app_nil_r in Hcalls.
      exact (Hpre _ Hcalls Hin).
  - injection Hrun as <- _. intros Hin. exfalso. eapply Hpre; [|exact Hin]. reflexivity.
Qed.

(** X15 on the sample node. *)
Lemma X15_witness :
  let np := Ok (Sample.node (Ok true) Sample.mixed (fun _ => Ok tt)) in
  let o := withdrawMinipool np Sample.inTurn (start 0%nat ["3"%string]) in
  In AskOperator (calls (final o))
  /\ exists p minipoolAddresses statuses,
       np = Ok p
       /\ getWithdrawalAllowed p 0%nat = Ok true
       /\ GetMinipoolAddresses p 0%nat = Ok minipoolAddresses
       /\ Forall2 (fun a s => GetNodeStatus p 0%nat a = Ok s) minipoolAddresses statuses
       /\ delivered (calls (final o)) = combine (seq 0 (length minipoolAddresses)) statuses
       /\ List.filter withdrawable statuses <> [].
Proof.
  cbv zeta.
  assert (H : In AskOperator
                (calls (final (withdrawMinipool
                                 (Ok (Sample.node (Ok true) Sample.mixed (fun _ => Ok tt)))
                                 Sample.inTurn (start 0%nat ["3"%string]))))).
  { vm_compute. do 8 right. left. reflexivity. }
  split; [exact H|].
  exact (X15_operator_asked_only_when_withdrawable
           (Ok (Sample.node (Ok true) Sample.mixed (fun _ => Ok tt)))
           Sample.inTurn 0%nat ["3"%string] H).
Defined.
